(** * Verification model of [app_compare.py]

    A shallow embedding of the data-transformation core of the company
    financial comparison dashboard: the name mapping, the table loader with
    its unit scaling, the guarded division, the selection and filtering of
    rows, the revenue growth index, the metric tables and chart series, and
    the flow of one render cycle over a store of tables.

    Numbers are binary64 floats, as pandas and numpy hold them; in the
    tables of the dashboard an [int64] cell is represented by the float of
    the same value (exact below 2^53).  A pandas table is a list of named
    columns; a column is either of dtype [object] (texts and numbers
    mixed) or numeric.  The loader works on the spreadsheet with its
    column dtypes ([object], [float64], [int64], [uint64]) kept apart,
    since they decide which cells it scales. *)

From Stdlib Require Import ZArith Floats.
From stdpp Require Import gmap strings list sorting pretty.

Open Scope string_scope.

Set Warnings "-clear-no-such-hyp".

(** ** Python exceptions and results *)

Inductive exn :=
  | KeyError (key : string)
  | TypeError
  | ZeroDivisionError
  | ValueError
  | IndexError
  | OverflowError.

Inductive result (A : Type) :=
  | Ok (a : A)
  | Raise (e : exn).
Arguments Ok {A} a.
Arguments Raise {A} e.

Definition rbind {A B} (m : result A) (k : A → result B) : result B :=
  match m with
  | Ok a => k a
  | Raise e => Raise e
  end.

Notation "x ←r m ; k" := (rbind m (λ x, k))
  (at level 100, m at next level, k at level 200, right associativity,
   format "x  ←r  m ;  '/' k").

(** ** Numbers *)

(** [pd.notna] on a number. *)
Definition notna (x : float) : bool := negb (PrimFloat.is_nan x).

(** A Python [int] seen as a float, the way numpy promotes it in a
    comparison with a float column. *)
Definition float_of_Z (z : Z) : float :=
  match z with
  | Z0 => PrimFloat.zero
  | Zpos _ => PrimFloat.of_uint63 (Uint63.of_Z z)
  | Zneg _ => PrimFloat.opp (PrimFloat.of_uint63 (Uint63.of_Z (Z.opp z)))
  end.

(** ** Tables *)

(** An entry of an [object] column: a text, or a number ([nan] for an empty
    spreadsheet cell). *)
Inductive pyobj :=
  | PStr (s : string)
  | PNum (x : float).

Inductive Series :=
  | ObjectSeries (vs : list pyobj)
  | NumSeries (vs : list float).

Definition DataFrame := list (string * Series).

Definition series_cells (s : Series) : list pyobj :=
  match s with
  | ObjectSeries vs => vs
  | NumSeries vs => PNum <$> vs
  end.

Definition series_len (s : Series) : nat := length (series_cells s).

Definition is_numeric (s : Series) : bool :=
  match s with
  | NumSeries _ => true
  | ObjectSeries _ => false
  end.

(** [df.columns] *)
Definition columns (df : DataFrame) : list string := df.*1.

(** [len(df)] *)
Definition nrows (df : DataFrame) : nat :=
  match df with
  | [] => 0
  | (_, s) :: _ => series_len s
  end.

(** [df.empty]: no column, or no row. *)
Definition df_empty (df : DataFrame) : bool :=
  match df with
  | [] => true
  | _ => Nat.eqb (nrows df) 0
  end.

(** [col in df.columns] *)
Definition has_col (df : DataFrame) (name : string) : bool :=
  bool_decide (name ∈ columns df).

(** [df[name]], [None] standing for the [KeyError]. *)
Fixpoint get_col (df : DataFrame) (name : string) : option Series :=
  match df with
  | [] => None
  | (n, s) :: rest => if decide (n = name) then Some s else get_col rest name
  end.

Definition getitem (df : DataFrame) (name : string) : result Series :=
  match get_col df name with
  | Some s => Ok s
  | None => Raise (KeyError name)
  end.

(** [df[name] = s]: replaces the column of that name, or appends a new one. *)
Fixpoint set_col (df : DataFrame) (name : string) (s : Series) : DataFrame :=
  match df with
  | [] => [(name, s)]
  | (n, old) :: rest =>
      if decide (n = name) then (n, s) :: rest
      else (n, old) :: set_col rest name s
  end.

(** Boolean indexing [values[mask]]. *)
Fixpoint mask_select {A} (mask : list bool) (vs : list A) : list A :=
  match mask, vs with
  | b :: mask', v :: vs' =>
      if b then v :: mask_select mask' vs' else mask_select mask' vs'
  | _, _ => []
  end.

Definition series_mask (mask : list bool) (s : Series) : Series :=
  match s with
  | ObjectSeries vs => ObjectSeries (mask_select mask vs)
  | NumSeries vs => NumSeries (mask_select mask vs)
  end.

(** [df[mask]]: a new table with the rows where the mask holds. *)
Definition df_mask (df : DataFrame) (mask : list bool) : DataFrame :=
  (λ c, (c.1, series_mask mask c.2)) <$> df.

(** [df[[names]]]: a new table of the named columns, [KeyError] on the first
    missing one. *)
Fixpoint select_columns (df : DataFrame) (names : list string)
    : result DataFrame :=
  match names with
  | [] => Ok []
  | n :: rest =>
      s ←r getitem df n;
      d ←r select_columns df rest;
      Ok ((n, s) :: d)
  end.

(** [[c for c in names if c in df.columns]] *)
Definition present_columns (df : DataFrame) (names : list string)
    : list string :=
  List.filter (has_col df) names.

(** Element-wise comparisons producing masks. *)
Definition obj_eq_str (c : string) (o : pyobj) : bool :=
  match o with
  | PStr s => bool_decide (s = c)
  | PNum _ => false
  end.

Definition obj_isin (vals : list string) (o : pyobj) : bool :=
  match o with
  | PStr s => bool_decide (s ∈ vals)
  | PNum _ => false
  end.

(** [o == y] for a Python int [y]; [None] compares unequal to everything. *)
Definition obj_eq_int (y : option Z) (o : pyobj) : bool :=
  match o, y with
  | PNum x, Some z => PrimFloat.eqb x (float_of_Z z)
  | _, _ => false
  end.

(** [series.isin(vals)], [series == c], [series == y] *)
Definition isin (s : Series) (vals : list string) : list bool :=
  obj_isin vals <$> series_cells s.
Definition eq_str (s : Series) (c : string) : list bool :=
  obj_eq_str c <$> series_cells s.
Definition eq_int (s : Series) (y : option Z) : list bool :=
  obj_eq_int y <$> series_cells s.

(** [series >= y] and [series <= y]; ordering a text against a number
    raises. *)
Definition obj_cmp_int (cmp : float → float → bool) (y : Z) (o : pyobj)
    : result bool :=
  match o with
  | PNum x => Ok (cmp x (float_of_Z y))
  | PStr _ => Raise TypeError
  end.

Fixpoint rmap {A B} (f : A → result B) (l : list A) : result (list B) :=
  match l with
  | [] => Ok []
  | x :: l' => b ←r f x; bs ←r rmap f l'; Ok (b :: bs)
  end.

Definition ge_int (s : Series) (y : Z) : result (list bool) :=
  rmap (obj_cmp_int (λ a b, PrimFloat.leb b a) y) (series_cells s).
Definition le_int (s : Series) (y : Z) : result (list bool) :=
  rmap (obj_cmp_int PrimFloat.leb y) (series_cells s).

(** [m1 & m2] *)
Definition mask_and (m1 m2 : list bool) : list bool := zip_with andb m1 m2.

(** ** Guarded division ([safe_divide]) *)

(** What a caller can pass: a plain Python number, a numpy scalar, or a
    Series / one-dimensional array.  numpy results are arrays of dimension
    zero or one. *)
Inductive operand :=
  | PyNumber (x : float)
  | NpScalar (x : float)
  | NpArray (xs : list float).

Inductive ndarray (A : Type) :=
  | Nd0 (x : A)
  | Nd1 (xs : list A).
Arguments Nd0 {A} x.
Arguments Nd1 {A} xs.

Definition as_nd (o : operand) : ndarray float :=
  match o with
  | PyNumber x | NpScalar x => Nd0 x
  | NpArray xs => Nd1 xs
  end.

Definition of_nd (a : ndarray float) : operand :=
  match a with
  | Nd0 x => NpScalar x
  | Nd1 xs => NpArray xs
  end.

Definition nd_map {A B} (f : A → B) (a : ndarray A) : ndarray B :=
  match a with
  | Nd0 x => Nd0 (f x)
  | Nd1 xs => Nd1 (f <$> xs)
  end.

(** Element-wise combination with a scalar broadcast over an array.  The two
    arrays of one call are columns of one table; arrays of different lengths
    do not combine. *)
Definition nd_zip {A B C} (f : A → B → C) (a : ndarray A) (b : ndarray B)
    : result (ndarray C) :=
  match a, b with
  | Nd0 x, Nd0 y => Ok (Nd0 (f x y))
  | Nd0 x, Nd1 ys => Ok (Nd1 (f x <$> ys))
  | Nd1 xs, Nd0 y => Ok (Nd1 ((λ x, f x y) <$> xs))
  | Nd1 xs, Nd1 ys =>
      if decide (length xs = length ys) then Ok (Nd1 (zip_with f xs ys))
      else Raise ValueError
  end.

(** [a / b]: Python's own division of two plain numbers raises on a zero
    divisor; numpy divides element-wise by IEEE rules. *)
Definition truediv (a b : operand) : result operand :=
  match a, b with
  | PyNumber x, PyNumber y =>
      if PrimFloat.eqb y 0 then Raise ZeroDivisionError
      else Ok (PyNumber (PrimFloat.div x y))
  | _, _ => q ←r nd_zip PrimFloat.div (as_nd a) (as_nd b); Ok (of_nd q)
  end.

(** [b != 0] *)
Definition ne_zero (b : operand) : ndarray bool :=
  nd_map (λ y, negb (PrimFloat.eqb y 0)) (as_nd b).

(** [np.where(cond, a, b)] *)
Definition np_where (cond : ndarray bool) (a b : ndarray float)
    : result (ndarray float) :=
  ab ←r nd_zip pair a b;
  nd_zip (λ (c : bool) (xy : float * float), if c then xy.1 else xy.2) cond ab.

(** Python evaluates the three arguments of [np.where], the quotient
    included, before the call. *)
Definition safe_divide (numerator denominator default : operand)
    : result (ndarray float) :=
  let cond := ne_zero denominator in
  q ←r truediv numerator denominator;
  np_where cond (as_nd q) (as_nd default).

(** The guarded quotient of one pair of numbers. *)
Definition guarded_quotient (default n d : float) : float :=
  if PrimFloat.eqb d 0 then default else PrimFloat.div n d.

(** ** Name mapping *)

(** A dict built from key/value pairs in insertion order. *)
Definition dict_of_items (items : list (string * string))
    : gmap string string :=
  foldl (λ d kv, <[kv.1 := kv.2]> d) ∅ items.

(** [d.get(k, k)] *)
Definition dict_get_or (d : gmap string string) (k : string) : string :=
  default k (d !! k).

Definition COMPANY_NAME_MAPPING_items : list (string * string) :=
  [ ("フジ・リテイリング", "フジ");
    ("U.S.M.H", "USMH");
    ("マックスバリュ東海", "マックスバリュー東海") ].

Definition COMPANY_NAME_MAPPING : gmap string string :=
  dict_of_items COMPANY_NAME_MAPPING_items.

(** [{v: k for k, v in COMPANY_NAME_MAPPING.items()}] *)
Definition COMPANY_NAME_REVERSE_MAPPING : gmap string string :=
  dict_of_items (prod_swap <$> COMPANY_NAME_MAPPING_items).

Definition get_data_name (display_name : string) : string :=
  dict_get_or COMPANY_NAME_MAPPING display_name.

Definition get_display_name (data_name : string) : string :=
  dict_get_or COMPANY_NAME_REVERSE_MAPPING data_name.

Definition get_data_names (display_names : list string) : list string :=
  get_data_name <$> display_names.

Definition get_display_names (data_names : list string) : list string :=
  get_display_name <$> data_names.

(** [series.apply(get_display_name)]: a key that is not a text (an empty
    cell) is not in the dict and comes back unchanged. *)
Definition display_obj (o : pyobj) : pyobj :=
  match o with
  | PStr s => PStr (get_display_name s)
  | PNum x => PNum x
  end.

(** ** Cleaning helpers *)

(** [series.fillna(v)] on numbers. *)
Definition fillna (v x : float) : float :=
  if PrimFloat.is_nan x then v else x.

(** [series.replace(old, new)] on one text: whole-cell match only. *)
Definition replace_exact (old new s : string) : string :=
  if decide (s = old) then new else s.

(** ** Spreadsheets and column dtypes *)

(** The loader is the one place of the program where the dtype of a column
    decides what happens to it: [to_numeric] chooses a dtype for every
    column it parses, [select_dtypes] picks the columns to scale by dtype,
    and the scaling lambda receives a Python [int] from an [int64] column
    and a [float] from a [float64] column.  The spreadsheet and the table
    loaded from it therefore keep the dtypes of their columns apart. *)

(** A cell of an [object] column of the spreadsheet: a text, a Python
    [int], or a float ([nan] for an empty cell). *)
Inductive cell :=
  | CStr (s : string)
  | CInt (z : Z)
  | CFloat (x : float).

Inductive Column :=
  | ObjectCol (vs : list cell)
  | Float64Col (vs : list float)
  | Int64Col (vs : list Z)
  | UInt64Col (vs : list Z).

Definition Sheet := list (string * Column).

Definition column_len (c : Column) : nat :=
  match c with
  | ObjectCol vs => length vs
  | Float64Col vs => length vs
  | Int64Col vs | UInt64Col vs => length vs
  end.

(** [df.columns] *)
Definition sheet_columns (df : Sheet) : list string := df.*1.

(** [len(df)] *)
Definition sheet_nrows (df : Sheet) : nat :=
  match df with
  | [] => 0
  | (_, c) :: _ => column_len c
  end.

(** All columns have the same number of rows. *)
Definition sheet_wf (df : Sheet) : Prop :=
  Forall (λ c, column_len c.2 = sheet_nrows df) df.

(** [df[name]] *)
Fixpoint sheet_get (df : Sheet) (name : string) : option Column :=
  match df with
  | [] => None
  | (n, c) :: rest => if decide (n = name) then Some c else sheet_get rest name
  end.

(** [df[name] = c] *)
Fixpoint sheet_set (df : Sheet) (name : string) (c : Column) : Sheet :=
  match df with
  | [] => [(name, c)]
  | (n, old) :: rest =>
      if decide (n = name) then (n, c) :: rest
      else (n, old) :: sheet_set rest name c
  end.

(** One round of a loop [for column in names: df[column] = g(df[column])]. *)
Definition sheet_update (g : Column → Column) (df : Sheet) (name : string)
    : Sheet :=
  match sheet_get df name with
  | Some c => sheet_set df name (g c)
  | None => df
  end.

(** The integers that an [int64] and a [uint64] hold. *)
Definition INT64_MIN : Z := (- 2 ^ 63)%Z.

Definition int64 (z : Z) : Prop := (- 2 ^ 63 ≤ z < 2 ^ 63)%Z.
Definition uint64 (z : Z) : Prop := (0 ≤ z < 2 ^ 64)%Z.

#[global] Instance int64_dec z : Decision (int64 z).
Proof. unfold int64. apply _. Defined.
#[global] Instance uint64_dec z : Decision (uint64 z).
Proof. unfold uint64. apply _. Defined.

(** ** Unit scaling ([convert_to_million]) *)

(** The lambda on a cell of a [float64] column, a Python [float]. *)
Definition million_cell (x : float) : float :=
  if notna x && PrimFloat.leb 100000 (PrimFloat.abs x)
  then PrimFloat.div x 1000000
  else x.

(** [np.abs] of a Python [int] that comes from an [int64] column: numpy
    computes it in 64-bit two's complement, where the magnitude of -2^63
    is -2^63 again. *)
Definition wrap_int64 (z : Z) : Z := ((z + 2 ^ 63) `mod` 2 ^ 64 - 2 ^ 63)%Z.
Definition abs_int64 (z : Z) : Z := wrap_int64 (Z.abs z).

(** The test of the lambda on a cell of an [int64] column; an integer is
    never missing. *)
Definition int_scaled (z : Z) : bool := bool_decide (100000 ≤ abs_int64 z)%Z.

(** [float(z)] for an [int64]: [float_of_Z] rounds a magnitude below 2^63,
    and -2^63 is a binary64 number itself. *)
Definition float_of_int64 (z : Z) : float :=
  if decide (z = INT64_MIN) then (-0x1p63)%float else float_of_Z z.

(** The result of the lambda on a cell of an [int64] column, as a
    [float64]: [z / 1000000.0] for a cell that passes the test, the cell
    itself otherwise. *)
Definition million_int (z : Z) : float :=
  if int_scaled z then PrimFloat.div (float_of_int64 z) 1000000
  else float_of_int64 z.

(** [series.apply(lambda)] on a column of one of the two dtypes that the
    loop passes.  The results on a [float64] column are floats.  On an
    [int64] column a scaled cell gives a float and any other cell the
    integer itself; pandas makes an [int64] column of results that are
    all integers and a [float64] column of any others. *)
Definition apply_million (c : Column) : Column :=
  match c with
  | Float64Col xs => Float64Col (million_cell <$> xs)
  | Int64Col zs =>
      if existsb int_scaled zs then Float64Col (million_int <$> zs)
      else Int64Col zs
  | ObjectCol _ | UInt64Col _ => c
  end.

(** A dtype of [include=['int64', 'float64']]. *)
Definition int64_or_float64 (c : Column) : bool :=
  match c with
  | Float64Col _ | Int64Col _ => true
  | ObjectCol _ | UInt64Col _ => false
  end.

(** [df.select_dtypes(include=['int64', 'float64']).columns.tolist()] *)
Definition numeric_columns (df : Sheet) : list string :=
  (List.filter (λ c, int64_or_float64 c.2) df).*1.

(** [for column in numeric_columns: df[column] = df[column].apply(...)] on a
    copy of the table. *)
Definition convert_to_million (df : Sheet) : Sheet :=
  foldl (sheet_update apply_million) df (numeric_columns df).



(** ** Loading ([load_financial_data]) *)

(** The identifying columns that the cleaning loop leaves out. *)
Definition ID_COLUMNS : list string := ["企業名"; "決算年度"; "決算四半期"].

(** [df.columns.drop(ID_COLUMNS, errors='ignore')] *)
Definition num_cols (df : Sheet) : list string :=
  List.filter (λ c, negb (bool_decide (c ∈ ID_COLUMNS))) (sheet_columns df).

(** [.replace('-', '0').replace('', '0')] on one text. *)
Definition cleaned_text (s : string) : string :=
  replace_exact "" "0" (replace_exact "-" "0" s).

(** [series.fillna(v)]: an integer column has no missing cell. *)
Definition fillna_column (v : float) (c : Column) : Column :=
  match c with
  | Float64Col xs => Float64Col (fillna v <$> xs)
  | _ => c
  end.

Section Loader.
(** Three library functions are parameters of the loader: Python's [str]
    of a float, and what pandas' [to_numeric] reads in one text under
    [errors='coerce']: its [float64] value, which is [nan] for a text that
    is no number, and its integer when the text is an integer literal. *)
Variable str_of_float : float → string.
Variable to_numeric : string → float.
Variable int_literal : string → option Z.

(** [str] of a cell of an [object] column. *)
Definition cell_str (o : cell) : string :=
  match o with
  | CStr s => s
  | CInt z => pretty z
  | CFloat x => str_of_float x
  end.

(** [series.astype(str)] *)
Definition astype_str (c : Column) : list string :=
  match c with
  | ObjectCol vs => cell_str <$> vs
  | Float64Col xs => str_of_float <$> xs
  | Int64Col zs | UInt64Col zs => pretty <$> zs
  end.

(** [pd.to_numeric(texts, errors='coerce')].  When every text is an
    integer literal the column is of dtype [int64] if all the integers fit
    it, and of dtype [uint64] if they do not but all fit that; in every
    other case the column is of dtype [float64] and holds the float value
    of every text. *)
Definition to_numeric_coerce (texts : list string) : Column :=
  match mapM int_literal texts with
  | Some zs =>
      if decide (Forall int64 zs) then Int64Col zs
      else if decide (Forall uint64 zs) then UInt64Col zs
      else Float64Col (to_numeric <$> texts)
  | None => Float64Col (to_numeric <$> texts)
  end.

(** [pd.to_numeric(series.astype(str).replace('-', '0').replace('', '0'),
    errors='coerce').fillna(0)] *)
Definition clean_series (c : Column) : Column :=
  fillna_column 0 (to_numeric_coerce (cleaned_text <$> astype_str c)).

(** [for col in num_cols: df[col] = ...] *)
Definition clean_table (df : Sheet) : Sheet :=
  foldl (sheet_update clean_series) df (num_cols df).

(** The table read from the file, cleaned and scaled. *)
Definition load_table (df : Sheet) : Sheet :=
  convert_to_million (clean_table df).

(** [file] is the spreadsheet as [read_excel] returns it, [None] when the
    path does not exist. *)
Definition load_financial_data (file : option Sheet) : option Sheet :=
  match file with
  | Some df => Some (load_table df)
  | None => None
  end.
End Loader.

(** [str] and [to_numeric] on the cells of the sample spreadsheets below:
    an empty cell prints as [nan]; the texts [0], [7], [150], [250000] and
    the digits of 2^63 are integer literals, [inf] is the infinity, and
    every other text of the samples ([nan], [abc]) is no number. *)
Definition sample_str (x : float) : string :=
  if PrimFloat.is_nan x then "nan" else "0.0".

Definition sample_int_literal (s : string) : option Z :=
  if decide (s = "0") then Some 0%Z
  else if decide (s = "7") then Some 7%Z
  else if decide (s = "150") then Some 150%Z
  else if decide (s = "250000") then Some 250000%Z
  else if decide (s = "9223372036854775808") then Some (2 ^ 63)%Z
  else None.

Definition sample_to_numeric (s : string) : float :=
  if decide (s = "0") then 0%float
  else if decide (s = "0.0") then 0%float
  else if decide (s = "7") then 7%float
  else if decide (s = "150") then 150%float
  else if decide (s = "250000") then 250000%float
  else if decide (s = "9223372036854775808") then 0x1p63%float
  else if decide (s = "inf") then PrimFloat.infinity
  else PrimFloat.nan.

(** A spreadsheet with an [int64] year column, a revenue column with a
    text that is no number, a hyphen and an empty cell, a column of whole
    numbers with a hyphen, and a column that holds 2^63. *)
Definition sample_sheet : Sheet :=
  [ ("企業名", ObjectCol [CStr "A"; CStr "B"; CStr "C"; CStr "D"]);
    ("決算年度", Int64Col [2020%Z; 2020%Z; 2020%Z; 2020%Z]);
    ("売上高", ObjectCol [CStr "250000"; CStr "-"; CStr "abc";
                          CFloat PrimFloat.nan]);
    ("店舗数", ObjectCol [CInt 150; CStr "-"; CStr ""; CInt 7]);
    ("時価総額", ObjectCol [CInt (2 ^ 63); CInt 250000; CStr "-"; CInt 7]) ].

Definition infinite_sheet : Sheet :=
  [ ("企業名", ObjectCol [CStr "A"]);
    ("決算年度", Int64Col [2020%Z]);
    ("売上高", ObjectCol [CStr "inf"]) ].

(** ** Industry groups and the default selection *)

Definition CUSTOM : string := "カスタム".

Definition INDUSTRY_GROUPS : list (string * list string) :=
  [ ("イオングループ",
     ["イオン北海道"; "イオン九州"; "マックスバリュ東海"; "フジ・リテイリング";
      "U.S.M.H"; "ツルハ"]);
    ("ドラッグストア",
     ["ツルハ"; "マツキヨココカラ"; "コスモス薬品"; "クリエイトSD"; "サンドラッグ";
      "スギ薬局"; "クスリのアオキ"]);
    ("ホームセンター",
     ["DCMHD"; "コーナン"; "コメリ"; "アークランズ"; "ジョイフル本田"]);
    ("スーパーマーケット（全国）", ["PPIH"; "トライアル"]);
    ("スーパーマーケット（東日本）",
     ["イオン北海道"; "アークス"; "ヤオコー"; "ライフ"; "ベルク"; "U.S.M.H"]);
    ("スーパーマーケット（西日本）",
     ["平和堂"; "バロー"; "イズミ"; "ライフ"; "ハローズ"; "マックスバリュ東海";
      "フジ・リテイリング"]);
    (CUSTOM, []) ].

(** [d[k]] on a dict literal. *)
Fixpoint dict_lookup {A} (d : list (string * A)) (k : string) : option A :=
  match d with
  | [] => None
  | (k', v) :: rest => if decide (k' = k) then Some v else dict_lookup rest k
  end.

(** [series.unique().tolist()]: the values in order of first appearance. *)
Definition unique (l : list string) : list string :=
  foldl (λ acc x, if bool_decide (x ∈ acc) then acc else (acc ++ [x])%list) [] l.

(** Python orders texts by code point, which on their UTF-8 bytes is the
    byte-wise lexicographic order. *)
Definition str_le (a b : string) : Prop := String.leb a b = true.

#[global] Instance str_le_dec : RelDecision str_le.
Proof. intros a b. unfold str_le. apply _. Defined.

(** [sorted(l)] *)
Definition sorted (l : list string) : list string := merge_sort str_le l.

(** The texts of a column; ordering a text against an empty cell ([nan])
    raises. *)
Definition texts (cells : list pyobj) : result (list string) :=
  rmap (λ o, match o with PStr s => Ok s | PNum _ => Raise TypeError end)
    cells.

(** [sorted(df_raw['企業名'].unique().tolist())] *)
Definition available_data_names (df_raw : DataFrame) : result (list string) :=
  comp ←r getitem df_raw "企業名";
  names ←r texts (series_cells comp);
  Ok (sorted (unique names)).

(** [sorted([get_display_name(c) for c in available_data_names])] *)
Definition available_display_names (available : list string) : list string :=
  sorted (get_display_name <$> available).

(** The [default=] of the company multiselect. *)
Definition default_display_names (available : list string)
    (industry_choice : string) : result (list string) :=
  if decide (industry_choice = CUSTOM) then
    Ok (take 5 (available_display_names available))
  else
    match dict_lookup INDUSTRY_GROUPS industry_choice with
    | None => Raise (KeyError industry_choice)
    | Some preset_display_names =>
        let valid_display_names :=
          List.filter (λ name, bool_decide (get_data_name name ∈ available))
            preset_display_names in
        Ok (take 7 valid_display_names)
    end.

(** ** The current-period subset *)

(** [(df_raw['企業名'].isin(selected_companies)) &
     (df_raw['決算年度'] == selected_year)] *)
Definition compare_mask (df_raw : DataFrame) (selected_companies : list string)
    (selected_year : option Z) : result (list bool) :=
  comp ←r getitem df_raw "企業名";
  yr ←r getitem df_raw "決算年度";
  Ok (mask_and (isin comp selected_companies) (eq_int yr selected_year)).

(** [df_raw[mask].copy()] *)
Definition df_compare_of (df_raw : DataFrame) (selected_companies : list string)
    (selected_year : option Z) : result DataFrame :=
  mask ←r compare_mask df_raw selected_companies selected_year;
  Ok (df_mask df_raw mask).

(** The positions at which a mask holds, in increasing order: the row labels
    that boolean indexing keeps. *)
Fixpoint true_positions (mask : list bool) : list nat :=
  match mask with
  | [] => []
  | b :: mask' =>
      let later := S <$> true_positions mask' in
      if b then 0 :: later else later
  end.

(** The spreadsheet of the filtering example: companies A, B, C in the
    years 2019 and 2020. *)
Definition abc_table : DataFrame :=
  [ ("企業名", ObjectSeries [PStr "A"; PStr "B"; PStr "C";
                             PStr "A"; PStr "B"; PStr "C"]);
    ("決算年度", NumSeries [2019%float; 2019%float; 2019%float;
                            2020%float; 2020%float; 2020%float]);
    ("売上高", NumSeries [10%float; 20%float; 30%float;
                          11%float; 21%float; 31%float]) ].

(** ** Revenue growth index *)

Definition GROWTH : string := "売上高成長率".

(** A pandas table: all columns have the same number of rows. *)
Definition wf_frame (df : DataFrame) : Prop :=
  Forall (λ c, series_len c.2 = nrows df) df.

(** [values[mask] = v] *)
Definition mask_update {A} (mask : list bool) (v : A) (old : list A) : list A :=
  zip_with (λ (b : bool) x, if b then v else x) mask old.

(** [df.loc[mask, name] = v] for a number [v]: a column that does not exist
    yet is created with [nan] in the rows outside the mask. *)
Definition loc_assign (df : DataFrame) (mask : list bool) (name : string)
    (v : float) : DataFrame :=
  match get_col df name with
  | Some (NumSeries vs) => set_col df name (NumSeries (mask_update mask v vs))
  | Some (ObjectSeries vs) =>
      set_col df name (ObjectSeries (mask_update mask (PNum v) vs))
  | None =>
      set_col df name
        (NumSeries (mask_update mask v (replicate (nrows df) PrimFloat.nan)))
  end.

(** A cell used as a number; a text in its place raises. *)
Definition py_float (o : pyobj) : result float :=
  match o with
  | PNum x => Ok x
  | PStr _ => Raise TypeError
  end.

(** [df_compare['企業名_表示'] = df_compare['企業名'].apply(get_display_name)] *)
Definition with_display_names (df_compare : DataFrame) : result DataFrame :=
  comp ←r getitem df_compare "企業名";
  Ok (set_col df_compare "企業名_表示"
        (ObjectSeries (display_obj <$> series_cells comp))).

(** One round of the loop over the selected companies. *)
Definition growth_step (df_raw : DataFrame) (selected_year : Z)
    (df_growth : DataFrame) (company : string) : result DataFrame :=
  comp ←r getitem df_raw "企業名";
  yr ←r getitem df_raw "決算年度";
  let base_data :=
    df_mask df_raw
      (mask_and (eq_str comp company)
                (eq_int yr (Some (selected_year - 5)%Z))) in
  if negb (df_empty base_data) then
    sales ←r getitem base_data "売上高";
    match series_cells sales with
    | [] => Raise IndexError
    | first :: _ =>
        base_sales ←r py_float first;
        if PrimFloat.ltb 0 base_sales then
          gcomp ←r getitem df_growth "企業名";
          cur ←r getitem (df_mask df_growth (eq_str gcomp company)) "売上高";
          match series_cells cur with
          | [] => Ok df_growth
          | current :: _ =>
              current_sales ←r py_float current;
              Ok (loc_assign df_growth (eq_str gcomp company) GROWTH
                    (PrimFloat.div current_sales base_sales))
          end
        else
          gcomp ←r getitem df_growth "企業名";
          Ok (loc_assign df_growth (eq_str gcomp company) GROWTH 1)
    end
  else
    gcomp ←r getitem df_growth "企業名";
    Ok (loc_assign df_growth (eq_str gcomp company) GROWTH 1).

Fixpoint rfoldl {A B} (f : A → B → result A) (a : A) (l : list B)
    : result A :=
  match l with
  | [] => Ok a
  | x :: l' => a' ←r f a x; rfoldl f a' l'
  end.

(** [for company in selected_companies: ...] on [df_growth]. *)
Definition growth_loop (df_raw : DataFrame) (selected_year : Z)
    (df_growth : DataFrame) (selected_companies : list string)
    : result DataFrame :=
  rfoldl (growth_step df_raw selected_year) df_growth selected_companies.

(** The cell of row [j] in the growth column. *)
Definition growth_cell (df_growth : DataFrame) (j : nat) : option pyobj :=
  s ← get_col df_growth GROWTH; series_cells s !! j.

(** The rows of a company in a year, by position. *)
Definition rows_of (comp yr : Series) (company : string) (year : Z)
    : list nat :=
  true_positions (mask_and (eq_str comp company) (eq_int yr (Some year))).

(** The spreadsheet of the growth example: company A with revenue 100 in
    2015 and 150 in 2020, company B with a 2020 row only, company C with a
    zero revenue in 2015. *)
Definition growth_table : DataFrame :=
  [ ("企業名", ObjectSeries [PStr "A"; PStr "A"; PStr "B"; PStr "C"; PStr "C"]);
    ("決算年度", NumSeries [2015%float; 2020%float; 2020%float;
                            2015%float; 2020%float]);
    ("売上高", NumSeries [100%float; 150%float; 70%float;
                          0%float; 30%float]) ].

(** The number that the loop leaves in the rows of [company]: the revenue
    [rev] of the first row of the company in the base year decides it, with
    the revenue [grev] of the company's first row in the current subset. *)
Definition growth_value (comp yr : Series) (rev : list float)
    (gcomp : Series) (grev : list float) (selected_year : Z)
    (company : string) : float :=
  match head (rows_of comp yr company (selected_year - 5)) with
  | None => 1%float
  | Some i =>
      match rev !! i with
      | None => 1%float
      | Some base_sales =>
          if PrimFloat.ltb 0 base_sales then
            match head (true_positions (eq_str gcomp company)) with
            | None => 1%float
            | Some j0 =>
                match grev !! j0 with
                | None => 1%float
                | Some current_sales => PrimFloat.div current_sales base_sales
                end
            end
          else 1%float
      end
  end.

(** What the loop keeps fixed in [df_growth]: the shape of the table, its
    company column and its revenue column. *)
Definition growth_frame (gcomp : Series) (grev : list float)
    (df_growth : DataFrame) : Prop :=
  wf_frame df_growth
  ∧ get_col df_growth "企業名" = Some gcomp
  ∧ get_col df_growth "売上高" = Some (NumSeries grev).

(** ** Tables and chart series of the tabs *)

(** [series.fillna(v)] on the cells of any column. *)
Definition fillna_obj (v : float) (o : pyobj) : pyobj :=
  match o with
  | PNum x => PNum (fillna v x)
  | PStr s => PStr s
  end.

(** The helper of the KPI charts: the column with its gaps filled, or a
    list of defaults as long as the table when the column is missing. *)
Definition safe_get_values (df : DataFrame) (col_name : string)
    (default : float) : list pyobj :=
  if has_col df col_name then
    match get_col df col_name with
    | Some s => fillna_obj default <$> series_cells s
    | None => []
    end
  else replicate (nrows df) (PNum default).

(** The four panels of the profitability chart and of the valuation chart,
    each a title of a metric with the values drawn for it. *)
Definition kpi_chart_metrics : list string := ["ROIC"; "実質ROE"; "ROA"; "ROE"].
Definition stock_chart_metrics : list string :=
  ["PER（会予）"; "PBR"; "配当利回り（実績）"; "時価総額"].

Definition chart_panels (df : DataFrame) (metrics : list string)
    : list (string * list pyobj) :=
  (λ m, (m, safe_get_values df m 0)) <$> metrics.

(** The column lists of the tables. *)
Definition LABEL : string := "企業名_表示".
Definition display_cols : list string :=
  [LABEL; "売上高"; "営業収入"; "売上総利益率"; "販管費"; "営業利益"; "営業利益率"].
Definition kpi_metrics : list string :=
  ["ROIC"; "実質ROE"; "ROA"; "ROE"; "営業利益率"; "自己資本比率"].
Definition stock_cols : list string :=
  [LABEL; "PER（会予）"; "PBR"; "配当利回り（実績）"; "時価総額"].
Definition kpi_cols : list string :=
  [LABEL; "ROE"; "実質ROE"; "ROA"; "ROIC"; "営業利益率"; "自己資本比率";
   "PER（会予）"; "PBR"; "配当利回り（実績）"; "時価総額"].
Definition bs_cols : list string :=
  [LABEL; "総資産"; "流動資産"; "固定資産"; "棚卸資産"; "有利子負債"; "純資産";
   "自己資本比率"; "総資産回転率"; "棚卸資産回転率"].
Definition cf_cols : list string :=
  [LABEL; "営業CF"; "投資CF"; "財務CF"; "フリーCF"; "現金及び預金"].
Definition prod_cols : list string :=
  [LABEL; "従業員数"; "パート社員"; "正社員1人当り売上高"; "正社員1人当り営業利益";
   "全従業員1人当り売上高"; "全従業員1人当り営業利益"].

(** [df[[c for c in cols if c in df.columns]].copy()] *)
Definition present_table (df : DataFrame) (cols : list string)
    : result DataFrame :=
  select_columns df (present_columns df cols).

(** [df[cols].copy()] with no check of the columns. *)
Definition pl_table (df_compare : DataFrame) : result DataFrame :=
  select_columns df_compare display_cols.

(** The KPI table: drawn only when one of its metrics is present. *)
Definition kpi_table (df_compare : DataFrame) : result (option DataFrame) :=
  let available_kpi_metrics := present_columns df_compare kpi_metrics in
  match available_kpi_metrics with
  | [] => Ok None
  | _ =>
      kpi_data ←r select_columns df_compare (LABEL :: available_kpi_metrics);
      Ok (Some kpi_data)
  end.

(** A table as it is shown: [.rename(columns={'企業名_表示': '企業名'})
    .set_index('企業名')] moves the label column into the index and leaves
    the metric columns. *)
Record ShownTable := { index : Series; metrics : DataFrame }.

Definition rename_col (df : DataFrame) (old new : string) : DataFrame :=
  (λ c, (if decide (c.1 = old) then new else c.1, c.2)) <$> df.

Fixpoint drop_col (df : DataFrame) (name : string) : DataFrame :=
  match df with
  | [] => []
  | (n, s) :: rest =>
      if decide (n = name) then rest else (n, s) :: drop_col rest name
  end.

Definition shown (df : DataFrame) : result ShownTable :=
  let renamed := rename_col df LABEL "企業名" in
  idx ←r getitem renamed "企業名";
  Ok {| index := idx; metrics := drop_col renamed "企業名" |}.

(** A table without the ROIC column, for the charts. *)
Definition no_roic_table : DataFrame :=
  [ ("企業名", ObjectSeries [PStr "A"; PStr "B"]);
    (LABEL, ObjectSeries [PStr "A"; PStr "B"]);
    ("ROA", NumSeries [3%float; 4%float]);
    ("ROE", NumSeries [5%float; 6%float]) ].

(** ** The selectable fiscal years *)

(** [int(y)] of a number: truncation toward zero. *)
Definition int_of_float (x : float) : result Z :=
  match Prim2SF x with
  | S754_zero _ => Ok 0%Z
  | S754_finite s m e =>
      let magnitude :=
        match e with
        | Z0 => Zpos m
        | Zpos _ => Z.shiftl (Zpos m) e
        | Zneg _ => Z.shiftr (Zpos m) (- e)
        end in
      Ok (if s then (- magnitude)%Z else magnitude)
  | S754_infinity _ => Raise OverflowError
  | S754_nan => Raise ValueError
  end.

(** A cell of the year column as a number.  The year column of a loaded
    table holds numbers; a text in it is taken as one that spells no
    integer, on which [int] raises. *)
Definition year_number (o : pyobj) : result float :=
  match o with
  | PNum x => Ok x
  | PStr _ => Raise ValueError
  end.

Definition unique_floats (l : list float) : list float :=
  foldl (λ acc x, if existsb (PrimFloat.eqb x) acc then acc
                  else (acc ++ [x])%list) [] l.

(** The order of [sorted(..., reverse=True)] on integers. *)
Definition descending (a b : Z) : Prop := (b ≤ a)%Z.

#[global] Instance descending_dec : RelDecision descending.
Proof. intros a b. unfold descending. apply _. Defined.

(** [sorted([int(y) for y in df_raw['決算年度'].dropna().unique().tolist()
             if pd.notna(y)], reverse=True)] *)
Definition available_years (df_raw : DataFrame) : result (list Z) :=
  yr ←r getitem df_raw "決算年度";
  values ←r rmap year_number (series_cells yr);
  years ←r rmap int_of_float (unique_floats (List.filter notna values));
  Ok (merge_sort descending years).

(** [st.selectbox(options)]: the picked option, [None] when there is no
    option to pick. *)
Definition selectbox {A} (options : list A) (choice : nat) : option A :=
  options !! (choice `min` (length options - 1)).

(** The selected year in an arithmetic expression or an ordering: [None]
    raises. *)
Definition year_value (selected_year : option Z) : result Z :=
  match selected_year with
  | Some y => Ok y
  | None => Raise TypeError
  end.

(** [selected_year - k] *)
Definition year_minus (selected_year : option Z) (k : Z) : result Z :=
  y ←r year_value selected_year; Ok (y - k)%Z.

(** The mask of the five-year window. *)
Definition trend_mask (df_raw : DataFrame) (selected_companies : list string)
    (start_year selected_year : Z) : result (list bool) :=
  comp ←r getitem df_raw "企業名";
  yr ←r getitem df_raw "決算年度";
  from_start ←r ge_int yr start_year;
  yr' ←r getitem df_raw "決算年度";
  to_selected ←r le_int yr' selected_year;
  Ok (mask_and (mask_and (isin comp selected_companies) from_start)
               to_selected).

(** ** The store of tables and the render cycle *)

(** A table object is a cell of the store; a variable of the script holds
    the position of its table. *)
Definition ref := nat.

Inductive event :=
  | Title
  | ErrorBox
  | Warning (text : string)
  | Card (display_name : string) (sales margin : float)
  | Chart (title : string) (panels : list (string * list pyobj))
  | Table (title : string) (table : ShownTable)
  | Download (file_name : string) (table : ShownTable)
  | Footer.

Record state := { heap : list DataFrame; out : list event }.

(** A step of the script: a result or an exception, and the store and the
    screen as the step leaves them. *)
Definition M (A : Type) : Type := state → result A * state.

Definition ret {A} (a : A) : M A := λ st, (Ok a, st).

Definition bind {A B} (m : M A) (k : A → M B) : M B :=
  λ st,
    match m st with
    | (Ok a, st') => k a st'
    | (Raise e, st') => (Raise e, st')
    end.

Notation "x ←m m ; k" := (bind m (λ x, k))
  (at level 100, m at next level, k at level 200, right associativity,
   format "x  ←m  m ;  '/' k").
Notation "m ;; k" := (bind m (λ _, k))
  (at level 100, k at level 200, right associativity,
   format "m ;;  '/' k").

Definition lift {A} (r : result A) : M A := λ st, (r, st).

Definition emit (e : event) : M unit :=
  λ st, (Ok (), {| heap := heap st; out := (out st ++ [e])%list |}).

(** A new table object: the result of a copy, of a selection of rows or of
    columns. *)
Definition alloc (df : DataFrame) : M ref :=
  λ st, (Ok (length (heap st)),
         {| heap := (heap st ++ [df])%list; out := out st |}).

Definition deref (r : ref) : M DataFrame :=
  λ st,
    match heap st !! r with
    | Some df => (Ok df, st)
    | None => (Raise ValueError, st)
    end.

(** An assignment into the table object [r]. *)
Definition update (r : ref) (f : DataFrame → DataFrame) : M unit :=
  λ st, (Ok (), {| heap := alter f r (heap st); out := out st |}).

Fixpoint for_each {B} (l : list B) (body : B → M unit) : M unit :=
  match l with
  | [] => ret ()
  | x :: l' => body x ;; for_each l' body
  end.

Definition WARN_NO_COMPANY : string :=
  "⚠️ 比較する企業を1社以上選択してください。".
Definition WARN_NO_DATA : string :=
  "選択された条件に該当するデータがありません。".

(** The state of the sidebar widgets. *)
Record Widgets := {
  industry_choice : string;
  selected_display_names : list string;
  year_choice : nat;
  show_trend : bool
}.

(** A column read for drawing, and a column used as numbers. *)
Definition col_cells (df : DataFrame) (name : string) : result (list pyobj) :=
  s ←r getitem df name; Ok (series_cells s).

Definition col_numbers (df : DataFrame) (name : string) : result (list float) :=
  s ←r getitem df name; rmap py_float (series_cells s).

(** [safe_divide(a, b)] on two columns. *)
Definition divide_columns (a b : list float) : result (list float) :=
  q ←r safe_divide (NpArray a) (NpArray b) (PyNumber 0);
  match q with
  | Nd1 xs => Ok xs
  | Nd0 _ => Raise ValueError
  end.

(** [df[name] = values] in the table object [r]. *)
Definition assign_numbers (r : ref) (name : string) (values : list float)
    : M unit :=
  update r (λ df, set_col df name (NumSeries values)).

Definition show_table (title file_name : string) (df : DataFrame) : M unit :=
  t ←m lift (shown df);
  emit (Table title t);;
  emit (Download file_name t).

(** Two index labels that pandas takes for one: the same text, or two
    numbers that are equal or both [nan]. *)
Definition same_label (a b : pyobj) : bool :=
  match a, b with
  | PStr s, PStr t => bool_decide (s = t)
  | PNum x, PNum y =>
      PrimFloat.eqb x y || (PrimFloat.is_nan x && PrimFloat.is_nan y)
  | _, _ => false
  end.

(** [index.is_unique] *)
Fixpoint is_unique (labels : list pyobj) : bool :=
  match labels with
  | [] => true
  | a :: rest => negb (existsb (same_label a) rest) && is_unique rest
  end.

(** The text of the [KeyError] with which pandas refuses to colour a
    table. *)
Definition STYLER_NOT_UNIQUE : string :=
  "`Styler.apply` and `.map` are not compatible with non-unique index or columns.".

(** [.style...background_gradient(...)] of a table handed to
    [st.dataframe]: the colours are computed when the table is drawn, and
    pandas refuses to store them for a table whose index labels or column
    labels repeat.  At each call the coloured columns are columns of the
    table, and their cells have been read as numbers before. *)
Definition background_gradient (t : ShownTable) : result unit :=
  if is_unique (series_cells (index t))
     && bool_decide (NoDup (columns (metrics t)))
  then Ok ()
  else Raise (KeyError STYLER_NOT_UNIQUE).

(** A table drawn with a colour gradient, and its download button. *)
Definition show_gradient_table (title file_name : string) (df : DataFrame)
    : M unit :=
  t ←m lift (shown df);
  lift (background_gradient t);;
  emit (Table title t);;
  emit (Download file_name t).

(** The order of [sort_values] on a numeric key: ascending, [nan] last. *)
Definition year_le (a b : float) : bool :=
  PrimFloat.is_nan b || (notna a && PrimFloat.leb a b).

Definition by_year (a b : float * pyobj) : Prop := year_le a.1 b.1 = true.

#[global] Instance by_year_dec : RelDecision by_year.
Proof. intros a b. unfold by_year. apply _. Defined.

Definition sorted_by_year (years : list float) (values : list pyobj)
    : list pyobj :=
  (merge_sort by_year (zip years values)).*2.

Section Render.
(** numpy's [round(decimals)] on one number. *)
Variable round_to : nat → float → float.

(** The card of one company above the tabs. *)
Definition summary_card (df_compare : ref) (company : string) : M unit :=
  d ←m deref df_compare;
  comp ←m lift (getitem d "企業名");
  let company_data := df_mask d (eq_str comp company) in
  if df_empty company_data then ret ()
  else
    sales ←m lift (col_numbers company_data "売上高");
    margin ←m lift (col_numbers company_data "営業利益率");
    match sales, margin with
    | s :: _, m :: _ => emit (Card (get_display_name company) s m)
    | _, _ => lift (Raise IndexError)
    end.

(** Tab 1: revenue comparison and KPI. *)
Definition tab_pl (raw df_compare : ref) (selected_companies : list string)
    (selected_year : option Z) : M unit :=
  d ←m deref df_compare;
  df_growth ←m alloc d;
  for_each selected_companies (λ company,
    y ←m lift (year_value selected_year);
    df_raw ←m deref raw;
    g ←m deref df_growth;
    g' ←m lift (growth_step df_raw y g company);
    update df_growth (λ _, g'));;
  d ←m deref df_compare;
  _ ←m lift (col_cells d "企業名");
  _ ←m lift (col_cells d LABEL);
  sales ←m lift (col_numbers d "売上高");
  profit ←m lift (col_numbers d "営業利益");
  g ←m deref df_growth;
  let growth :=
    if has_col g GROWTH then [(GROWTH, safe_get_values g GROWTH 1)] else [] in
  margin ←m lift (col_numbers d "営業利益率");
  emit (Chart "収益指標の企業間比較"
          ([("売上高", PNum <$> sales); ("営業利益", PNum <$> profit)]
           ++ growth ++ [("営業利益率", PNum <$> margin)])%list);;
  t ←m lift (pl_table d);
  display_df ←m alloc t;
  show_gradient_table "収益比較" "pl_comparison.html" t;;
  emit (Chart "収益性指標" (chart_panels d kpi_chart_metrics));;
  emit (Chart "株価指標・時価総額" (chart_panels d stock_chart_metrics));;
  kpi ←m lift (kpi_table d);
  match kpi with
  | None => ret ()
  | Some t =>
      kpi_data ←m alloc t;
      s ←m lift (shown t);
      lift (background_gradient s);;
      emit (Table "KPI総合評価" s)
  end;;
  match present_columns d stock_cols with
  | [] => ret ()
  | available_stock_cols =>
      t ←m lift (select_columns d available_stock_cols);
      stock_data ←m alloc t;
      s ←m lift (shown t);
      emit (Table "株価指標詳細" s)
  end;;
  t ←m lift (present_table d kpi_cols);
  kpi_display ←m alloc t;
  s ←m lift (shown t);
  emit (Download "kpi_comparison.html" s).

(** Tab 2: revenue and cost structure. *)
Definition tab_structure (df_compare : ref) : M unit :=
  d ←m deref df_compare;
  _ ←m lift (col_cells d LABEL);
  sales ←m lift (col_cells d "売上高");
  revenue ←m lift (col_cells d "営業収入");
  emit (Chart "収益構造" [("売上高", sales); ("営業収入", revenue)]);;
  gross ←m lift (col_numbers d "売上総利益率");
  let cost_ratio := (λ x, PrimFloat.sub 100 x) <$> gross in
  sga ←m lift (col_numbers d "販管費");
  sales' ←m lift (col_numbers d "売上高");
  sgna_ratio ←m lift
    (divide_columns ((λ x, PrimFloat.mul x 100) <$> sga) sales');
  profit_ratio ←m lift (col_numbers d "営業利益率");
  emit (Chart "コスト構造分解"
          [("売上原価率", PNum <$> cost_ratio);
           ("販管費率", PNum <$> sgna_ratio);
           ("営業利益率", PNum <$> profit_ratio)]);;
  t ←m lift (select_columns d [LABEL]);
  structure_df ←m alloc t;
  assign_numbers structure_df "売上原価率" (round_to 1 <$> cost_ratio);;
  assign_numbers structure_df "販管費率" (round_to 1 <$> sgna_ratio);;
  assign_numbers structure_df "営業利益率" (round_to 1 <$> profit_ratio);;
  sd ←m deref structure_df;
  show_gradient_table "構造比較テーブル" "structure_comparison.html" sd.

(** Tab 3: balance sheet. *)
Definition tab_bs (df_compare : ref) : M unit :=
  d ←m deref df_compare;
  df_bs ←m alloc d;
  sales ←m lift (col_numbers d "売上高");
  inventory ←m lift (col_numbers d "棚卸資産");
  turnover ←m lift (divide_columns sales inventory);
  assign_numbers df_bs "棚卸資産回転率" (round_to 1 <$> turnover);;
  b ←m deref df_bs;
  _ ←m lift (col_cells b "企業名");
  _ ←m lift (col_cells b LABEL);
  assets ←m lift (col_cells b "総資産");
  stock ←m lift (col_cells b "棚卸資産");
  asset_turnover ←m lift (col_numbers b "総資産回転率");
  inventory_turnover ←m lift (col_numbers b "棚卸資産回転率");
  emit (Chart "財政状態の比較"
          [("総資産", assets); ("棚卸資産", stock);
           ("総資産回転率", PNum <$> asset_turnover);
           ("棚卸資産回転率", PNum <$> inventory_turnover)]);;
  t ←m lift (present_table b bs_cols);
  bs_display ←m alloc t;
  show_table "財政状態比較" "bs_comparison.html" t.

(** Tab 4: cash flow. *)
Definition tab_cf (df_compare : ref) : M unit :=
  d ←m deref df_compare;
  _ ←m lift (col_cells d LABEL);
  operating ←m lift (col_numbers d "営業CF");
  investing ←m lift (col_numbers d "投資CF");
  financing ←m lift (col_numbers d "財務CF");
  free ←m lift (col_numbers d "フリーCF");
  let panels :=
    [("営業CF", PNum <$> operating); ("投資CF", PNum <$> investing);
     ("財務CF", PNum <$> financing); ("フリーCF", PNum <$> free)] in
  emit (Chart "キャッシュフローの比較" panels);;
  emit (Chart "キャッシュフロー構成比較" panels);;
  t ←m lift (present_table d cf_cols);
  cf_display ←m alloc t;
  show_table "キャッシュフロー比較" "cf_comparison.html" t.

(** Tab 5: labour productivity. *)
Definition tab_prod (df_compare : ref) : M unit :=
  d ←m deref df_compare;
  df_prod ←m alloc d;
  staff ←m lift (col_numbers d "従業員数");
  part_time ←m lift (col_numbers d "パート社員");
  let total_employees := zip_with PrimFloat.add staff (fillna 0 <$> part_time) in
  sales ←m lift (col_numbers d "売上高");
  per_staff_sales ←m lift (divide_columns sales staff);
  assign_numbers df_prod "正社員1人当り売上高" (round_to 2 <$> per_staff_sales);;
  profit ←m lift (col_numbers d "営業利益");
  per_staff_profit ←m lift (divide_columns profit staff);
  assign_numbers df_prod "正社員1人当り営業利益" (round_to 2 <$> per_staff_profit);;
  per_head_sales ←m lift (divide_columns sales total_employees);
  assign_numbers df_prod "全従業員1人当り売上高" (round_to 2 <$> per_head_sales);;
  per_head_profit ←m lift (divide_columns profit total_employees);
  assign_numbers df_prod "全従業員1人当り営業利益" (round_to 2 <$> per_head_profit);;
  p ←m deref df_prod;
  _ ←m lift (col_cells p "企業名");
  _ ←m lift (col_cells p LABEL);
  panels ←m lift (rmap (λ m, values ←r col_cells p m; Ok (m, values))
    ["正社員1人当り売上高"; "正社員1人当り営業利益";
     "全従業員1人当り売上高"; "全従業員1人当り営業利益"]);
  emit (Chart "労働生産性の比較" panels);;
  t ←m lift (present_table p prod_cols);
  prod_display ←m alloc t;
  show_table "労働生産性比較" "productivity_comparison.html" t.

(** The trend charts: one line per company that has rows in the window,
    its points in the order of [sort_values('決算年度')]. *)
Definition trend_lines (df_trend : ref) (selected_companies : list string)
    (metric : string) : M (list (string * list pyobj)) :=
  t ←m deref df_trend;
  lift (
    lines ←r rmap (λ company,
      comp ←r getitem t "企業名";
      let company_trend := df_mask t (eq_str comp company) in
      years ←r col_numbers company_trend "決算年度";
      if df_empty company_trend then Ok []
      else
        values ←r col_cells company_trend metric;
        Ok [(get_display_name company, sorted_by_year years values)])
      selected_companies;
    Ok (concat lines)).

Definition trend_section (df_trend : option ref)
    (selected_companies : list string) : M unit :=
  match df_trend with
  | None => ret ()
  | Some r =>
      t ←m deref r;
      if df_empty t then ret ()
      else
        sales ←m trend_lines r selected_companies "売上高";
        emit (Chart "売上高推移" sales);;
        margins ←m trend_lines r selected_companies "営業利益率";
        emit (Chart "営業利益率推移（%）" margins)
  end.

(** Everything below the two advisories. *)
Definition render_tabs (raw df_compare : ref) (df_trend : option ref)
    (selected_companies : list string) (selected_year : option Z) : M unit :=
  d ←m deref df_compare;
  d' ←m lift (with_display_names d);
  update df_compare (λ _, d');;
  for_each selected_companies (summary_card df_compare);;
  tab_pl raw df_compare selected_companies selected_year;;
  tab_structure df_compare;;
  tab_bs df_compare;;
  tab_cf df_compare;;
  tab_prod df_compare;;
  trend_section df_trend selected_companies.

(** The body of [if df_raw is not None:]. *)
Definition dashboard (raw : ref) (w : Widgets) : M unit :=
  df_raw ←m deref raw;
  available ←m lift (available_data_names df_raw);
  _ ←m lift (default_display_names available (industry_choice w));
  let selected_companies := get_data_names (selected_display_names w) in
  years ←m lift (available_years df_raw);
  let selected_year := selectbox years (year_choice w) in
  match selected_companies with
  | [] => emit (Warning WARN_NO_COMPANY)
  | _ :: _ =>
      df_raw ←m deref raw;
      mask ←m lift (compare_mask df_raw selected_companies selected_year);
      df_compare ←m alloc (df_mask df_raw mask);
      df_trend ←m
        (if show_trend w then
           start_year ←m lift (year_minus selected_year 4);
           y ←m lift (year_value selected_year);
           df_raw ←m deref raw;
           trend ←m lift (trend_mask df_raw selected_companies start_year y);
           t ←m alloc (df_mask df_raw trend);
           ret (Some t)
         else ret None);
      d ←m deref df_compare;
      if df_empty d then emit (Warning WARN_NO_DATA)
      else render_tabs raw df_compare df_trend selected_companies selected_year
  end.

(** One run of the script: [raw] is the loaded table, [None] when the file
    is missing. *)
Definition script (raw : option ref) (w : Widgets) : M unit :=
  emit Title;;
  match raw with
  | Some r => dashboard r w
  | None => emit ErrorBox
  end;;
  emit Footer.
End Render.

(** A spreadsheet whose fiscal-year cells are all empty. *)
Definition yearless_table : DataFrame :=
  [ ("企業名", ObjectSeries [PStr "A"; PStr "B"]);
    ("決算年度", NumSeries [PrimFloat.nan; PrimFloat.nan]);
    ("売上高", NumSeries [10%float; 20%float]);
    ("営業利益率", NumSeries [1%float; 2%float]) ].

Definition trend_widgets : Widgets :=
  {| industry_choice := CUSTOM; selected_display_names := ["A"];
     year_choice := 0; show_trend := true |}.

Definition no_company_widgets : Widgets :=
  {| industry_choice := CUSTOM; selected_display_names := [];
     year_choice := 0; show_trend := true |}.

Definition other_year_widgets : Widgets :=
  {| industry_choice := CUSTOM; selected_display_names := ["D"];
     year_choice := 0; show_trend := true |}.

Definition start_state (df_raw : DataFrame) : state :=
  {| heap := [df_raw]; out := [] |}.

(** A step of the script keeps the table objects [h0] that existed before
    the cycle, and its result satisfies [Q] when it returns. *)
Definition keeps {A} (h0 : list DataFrame) (m : M A) (Q : A → Prop) : Prop :=
  ∀ st, h0 `prefix_of` heap st →
    h0 `prefix_of` heap (m st).2
    ∧ match (m st).1 with
      | Ok a => Q a
      | Raise _ => True
      end.

(** A position that holds no table of [h0]: a table created in the cycle. *)
Definition fresh (h0 : list DataFrame) (r : ref) : Prop :=
  (length h0 ≤ r)%nat.

Definition any {A} (a : A) : Prop := True.

(** A table with every column that the tabs read. *)
Definition full_table : DataFrame :=
  [ ("企業名", ObjectSeries [PStr "A"; PStr "A"; PStr "B"]);
    ("決算年度", NumSeries [2019%float; 2020%float; 2020%float]);
    ("売上高", NumSeries [100%float; 150%float; 70%float]);
    ("営業収入", NumSeries [1%float; 2%float; 3%float]);
    ("売上総利益率", NumSeries [30%float; 31%float; 32%float]);
    ("販管費", NumSeries [20%float; 21%float; 22%float]);
    ("営業利益", NumSeries [10%float; 11%float; 12%float]);
    ("営業利益率", NumSeries [10%float; 7%float; 17%float]);
    ("総資産", NumSeries [500%float; 600%float; 700%float]);
    ("棚卸資産", NumSeries [50%float; 0%float; 70%float]);
    ("総資産回転率", NumSeries [1%float; 2%float; 3%float]);
    ("営業CF", NumSeries [5%float; 6%float; 7%float]);
    ("投資CF", NumSeries [(-1)%float; (-2)%float; (-3)%float]);
    ("財務CF", NumSeries [1%float; 2%float; 3%float]);
    ("フリーCF", NumSeries [4%float; 4%float; 4%float]);
    ("従業員数", NumSeries [10%float; 20%float; 30%float]);
    ("パート社員", NumSeries [5%float; PrimFloat.nan; 15%float]) ].

Definition full_widgets : Widgets :=
  {| industry_choice := CUSTOM; selected_display_names := ["A"; "B"];
     year_choice := 0; show_trend := true |}.

(** A stand-in for numpy's rounding in the examples. *)
Definition no_rounding (decimals : nat) (x : float) : float := x.

(** ** Company colours ([get_company_colors]) *)

(** [COLORS['primary']] *)
Definition COLORS_primary : list string :=
  ["#2E86AB"; "#A23B72"; "#F18F01"; "#C73E1D"; "#3B1F2B"; "#95C623";
   "#5C4D7D"].

(** One entry [company: COLORS['primary'][i % len(COLORS['primary'])]] of
    the dict comprehension, written into the dict built so far: a key that
    is already there gets the new value. *)
Definition color_entry (d : gmap string string) (ic : nat * string)
    : result (gmap string string) :=
  match COLORS_primary !! (ic.1 `mod` length COLORS_primary)%nat with
  | Some color => Ok (<[ic.2 := color]> d)
  | None => Raise IndexError
  end.

(** [{company: ... for i, company in enumerate(companies)}] *)
Definition get_company_colors (companies : list string)
    : result (gmap string string) :=
  rfoldl color_entry ∅ (imap pair companies).

(** [company_colors[c]] for a cell [c] of the company column. *)
Definition color_of (company_colors : gmap string string) (o : pyobj)
    : result string :=
  match o with
  | PStr c =>
      match company_colors !! c with
      | Some color => Ok color
      | None => Raise (KeyError c)
      end
  | PNum _ => Raise (KeyError "nan")
  end.

(** [[company_colors[c] for c in df['企業名'].tolist()]] *)
Definition bar_colors (company_colors : gmap string string) (df : DataFrame)
    : result (list string) :=
  comp ←r getitem df "企業名";
  rmap (color_of company_colors) (series_cells comp).

(** ** Fiscal-year labels ([format_fy]) *)

(** What [format_fy] is called on: [None], a Python int, a number of the
    year column, or a text. *)
Inductive pyval :=
  | VNone
  | VInt (z : Z)
  | VFloat (x : float)
  | VStr (s : string).

Section FormatFy.
(** Python's [int] on a text is a parameter. *)
Variable int_of_str : string → result Z.

(** [int(year)] *)
Definition py_int (year : pyval) : result Z :=
  match year with
  | VNone => Raise TypeError
  | VInt z => Ok z
  | VFloat x => int_of_float x
  | VStr s => int_of_str s
  end.

(** [try: return f"FY{int(year)}"] / [except: return year] *)
Definition format_fy (year : pyval) : pyval :=
  match py_int year with
  | Ok z => VStr ("FY" +:+ pretty z)
  | Raise _ => year
  end.
End FormatFy.

(** ** Sample tables of the tabs *)

(** A current-period subset with its label column and the columns of the
    productivity tab; company B has no regular staff and no part-time
    count. *)
Definition staff_table : DataFrame :=
  [ ("企業名", ObjectSeries [PStr "A"; PStr "B"]);
    (LABEL, ObjectSeries [PStr "A"; PStr "B"]);
    ("従業員数", NumSeries [10%float; 0%float]);
    ("パート社員", NumSeries [10%float; PrimFloat.nan]);
    ("売上高", NumSeries [100%float; 70%float]);
    ("営業利益", NumSeries [10%float; 7%float]) ].

(** A subset with the columns of the structure tab; company B has no
    revenue. *)
Definition cost_table : DataFrame :=
  [ ("企業名", ObjectSeries [PStr "A"; PStr "B"]);
    (LABEL, ObjectSeries [PStr "A"; PStr "B"]);
    ("売上高", NumSeries [100%float; 0%float]);
    ("営業収入", NumSeries [5%float; 0%float]);
    ("売上総利益率", NumSeries [30%float; 0%float]);
    ("販管費", NumSeries [20%float; 3%float]);
    ("営業利益率", NumSeries [10%float; 0%float]) ].

(** A subset with two rows of one company (two quarters of one fiscal
    year), so that the display name repeats. *)
Definition two_quarter_table : DataFrame :=
  [ ("企業名", ObjectSeries [PStr "A"; PStr "A"]);
    (LABEL, ObjectSeries [PStr "A"; PStr "A"]);
    ("売上高", NumSeries [100%float; 0%float]);
    ("営業収入", NumSeries [5%float; 0%float]);
    ("売上総利益率", NumSeries [30%float; 0%float]);
    ("販管費", NumSeries [20%float; 3%float]);
    ("営業利益率", NumSeries [10%float; 0%float]) ].

(** A subset with the columns of the balance-sheet tab; company B holds
    no stock. *)
Definition stock_table : DataFrame :=
  [ ("企業名", ObjectSeries [PStr "A"; PStr "B"]);
    (LABEL, ObjectSeries [PStr "A"; PStr "B"]);
    ("売上高", NumSeries [100%float; 70%float]);
    ("総資産", NumSeries [500%float; 600%float]);
    ("棚卸資産", NumSeries [50%float; 0%float]);
    ("総資産回転率", NumSeries [1%float; 2%float]) ].

(* ================================================================== *)
(** * Properties *)

(** Closed decidable facts (no duplicate column names, membership in a
    literal list) are settled by evaluation. *)
Ltac decide_closed := apply (bool_decide_unpack _); vm_compute; exact I.

(** ** Comparisons of binary64 numbers *)

Lemma SFcompare_refl s : s ≠ S754_nan → SFcompare s s = Some Eq.
Proof.
  destruct s as [[]|[]| |[] m e]; cbn; try done;
    intros _; rewrite Z.compare_refl, Pos.compare_cont_refl; done.
Qed.

Lemma SFcompare_antisym a b :
  SFcompare b a = CompOpp <$> SFcompare a b.
Proof.
  destruct a as [[]|[]| |[] m1 e1], b as [[]|[]| |[] m2 e2]; cbn; try done;
    rewrite (Z.compare_antisym e1 e2);
    destruct (e1 ?= e2)%Z; cbn; try done;
    rewrite (Pos.compare_cont_antisym m1 m2 Eq); cbn;
    destruct (Pos.compare_cont Eq m1 m2); done.
Qed.

Lemma is_nan_spec x : PrimFloat.is_nan x = true ↔ Prim2SF x = S754_nan.
Proof.
  unfold PrimFloat.is_nan. rewrite FloatAxioms.eqb_spec. unfold SFeqb.
  destruct (Prim2SF x) as [s|s| |s m e] eqn:E;
    try (rewrite SFcompare_refl by done); cbn; done.
Qed.


Lemma ltb_not_leb a b :
  PrimFloat.ltb a b = true → PrimFloat.leb b a = false.
Proof.
  rewrite FloatAxioms.ltb_spec, FloatAxioms.leb_spec.
  unfold SFltb, SFleb. rewrite (SFcompare_antisym (Prim2SF a)).
  destruct (SFcompare (Prim2SF a) (Prim2SF b)) as [[]|]; cbn; done.
Qed.

(** ** Columns of a table *)

Lemma get_col_Some_elem df name s :
  get_col df name = Some s → (name, s) ∈ df.
Proof.
  induction df as [|[n t] df IH]; cbn; [done|].
  case_decide; intros Hs; simplify_eq; [left | right; auto].
Qed.

Lemma get_col_None df name :
  get_col df name = None ↔ name ∉ columns df.
Proof.
  unfold columns. induction df as [|[n t] df IH]; cbn.
  - split; [intros _; apply not_elem_of_nil | done].
  - rewrite not_elem_of_cons. case_decide; subst.
    + split; [done | intros [? _]; done].
    + rewrite IH. split; [intros; split; auto | intros [_ ?]; done].
Qed.

(** ** Columns of a spreadsheet *)

Lemma sheet_get_elem df name c :
  sheet_get df name = Some c → (name, c) ∈ df.
Proof.
  induction df as [|[n t] df IH]; cbn; [done|].
  case_decide; intros Hs; simplify_eq; [left | right; auto].
Qed.

Lemma sheet_get_NoDup df name c :
  NoDup (sheet_columns df) → (name, c) ∈ df → sheet_get df name = Some c.
Proof.
  unfold sheet_columns. induction df as [|[n t] df IH]; cbn; intros Hnd Hin.
  - by apply elem_of_nil in Hin.
  - apply NoDup_cons in Hnd as [Hn Hnd].
    apply elem_of_cons in Hin as [Heq|Hin].
    + simplify_eq. by rewrite decide_True.
    + rewrite decide_False; [auto|].
      intros ->. apply Hn. apply list_elem_of_fmap. by exists (name, c).
Qed.

Lemma sheet_get_None df name :
  sheet_get df name = None ↔ name ∉ sheet_columns df.
Proof.
  unfold sheet_columns. induction df as [|[n t] df IH]; cbn.
  - split; [intros _; apply not_elem_of_nil | done].
  - rewrite not_elem_of_cons. case_decide; subst.
    + split; [done | intros [? _]; done].
    + rewrite IH. split; [intros; split; auto | intros [_ ?]; done].
Qed.

Lemma sheet_set_map df name c :
  name ∈ sheet_columns df →
  NoDup (sheet_columns df) →
  sheet_set df name c =
    (λ nc, if decide (nc.1 = name) then (nc.1, c) else nc) <$> df.
Proof.
  unfold sheet_columns. induction df as [|[n t] df IH]; cbn; intros Hin Hnd.
  - by apply elem_of_nil in Hin.
  - apply NoDup_cons in Hnd as [Hn Hnd]. case_decide; subst.
    + f_equal. symmetry. rewrite <- (list_fmap_id df) at 2.
      apply list_fmap_ext. intros i [n' t'] Hi. cbn.
      rewrite decide_False; [done|].
      intros ->. apply Hn. apply list_elem_of_fmap. exists (name, t').
      split; [done|]. by eapply list_elem_of_lookup_2.
    + f_equal. apply IH; [|done].
      apply elem_of_cons in Hin as [?|?]; [congruence | done].
Qed.

(** A loop that rewrites the columns [names] one after the other rewrites
    exactly those columns, each once. *)
Lemma foldl_sheet_update g names df :
  NoDup (sheet_columns df) →
  NoDup names →
  foldl (sheet_update g) df names =
    (λ nc, if decide (nc.1 ∈ names) then (nc.1, g nc.2) else nc) <$> df.
Proof.
  intros Hdf Hnames. revert df Hdf.
  induction names as [|n names IH]; intros df Hdf; cbn.
  - rewrite <- (list_fmap_id df) at 1. apply list_fmap_ext.
    intros i [c s] _. cbn. rewrite decide_False; [done | apply not_elem_of_nil].
  - apply NoDup_cons in Hnames as [Hn Hnames].
    assert (Hcols : ∀ d' : Sheet,
      sheet_columns ((λ nc : string * Column,
        if decide (nc.1 = n) then (nc.1, g nc.2) else nc) <$> d')
      = sheet_columns d').
    { intros d'. unfold sheet_columns. rewrite <- list_fmap_compose.
      apply list_fmap_ext. intros i [c s] _. cbn. by case_decide. }
    assert (Hstep : sheet_update g df n =
      (λ nc, if decide (nc.1 = n) then (nc.1, g nc.2) else nc) <$> df).
    { unfold sheet_update. destruct (sheet_get df n) as [s|] eqn:E.
      - rewrite sheet_set_map; [| |done].
        + apply list_fmap_ext. intros i [c t] Hi. cbn.
          case_decide; [|done]. subst. cbn. do 2 f_equal.
          apply sheet_get_elem in E.
          pose proof (sheet_get_NoDup df n t Hdf
            (list_elem_of_lookup_2 _ _ _ Hi)) as E'.
          apply (sheet_get_NoDup df n s Hdf) in E. congruence.
        + apply sheet_get_elem in E. unfold sheet_columns.
          apply list_elem_of_fmap. by exists (n, s).
      - rewrite <- (list_fmap_id df) at 1. apply list_fmap_ext.
        intros i [c t] Hi. cbn. rewrite decide_False; [done|].
        intros ->. apply sheet_get_None in E. apply E. unfold sheet_columns.
        apply list_elem_of_fmap. exists (n, t).
        split; [done | by eapply list_elem_of_lookup_2]. }
    rewrite Hstep, IH by (by rewrite ?Hcols).
    rewrite <- list_fmap_compose. apply list_fmap_ext.
    intros i [c s] _. cbn.
    destruct (decide (c = n)) as [->|Hne]; cbn.
    + rewrite decide_False by done. rewrite decide_True by left. done.
    + destruct (decide (c ∈ names)) as [Hin|Hin].
      * rewrite decide_True by (by right). done.
      * rewrite decide_False; [done|].
        rewrite not_elem_of_cons. done.
Qed.


Lemma get_col_fmap (g : string → Series → Series) df name :
  get_col ((λ c, (c.1, g c.1 c.2)) <$> df) name = g name <$> get_col df name.
Proof.
  induction df as [|[n s] df IH]; cbn; [done|].
  case_decide; subst; done.
Qed.

(** ** Unit scaling *)


Lemma million_cell_small x :
  PrimFloat.ltb (PrimFloat.abs x) 100000 = true → million_cell x = x.
Proof.
  intros H. unfold million_cell.
  by rewrite (ltb_not_leb _ _ H), andb_false_r.
Qed.

Lemma million_cell_nan x :
  PrimFloat.is_nan x = true → million_cell x = x.
Proof. intros H. unfold million_cell, notna. by rewrite H. Qed.

(** The powers of two that bound the 64-bit integers, as numerals. *)
Ltac int64_bounds :=
  unfold int64, uint64, INT64_MIN in *;
  change (2 ^ 63)%Z with 9223372036854775808%Z in *;
  change (2 ^ 64)%Z with 18446744073709551616%Z in *.

Lemma abs_int64_spec z :
  int64 z →
  abs_int64 z = if decide (z = INT64_MIN) then INT64_MIN else Z.abs z.
Proof.
  intros Hz. unfold abs_int64, wrap_int64. case_decide as E.
  - subst z. reflexivity.
  - int64_bounds. rewrite Z.mod_small by lia. lia.
Qed.

Lemma int_scaled_spec z :
  int64 z →
  int_scaled z = true ↔ (100000 ≤ Z.abs z)%Z ∧ z ≠ INT64_MIN.
Proof.
  intros Hz. unfold int_scaled. rewrite bool_decide_eq_true.
  rewrite (abs_int64_spec z Hz). case_decide as E.
  - subst z. int64_bounds. split; [lia | intros [_ ?]; done].
  - split; [done | by intros [? _]].
Qed.

Lemma int_scaled_small z : (Z.abs z < 100000)%Z → int_scaled z = false.
Proof.
  intros Hz. destruct (int_scaled z) eqn:E; [|done].
  apply int_scaled_spec in E; [lia|]. int64_bounds. lia.
Qed.

Lemma existsb_int_scaled zs :
  Forall int64 zs →
  existsb int_scaled zs = true ↔
  Exists (λ z, (100000 ≤ Z.abs z)%Z ∧ z ≠ INT64_MIN) zs.
Proof.
  induction 1 as [|z zs Hz Hzs IH]; cbn.
  - split; [done | by intros ?%Exists_nil].
  - rewrite orb_true_iff, Exists_cons, IH, (int_scaled_spec z Hz). done.
Qed.

Lemma numeric_columns_NoDup df :
  NoDup (sheet_columns df) → NoDup (numeric_columns df).
Proof.
  unfold sheet_columns, numeric_columns.
  induction df as [|[n s] df IH]; cbn; intros Hnd; [constructor|].
  apply NoDup_cons in Hnd as [Hn Hnd].
  destruct (int64_or_float64 s); cbn; auto.
  apply NoDup_cons. split; [|auto].
  intros Hin. apply Hn. apply list_elem_of_fmap in Hin as [[n' s'] [-> Hin]].
  apply list_elem_of_In, filter_In in Hin as [Hin _].
  apply list_elem_of_fmap. exists (n', s'). by rewrite list_elem_of_In.
Qed.

Lemma numeric_columns_elem df n c :
  NoDup (sheet_columns df) → (n, c) ∈ df →
  n ∈ numeric_columns df ↔ int64_or_float64 c = true.
Proof.
  intros Hnd Hin. unfold numeric_columns. rewrite list_elem_of_fmap. split.
  - intros [[n' c'] [Heq Hf]]. cbn in Heq. subst n'.
    apply list_elem_of_In, filter_In in Hf as [Hf Hnum].
    apply list_elem_of_In in Hf. cbn in Hnum.
    apply (sheet_get_NoDup _ _ _ Hnd) in Hin, Hf. congruence.
  - intros Hnum. exists (n, c). split; [done|].
    apply list_elem_of_In, filter_In. by rewrite <- list_elem_of_In.
Qed.

(** The loop of [convert_to_million] passes each column of dtype [int64]
    or [float64] once to [apply], and no other column. *)
Lemma convert_to_million_map df :
  NoDup (sheet_columns df) →
  convert_to_million df = (λ nc, (nc.1, apply_million nc.2)) <$> df.
Proof.
  intros Hnd. unfold convert_to_million.
  rewrite foldl_sheet_update by auto using numeric_columns_NoDup.
  apply list_fmap_ext. intros i [n c] Hi. cbn.
  apply list_elem_of_lookup_2 in Hi.
  pose proof (numeric_columns_elem df n c Hnd Hi) as Hnum.
  case_decide as Hin; [done|].
  destruct c as [vs|vs|vs|vs]; cbn in *; try done; tauto.
Qed.





(** ** Name mapping *)

Lemma get_data_name_unmapped x :
  x ∉ COMPANY_NAME_MAPPING_items.*1 → get_data_name x = x.
Proof.
  intros Hx. cbn in Hx. rewrite !not_elem_of_cons in Hx.
  destruct Hx as (H1 & H2 & H3 & _).
  unfold get_data_name, dict_get_or, COMPANY_NAME_MAPPING, dict_of_items.
  cbn [foldl COMPANY_NAME_MAPPING_items fst snd].
  by rewrite !lookup_insert_ne, lookup_empty by done.
Qed.

Lemma get_display_name_unmapped x :
  x ∉ COMPANY_NAME_MAPPING_items.*2 → get_display_name x = x.
Proof.
  intros Hx. cbn in Hx. rewrite !not_elem_of_cons in Hx.
  destruct Hx as (H1 & H2 & H3 & _).
  unfold get_display_name, dict_get_or, COMPANY_NAME_REVERSE_MAPPING,
    dict_of_items.
  cbn [foldl fmap list_fmap COMPANY_NAME_MAPPING_items prod_swap fst snd].
  by rewrite !lookup_insert_ne, lookup_empty by done.
Qed.

(** C5: on every display label of the fixed mapping, converting to the data
    label and back gives the label again; on a label that the mapping does
    not mention, neither as a display label nor as a data label,
    [get_data_name] and [get_display_name] both return their argument. *)
Theorem name_mapping_round_trip :
  (∀ x, x ∈ COMPANY_NAME_MAPPING_items.*1 →
     get_display_name (get_data_name x) = x)
  ∧ (∀ x, x ∉ COMPANY_NAME_MAPPING_items.*1 →
          x ∉ COMPANY_NAME_MAPPING_items.*2 →
     get_data_name x = x ∧ get_display_name x = x).
Proof.
  split.
  - intros x Hx. cbn in Hx. rewrite !elem_of_cons in Hx.
    destruct Hx as [->|[->|[->|Hx]]]; [by vm_compute..|].
    by apply elem_of_nil in Hx.
  - intros x H1 H2.
    auto using get_data_name_unmapped, get_display_name_unmapped.
Qed.

Lemma name_mapping_round_trip_witness :
  get_display_name (get_data_name "U.S.M.H") = "U.S.M.H"
  ∧ get_data_name "ツルハ" = "ツルハ" ∧ get_display_name "ツルハ" = "ツルハ".
Proof.
  destruct name_mapping_round_trip as [Hin Hout].
  split; [apply Hin; decide_closed|].
  apply Hout; decide_closed.
Defined.

(** ** Guarded division *)

Lemma safe_divide_arrays default ns ds :
  length ns = length ds →
  safe_divide (NpArray ns) (NpArray ds) (PyNumber default) =
    Ok (Nd1 (zip_with (guarded_quotient default) ns ds)).
Proof.
  intros Hlen. unfold safe_divide, truediv, np_where, ne_zero. cbn.
  rewrite decide_True by done. cbn.
  rewrite decide_True by
    (rewrite length_fmap, length_fmap, length_zip_with; lia).
  do 2 f_equal. revert ds Hlen.
  induction ns as [|n ns IH]; intros [|d ds] Hlen; cbn in *; try done.
  f_equal; [|apply IH; lia].
  unfold guarded_quotient. by destruct (PrimFloat.eqb d 0).
Qed.

(** C9: two plain Python numbers with a zero divisor: the quotient is
    evaluated before [np.where] can guard it, and the call raises instead of
    returning the default. *)
Theorem safe_divide_python_zero_raises :
  safe_divide (PyNumber 10) (PyNumber 0) (PyNumber 0) = Raise ZeroDivisionError.
Proof. reflexivity. Qed.

Lemma safe_divide_array_by_zero default ns :
  safe_divide (NpArray ns) (PyNumber 0) (PyNumber default) =
    Ok (Nd1 (replicate (length ns) default)).
Proof.
  unfold safe_divide, truediv, np_where, ne_zero. cbn. do 2 f_equal.
  induction ns as [|n ns IH]; cbn; [done|]. by rewrite IH.
Qed.

Lemma safe_divide_ten_by_four :
  safe_divide (PyNumber 10) (PyNumber 4) (PyNumber 0) = Ok (Nd0 2.5%float).
Proof. reflexivity. Qed.

Lemma guarded_quotient_zero default n d :
  PrimFloat.eqb d 0 = true → guarded_quotient default n d = default.
Proof. intros H. unfold guarded_quotient. by rewrite H. Qed.

Lemma guarded_quotient_nonzero default n d :
  PrimFloat.eqb d 0 = false → guarded_quotient default n d = PrimFloat.div n d.
Proof. intros H. unfold guarded_quotient. by rewrite H. Qed.

(** ** Division never produces a missing value from a number *)

Lemma shr_1_nonneg mrs : (0 ≤ shr_m mrs)%Z → (0 ≤ shr_m (shr_1 mrs))%Z.
Proof.
  destruct mrs as [m r s]. cbn. destruct m as [|[p|p|]|[p|p|]]; cbn; lia.
Qed.

Lemma iter_pos_shr_1_nonneg p mrs :
  (0 ≤ shr_m mrs)%Z → (0 ≤ shr_m (SpecFloat.iter_pos shr_1 p mrs))%Z.
Proof.
  revert mrs. induction p as [p IH|p IH|]; intros mrs H; cbn;
    auto using shr_1_nonneg.
Qed.

Lemma shr_fexp_nonneg prec emax m e l :
  (0 ≤ m)%Z → (0 ≤ shr_m (shr_fexp prec emax m e l).1)%Z.
Proof.
  intros H. unfold shr_fexp, shr.
  assert (0 ≤ shr_m (shr_record_of_loc m l))%Z
    by (destruct l as [|[]]; exact H).
  destruct (_ - e)%Z; cbn; auto using iter_pos_shr_1_nonneg.
Qed.

Lemma binary_round_aux_not_nan prec emax sx mx ex lx :
  (0 ≤ mx)%Z → binary_round_aux prec emax sx mx ex lx ≠ S754_nan.
Proof.
  intros H. unfold binary_round_aux.
  pose proof (shr_fexp_nonneg prec emax mx ex lx H) as H1.
  destruct (shr_fexp prec emax mx ex lx) as [mrs' e']. cbn in H1.
  assert (0 ≤ round_nearest_even (shr_m mrs') (loc_of_shr_record mrs'))%Z
    as H2.
  { unfold round_nearest_even.
    destruct (loc_of_shr_record mrs') as [|[]];
      try destruct (Z.even _); lia. }
  pose proof (shr_fexp_nonneg prec emax _ e' loc_Exact H2) as H3.
  destruct (shr_fexp prec emax _ e' loc_Exact) as [mrs'' e'']. cbn in H3.
  destruct (shr_m mrs''); [done| |lia].
  destruct (_ <=? _)%Z; done.
Qed.

Lemma SFdiv_finite_not_nan prec emax x sy my ey :
  x ≠ S754_nan → SFdiv prec emax x (S754_finite sy my ey) ≠ S754_nan.
Proof.
  intros Hx. destruct x as [sx|sx| |sx mx ex]; cbn; try done.
  unfold SFdiv_core_binary.
  set (m' := match _ with Z0 => _ | Zpos _ => _ | Zneg _ => _ end).
  assert (0 ≤ m')%Z as Hm'.
  { subst m'. destruct (_ - _ - _)%Z; try lia. apply Z.shiftl_nonneg. lia. }
  pose proof (Z.div_pos m' (Zpos my) Hm' eq_refl) as Hq.
  unfold Z.div in Hq. destruct (Z.div_eucl m' (Zpos my)) as [q r]. cbn in Hq.
  by apply binary_round_aux_not_nan.
Qed.

Lemma is_nan_false x : PrimFloat.is_nan x = false ↔ Prim2SF x ≠ S754_nan.
Proof.
  rewrite <- is_nan_spec. destruct (PrimFloat.is_nan x); split; done.
Qed.

Lemma million_cell_notna x :
  PrimFloat.is_nan x = false → PrimFloat.is_nan (million_cell x) = false.
Proof.
  intros Hx. unfold million_cell. destruct (_ && _); [|done].
  apply is_nan_false. rewrite FloatAxioms.div_spec.
  apply is_nan_false in Hx.
  replace (Prim2SF 1000000) with (S754_finite false 8589934592000000 (-33))
    by (vm_compute; reflexivity).
  by apply SFdiv_finite_not_nan.
Qed.

Lemma is_infinity_spec x :
  PrimFloat.is_infinity x = true ↔ ∃ s, Prim2SF x = S754_infinity s.
Proof.
  unfold PrimFloat.is_infinity.
  rewrite FloatAxioms.eqb_spec, FloatAxioms.abs_spec.
  replace (Prim2SF PrimFloat.infinity) with (S754_infinity false)
    by (vm_compute; reflexivity).
  destruct (Prim2SF x) as [s|s| |s m e]; cbn; split;
    try done; try (intros [? ?]; done); eauto.
Qed.

Lemma is_infinity_notna x :
  PrimFloat.is_infinity x = true → PrimFloat.is_nan x = false.
Proof.
  intros [s Hs]%is_infinity_spec. apply is_nan_false. by rewrite Hs.
Qed.

Lemma million_cell_infinite x :
  PrimFloat.is_infinity x = true →
  PrimFloat.is_infinity (million_cell x) = true.
Proof.
  intros Hx. unfold million_cell. destruct (_ && _); [|done].
  apply is_infinity_spec in Hx as [s Hs]. apply is_infinity_spec.
  rewrite FloatAxioms.div_spec, Hs.
  replace (Prim2SF 1000000) with (S754_finite false 8589934592000000 (-33))
    by (vm_compute; reflexivity).
  cbn. eauto.
Qed.

(** ** Division by a million keeps a finite number finite *)

Local Open Scope Z_scope.

Lemma digits2_pos_size p : digits2_pos p = Pos.size p.
Proof. induction p; cbn; congruence. Qed.

Lemma Zdigits2_log2 m : 0 < m → Zdigits2 m = Z.log2 m + 1.
Proof.
  destruct m as [|p|p]; try lia. intros _. cbn. rewrite digits2_pos_size.
  destruct p; cbn; lia.
Qed.

Lemma Zdigits2_nonneg m : 0 <= Zdigits2 m.
Proof. destruct m; cbn; lia. Qed.

Lemma Zdigits2_le a b : 0 <= a → a <= b → Zdigits2 a <= Zdigits2 b.
Proof.
  intros Ha Hab. destruct (Z.eq_dec a 0) as [->|Hne].
  - apply Zdigits2_nonneg.
  - rewrite !Zdigits2_log2 by lia. pose proof (Z.log2_le_mono a b Hab). lia.
Qed.

Lemma Zdigits2_div2 m : 0 <= m → Zdigits2 (Z.div2 m) = Z.max (Zdigits2 m - 1) 0.
Proof.
  intros Hm. destruct m as [|p|p]; try lia; [done|].
  destruct p as [p|p|]; cbn [Z.div2 Pos.div2 Zdigits2 digits2_pos];
    rewrite ?Pos2Z.inj_succ; lia.
Qed.

Lemma shr_1_m mrs : 0 <= shr_m mrs → shr_m (shr_1 mrs) = Z.div2 (shr_m mrs).
Proof. destruct mrs as [m r s]. cbn. destruct m as [|[p|p|]|[p|p|]]; cbn; lia || done. Qed.

Lemma iter_pos_shr_1_digits p : ∀ mrs, 0 <= shr_m mrs →
  0 <= shr_m (SpecFloat.iter_pos shr_1 p mrs)
  ∧ Zdigits2 (shr_m (SpecFloat.iter_pos shr_1 p mrs)) = Z.max (Zdigits2 (shr_m mrs) - Zpos p) 0.
Proof.
  assert (Hone : ∀ mrs, 0 <= shr_m mrs → 0 <= shr_m (shr_1 mrs) ∧ Zdigits2 (shr_m (shr_1 mrs)) = Z.max (Zdigits2 (shr_m mrs) - 1) 0).
  { intros mrs H. rewrite shr_1_m by done. split; [|by apply Zdigits2_div2].
    rewrite Z.div2_div. apply Z.div_pos; lia. }
  induction p as [p IH|p IH|]; intros mrs H; cbn.
  - destruct (Hone mrs H) as [H1 E1].
    destruct (IH _ H1) as [H2 E2]. destruct (IH _ H2) as [H3 E3].
    split; [done|]. rewrite E3, E2, E1. pose proof (Zdigits2_nonneg (shr_m mrs)). lia.
  - destruct (IH _ H) as [H2 E2]. destruct (IH _ H2) as [H3 E3].
    split; [done|]. rewrite E3, E2. pose proof (Zdigits2_nonneg (shr_m mrs)). lia.
  - by apply Hone.
Qed.

Lemma shr_fexp_bounds prec emax m e l :
  0 <= m →
  let r := shr_fexp prec emax m e l in
  0 <= shr_m r.1
  ∧ r.2 <= Z.max e (fexp prec emax (Zdigits2 m + e))
  ∧ Zdigits2 (shr_m r.1) + r.2 <= Z.max (Zdigits2 m + e) (fexp prec emax (Zdigits2 m + e)).
Proof.
  intros Hm. unfold shr_fexp, shr.
  assert (Hrec : shr_m (shr_record_of_loc m l) = m) by (by destruct l as [|[]]).
  destruct (fexp prec emax (Zdigits2 m + e) - e) as [|n|n] eqn:E; cbn.
  - rewrite Hrec. lia.
  - destruct (iter_pos_shr_1_digits n (shr_record_of_loc m l)) as [H1 H2]; [by rewrite Hrec|].
    rewrite H2, Hrec. lia.
  - rewrite Hrec. lia.
Qed.

Lemma Zdigits2_succ m : 0 <= m → Zdigits2 (m + 1) <= Zdigits2 m + 1.
Proof.
  intros Hm. destruct (Z.eq_dec m 0) as [->|Hne]; [done|].
  rewrite !Zdigits2_log2 by lia.
  pose proof (Z.log2_succ_le m). replace (m + 1) with (Z.succ m) by lia. lia.
Qed.

Lemma binary_round_aux_finite prec emax sx mx ex lx :
  0 <= mx →
  Z.max ex (fexp prec emax (Zdigits2 mx + ex)) <= emax - prec - 1 →
  fexp prec emax (Z.max (Zdigits2 mx + ex) (fexp prec emax (Zdigits2 mx + ex)) + 1) <= emax - prec →
  (∀ a b, a <= b → fexp prec emax a <= fexp prec emax b) →
  ∀ s, binary_round_aux prec emax sx mx ex lx ≠ S754_infinity s.
Proof.
  intros Hm He Ht Hmono s. unfold binary_round_aux.
  pose proof (shr_fexp_bounds prec emax mx ex lx Hm) as (H1 & H2 & H3).
  destruct (shr_fexp prec emax mx ex lx) as [mrs' e']. cbn in H1, H2, H3.
  set (m1 := round_nearest_even (shr_m mrs') (loc_of_shr_record mrs')).
  assert (0 <= m1 ∧ Zdigits2 m1 <= Zdigits2 (shr_m mrs') + 1) as [Hm1 Hd1].
  { unfold m1, round_nearest_even.
    pose proof (Zdigits2_succ _ H1).
    destruct (loc_of_shr_record mrs') as [|[]]; try destruct (Z.even _); split; lia. }
  pose proof (shr_fexp_bounds prec emax m1 e' loc_Exact Hm1) as (H4 & H5 & H6).
  destruct (shr_fexp prec emax m1 e' loc_Exact) as [mrs'' e'']. cbn in H4, H5, H6.
  destruct (shr_m mrs''); [done| |done].
  assert (e'' <= emax - prec) as Hle.
  { etrans; [exact H5|]. apply Z.max_lub; [lia|].
    etrans; [|exact Ht]. apply Hmono. lia. }
  apply Z.leb_le in Hle. by rewrite Hle.
Qed.

Lemma fexp64 t : fexp prec emax t = Z.max (t - 53) (-1074).
Proof. reflexivity. Qed.

Lemma Zdigits2_quotient a b :
  0 < a → 2 ^ 52 <= b → Zdigits2 (a / b) <= Z.max 1 (Zdigits2 a - 52).
Proof.
  intros Ha Hb.
  assert (0 <= a / b) as Hq by (apply Z.div_pos; lia).
  destruct (Z.eq_dec (a / b) 0) as [->|Hne]; [cbn; lia|].
  assert (a / b <= a / 2 ^ 52) as Hle by (apply Z.div_le_compat_l; lia).
  rewrite (Zdigits2_log2 (a / b)), (Zdigits2_log2 a) by lia.
  pose proof (Z.log2_le_mono _ _ Hle) as Hlog.
  rewrite <- Z.shiftr_div_pow2, Z.log2_shiftr in Hlog by lia. lia.
Qed.

Lemma SFdiv_million_not_infinite sx mx ex s :
  bounded prec emax mx ex = true →
  SFdiv prec emax (S754_finite sx mx ex)
    (S754_finite false 8589934592000000 (-33)) ≠ S754_infinity s.
Proof.
  unfold bounded, canonical_mantissa. rewrite fexp64.
  intros [Hcan Hex]%andb_prop. apply Z.eqb_eq in Hcan. apply Z.leb_le in Hex.
  change (emax - prec) with 971 in Hex.
  cbn [SFdiv]. unfold SFdiv_core_binary.
  change (Zdigits2 (Z.pos 8589934592000000)) with 53.
  rewrite fexp64.
  set (d1 := Zdigits2 (Z.pos mx)).
  assert (Hd1 : 0 < d1 <= 53) by (unfold d1; cbn; lia).
  set (e' := Z.min _ _).
  assert (He' : e' <= 951 ∧ e' <= ex + 33) by (unfold e'; lia).
  set (m' := match ex - -33 - e' with Z0 => _ | Zpos _ => _ | Zneg _ => _ end).
  assert (Hm' : 0 < m' ∧ Zdigits2 m' = d1 + (ex + 33 - e')).
  { subst m'. destruct (ex - -33 - e') as [|p|p] eqn:Es; [| |lia].
    - split; [lia|]. unfold d1. lia.
    - rewrite Z.shiftl_mul_pow2 by lia.
      assert (0 < Z.pos mx * 2 ^ Z.pos p) as Hpos
        by (apply Z.mul_pos_pos; [lia | apply Z.pow_pos_nonneg; lia]).
      split; [done|]. unfold d1.
      rewrite !Zdigits2_log2 by lia. rewrite Z.log2_mul_pow2 by lia. lia. }
  destruct Hm' as [Hm'pos Hm'd].
  pose proof (Zdigits2_quotient m' (Z.pos 8589934592000000) Hm'pos
                ltac:(vm_compute; discriminate)) as Hq.
  pose proof (Z.div_pos m' (Z.pos 8589934592000000) ltac:(lia) eq_refl) as Hq0.
  unfold Z.div in Hq, Hq0.
  destruct (Z.div_eucl m' (Z.pos 8589934592000000)) as [q r]. cbn [fst] in Hq, Hq0.
  apply binary_round_aux_finite; rewrite ?fexp64;
    change (emax - prec - 1) with 970; change (emax - prec) with 971;
    try lia.
  intros a b Hab. rewrite !fexp64. lia.
Qed.

Local Close Scope Z_scope.

Lemma is_finite_spec x :
  PrimFloat.is_finite x = true ↔
  Prim2SF x ≠ S754_nan ∧ ∀ s, Prim2SF x ≠ S754_infinity s.
Proof.
  unfold PrimFloat.is_finite.
  rewrite negb_true_iff, orb_false_iff, is_nan_false.
  assert (PrimFloat.is_infinity x = false ↔
          ∀ s, Prim2SF x ≠ S754_infinity s) as ->; [|done].
  pose proof (is_infinity_spec x) as Hinf.
  destruct (PrimFloat.is_infinity x).
  - split; [done|]. intros Hno. destruct Hinf as [[s Hs] _]; [done|].
    by destruct (Hno s).
  - split; [|done]. intros _ s Hs. destruct Hinf as [_ Hinf].
    by discriminate Hinf; eauto.
Qed.

Lemma div_million_finite x :
  PrimFloat.is_finite x = true →
  PrimFloat.is_finite (PrimFloat.div x 1000000) = true.
Proof.
  intros Hx.
  apply is_finite_spec in Hx as [Hnan Hinf]. apply is_finite_spec.
  rewrite FloatAxioms.div_spec.
  replace (Prim2SF 1000000) with (S754_finite false 8589934592000000 (-33))
    by (vm_compute; reflexivity).
  split; [by apply SFdiv_finite_not_nan|].
  pose proof (FloatAxioms.Prim2SF_valid x) as Hvalid.
  destruct (Prim2SF x) as [sx|sx| |sx mx ex]; [done| by destruct (Hinf sx)
    | done |].
  intros s. by apply SFdiv_million_not_infinite.
Qed.

Lemma million_cell_finite x :
  PrimFloat.is_finite x = true → PrimFloat.is_finite (million_cell x) = true.
Proof.
  intros Hx. unfold million_cell. destruct (_ && _); [|done].
  by apply div_million_finite.
Qed.

Lemma is_finite_notna x :
  PrimFloat.is_finite x = true → PrimFloat.is_nan x = false.
Proof. intros [H _]%is_finite_spec. by apply is_nan_false. Qed.

(** ** The float of a 64-bit integer is finite *)

Local Open Scope Z_scope.

Lemma digits2_pos_shift p k :
  digits2_pos (Pos.iter xO p k) = (digits2_pos p + k)%positive.
Proof.
  rewrite (Pos.iter_swap_gen _ _ digits2_pos xO Pos.succ) by done.
  induction k as [|k IH] using Pos.peano_ind.
  - cbn. lia.
  - rewrite Pos.iter_succ, IH. lia.
Qed.

Lemma Zpos_shift p k : Zpos (Pos.iter xO p k) = Z.shiftl (Zpos p) (Zpos k).
Proof. by rewrite (Pos.iter_swap_gen _ _ Zpos xO (Z.mul 2)). Qed.

Lemma binary_round_int_finite sx p :
  Zpos p < 2 ^ 63 →
  binary_round prec emax sx p 0 ≠ S754_nan
  ∧ ∀ s, binary_round prec emax sx p 0 ≠ S754_infinity s.
Proof.
  intros Hp.
  assert (Hd : 1 <= Zpos (digits2_pos p) <= 63).
  { pose proof (Zdigits2_log2 (Zpos p) eq_refl) as Hlog.
    cbn [Zdigits2] in Hlog.
    pose proof (Z.log2_nonneg (Zpos p)).
    assert (Z.log2 (Zpos p) < 63) by (by apply Z.log2_lt_pow2). lia. }
  assert (Hmono : ∀ a b, a <= b → fexp prec emax a <= fexp prec emax b)
    by (intros a b Hab; rewrite !fexp64; lia).
  unfold binary_round, shl_align. rewrite fexp64.
  destruct (Z.max (Zpos (digits2_pos p) + 0 - 53) (-1074) - 0)
    as [|k|k] eqn:E.
  - split; [by apply binary_round_aux_not_nan|].
    apply binary_round_aux_finite; rewrite ?fexp64; cbn [Zdigits2];
      change (emax - prec - 1) with 970; change (emax - prec) with 971;
      (lia || done).
  - split; [by apply binary_round_aux_not_nan|].
    apply binary_round_aux_finite; rewrite ?fexp64; cbn [Zdigits2];
      change (emax - prec - 1) with 970; change (emax - prec) with 971;
      (lia || done).
  - split; [by apply binary_round_aux_not_nan|].
    apply binary_round_aux_finite; rewrite ?fexp64; cbn [Zdigits2];
      rewrite ?digits2_pos_shift;
      change (emax - prec - 1) with 970; change (emax - prec) with 971;
      (lia || done).
Qed.

Local Close Scope Z_scope.

Lemma of_uint63_finite n : PrimFloat.is_finite (PrimFloat.of_uint63 n) = true.
Proof.
  apply is_finite_spec. rewrite FloatAxioms.of_uint63_spec.
  pose proof (Uint63.to_Z_bounded n) as Hn.
  change Uint63Axioms.wB with (2 ^ 63)%Z in Hn.
  destruct (Uint63Axioms.to_Z n) as [|q|q]; cbn [binary_normalize].
  - done.
  - apply binary_round_int_finite. lia.
  - lia.
Qed.

Lemma opp_finite x :
  PrimFloat.is_finite x = true → PrimFloat.is_finite (PrimFloat.opp x) = true.
Proof.
  rewrite !is_finite_spec, FloatAxioms.opp_spec.
  destruct (Prim2SF x) as [s|s| |s m e]; cbn; intros [H1 H2]; split;
    try done.
  by destruct (H2 s).
Qed.

Lemma float_of_Z_finite z : PrimFloat.is_finite (float_of_Z z) = true.
Proof.
  destruct z as [|p|p]; cbn [float_of_Z].
  - reflexivity.
  - apply of_uint63_finite.
  - apply opp_finite, of_uint63_finite.
Qed.

Lemma float_of_int64_finite z :
  PrimFloat.is_finite (float_of_int64 z) = true.
Proof.
  unfold float_of_int64. case_decide; [reflexivity|].
  apply float_of_Z_finite.
Qed.

Lemma million_int_finite z : PrimFloat.is_finite (million_int z) = true.
Proof.
  unfold million_int. destruct (int_scaled z).
  - apply div_million_finite, float_of_int64_finite.
  - apply float_of_int64_finite.
Qed.

(** ** Loading *)

Lemma fillna_notna v x :
  PrimFloat.is_nan v = false → PrimFloat.is_nan (fillna v x) = false.
Proof. intros Hv. unfold fillna. by destruct (PrimFloat.is_nan x) eqn:E. Qed.

Lemma fillna_zero_finite x :
  PrimFloat.is_infinity x = false → PrimFloat.is_finite (fillna 0 x) = true.
Proof.
  intros Hx. unfold fillna. destruct (PrimFloat.is_nan x) eqn:E; [done|].
  unfold PrimFloat.is_finite. by rewrite E, Hx.
Qed.

Lemma cleaned_text_spec t :
  cleaned_text t = if decide (t = "-" ∨ t = "") then "0" else t.
Proof.
  unfold cleaned_text, replace_exact.
  destruct (decide (t = "-")) as [->|H1]; [done|].
  destruct (decide (t = "")) as [->|H2]; [done|].
  rewrite decide_False; [done | by intros [?|?]].
Qed.

Lemma num_cols_NoDup df : NoDup (sheet_columns df) → NoDup (num_cols df).
Proof.
  unfold num_cols. generalize (sheet_columns df). intros l.
  induction 1 as [|x l Hx Hnd IH]; cbn; [constructor|].
  destruct (negb _); [|done]. constructor; [|done].
  rewrite list_elem_of_In, filter_In, <- list_elem_of_In. tauto.
Qed.

Lemma num_cols_elem df name :
  name ∈ num_cols df ↔ name ∈ sheet_columns df ∧ name ∉ ID_COLUMNS.
Proof.
  unfold num_cols.
  rewrite list_elem_of_In, filter_In, <- list_elem_of_In, negb_true_iff,
    bool_decide_eq_false.
  done.
Qed.

Lemma column_len_apply_million c :
  column_len (apply_million c) = column_len c.
Proof.
  destruct c as [vs|vs|vs|vs]; cbn; rewrite ?length_fmap; try done.
  destruct (existsb int_scaled vs); cbn; by rewrite ?length_fmap.
Qed.

Section LoaderProperties.
Variable str_of_float : float → string.
Variable to_numeric : string → float.
Variable int_literal : string → option Z.

Local Abbreviation astype := (astype_str str_of_float).
Local Abbreviation parse := (to_numeric_coerce to_numeric int_literal).
Local Abbreviation clean := (clean_series str_of_float to_numeric int_literal).
Local Abbreviation cleaned :=
  (clean_table str_of_float to_numeric int_literal).
Local Abbreviation loaded := (load_table str_of_float to_numeric int_literal).

Lemma length_astype_str s : length (astype s) = column_len s.
Proof. destruct s; cbn; by rewrite length_fmap. Qed.

(** The three outcomes of [to_numeric] on a column of texts. *)
Lemma to_numeric_int64 texts zs :
  mapM int_literal texts = Some zs → Forall int64 zs →
  parse texts = Int64Col zs.
Proof.
  intros Hzs Hrange. unfold to_numeric_coerce. rewrite Hzs.
  by rewrite decide_True.
Qed.

Lemma to_numeric_uint64 texts zs :
  mapM int_literal texts = Some zs → ¬ Forall int64 zs → Forall uint64 zs →
  parse texts = UInt64Col zs.
Proof.
  intros Hzs Hn Hu. unfold to_numeric_coerce. rewrite Hzs.
  by rewrite decide_False, decide_True.
Qed.

Lemma to_numeric_float64 texts :
  mapM int_literal texts = None
  ∨ (∃ zs, mapM int_literal texts = Some zs
       ∧ ¬ Forall int64 zs ∧ ¬ Forall uint64 zs) →
  parse texts = Float64Col (to_numeric <$> texts).
Proof.
  unfold to_numeric_coerce. intros [->|(zs & -> & Hn & Hu)]; [done|].
  by rewrite !decide_False.
Qed.

Lemma to_numeric_cases texts :
  (∃ zs, mapM int_literal texts = Some zs ∧ parse texts = Int64Col zs)
  ∨ (∃ zs, mapM int_literal texts = Some zs ∧ parse texts = UInt64Col zs)
  ∨ parse texts = Float64Col (to_numeric <$> texts).
Proof.
  unfold to_numeric_coerce.
  destruct (mapM int_literal texts) as [zs|]; [|by right; right].
  destruct (decide (Forall int64 zs)); [left; eauto|].
  destruct (decide (Forall uint64 zs)); [right; left; eauto|].
  by right; right.
Qed.

Lemma column_len_clean s : column_len (clean s) = column_len s.
Proof.
  unfold clean_series. rewrite <- (length_astype_str s).
  set (texts := cleaned_text <$> astype s).
  assert (length texts = length (astype s)) as <-
    by (unfold texts; by rewrite length_fmap).
  destruct (to_numeric_cases texts) as [(zs & Hzs & ->)|[(zs & Hzs & ->)| ->]];
    cbn; rewrite ?length_fmap; try done;
    symmetry; by eapply length_mapM.
Qed.

Lemma clean_table_map df :
  NoDup (sheet_columns df) →
  cleaned df =
    (λ nc, if decide (nc.1 ∈ ID_COLUMNS) then nc
           else (nc.1, clean nc.2)) <$> df.
Proof.
  intros Hnd. unfold clean_table.
  rewrite foldl_sheet_update by auto using num_cols_NoDup.
  apply list_fmap_ext. intros i [n s] Hi. cbn.
  assert (n ∈ sheet_columns df) as Hn.
  { unfold sheet_columns. apply list_elem_of_fmap. exists (n, s).
    split; [done | by eapply list_elem_of_lookup_2]. }
  pose proof (num_cols_elem df n) as Hiff.
  destruct (decide (n ∈ num_cols df)), (decide (n ∈ ID_COLUMNS)); tauto.
Qed.

Lemma clean_table_columns df :
  NoDup (sheet_columns df) → sheet_columns (cleaned df) = sheet_columns df.
Proof.
  intros Hnd. rewrite clean_table_map by done. unfold sheet_columns.
  rewrite <- list_fmap_compose. apply list_fmap_ext.
  intros i [n s] _. cbn. by case_decide.
Qed.

(** Loading rewrites the table column by column: an identifying column is
    scaled, any other column is cleaned and then scaled. *)
Lemma load_table_map df :
  NoDup (sheet_columns df) →
  loaded df =
    (λ nc, (nc.1, apply_million
                    (if decide (nc.1 ∈ ID_COLUMNS) then nc.2
                     else clean nc.2))) <$> df.
Proof.
  intros Hnd. unfold load_table.
  rewrite convert_to_million_map by (by rewrite clean_table_columns).
  rewrite clean_table_map by done. rewrite <- list_fmap_compose.
  apply list_fmap_ext. intros i [n s] _. cbn. by case_decide.
Qed.

Lemma load_table_get df name :
  NoDup (sheet_columns df) →
  sheet_get (loaded df) name =
    (λ c, apply_million (if decide (name ∈ ID_COLUMNS) then c else clean c))
      <$> sheet_get df name.
Proof.
  intros Hnd. rewrite load_table_map by done. clear Hnd.
  induction df as [|[n c] df IH]; cbn; [done|].
  destruct (decide (n = name)) as [->|Hne]; [done | exact IH].
Qed.

(** C4 (as the loader has it): in every column other than the three
    identifying ones, a cell whose text is a single hyphen or empty is read
    as the text 0, every other cell as its own text, and the texts are
    parsed as one column.  When every text is an integer literal that fits
    an [int64], the column is an [int64] column of these integers and is
    then unit scaled: it stays as it is when no integer is to be scaled,
    and becomes a [float64] column of finite numbers otherwise.  When the
    integers do not all fit an [int64] but all fit a [uint64], the column
    is a [uint64] column of these integers, and no cell of it is scaled.
    In every other case the column is a [float64] column: a cell whose
    text is no number becomes 0, any other cell keeps its parsed value,
    and the value is then unit scaled; the cell is finite unless the
    parser returns an infinity for the text, and then it is infinite.
    After loading the column is numeric and no cell of it is [nan]. *)
Theorem load_cleans_metric_cells (df : Sheet) (name : string) (s : Column) :
  NoDup (sheet_columns df) →
  name ∉ ID_COLUMNS →
  sheet_get df name = Some s →
  let texts := cleaned_text <$> astype s in
  (∀ i t, astype s !! i = Some t →
     (t = "-" ∨ t = "" → texts !! i = Some "0")
     ∧ (t ≠ "-" → t ≠ "" → texts !! i = Some t))
  ∧ ∃ c, sheet_get (loaded df) name = Some c
    ∧ column_len c = column_len s
    ∧ (∀ zs, mapM int_literal texts = Some zs → Forall int64 zs →
         let scaled z := (100000 ≤ Z.abs z)%Z ∧ z ≠ INT64_MIN in
         (Forall (λ z, ¬ scaled z) zs → c = Int64Col zs)
         ∧ (Exists scaled zs →
              c = Float64Col (million_int <$> zs)
              ∧ Forall (λ x, PrimFloat.is_finite x = true)
                  (million_int <$> zs)))
    ∧ (∀ zs, mapM int_literal texts = Some zs →
         ¬ Forall int64 zs → Forall uint64 zs → c = UInt64Col zs)
    ∧ (mapM int_literal texts = None
       ∨ (∃ zs, mapM int_literal texts = Some zs
            ∧ ¬ Forall int64 zs ∧ ¬ Forall uint64 zs) →
       ∃ xs, c = Float64Col xs
         ∧ ∀ i t, texts !! i = Some t →
             ∃ x, xs !! i = Some x
               ∧ (PrimFloat.is_nan (to_numeric t) = true → x = 0%float)
               ∧ (PrimFloat.is_nan (to_numeric t) = false →
                    x = million_cell (to_numeric t))
               ∧ (PrimFloat.is_infinity (to_numeric t) = false →
                    PrimFloat.is_finite x = true)
               ∧ (PrimFloat.is_infinity (to_numeric t) = true →
                    PrimFloat.is_infinity x = true))
    ∧ match c with
      | ObjectCol _ => False
      | Float64Col xs => Forall (λ x, PrimFloat.is_nan x = false) xs
      | Int64Col _ | UInt64Col _ => True
      end.
Proof.
  intros Hnd Hid Hget texts. split.
  { intros i t Hi. unfold texts. rewrite list_lookup_fmap, Hi. cbn.
    rewrite cleaned_text_spec. split.
    - intros H. by rewrite decide_True.
    - intros H1 H2. rewrite decide_False; [done | by intros [?|?]]. }
  exists (apply_million (clean s)).
  rewrite load_table_get, Hget by done. cbn [fmap option_fmap option_map].
  rewrite decide_False by done.
  split; [done|].
  split; [by rewrite column_len_apply_million, column_len_clean|].
  unfold clean_series. fold texts.
  split; [|split; [|split]].
  - intros zs Hzs Hrange. cbv zeta.
    rewrite (to_numeric_int64 texts zs) by done. cbn.
    pose proof (existsb_int_scaled zs Hrange) as Hex. split.
    + intros Hnone. destruct (existsb int_scaled zs); [|done].
      destruct Hex as [Hex _]. specialize (Hex eq_refl).
      apply Exists_exists in Hex as (z & Hin & Hz).
      rewrite Forall_forall in Hnone. by destruct (Hnone z Hin).
    + intros Hsome. apply Hex in Hsome. rewrite Hsome. split; [done|].
      apply Forall_fmap, Forall_forall. intros z _. apply million_int_finite.
  - intros zs Hzs Hn Hu. by rewrite (to_numeric_uint64 texts zs).
  - intros Hcase. rewrite (to_numeric_float64 texts Hcase). cbn.
    eexists. split; [done|]. intros i t Hi.
    rewrite !list_lookup_fmap, Hi. cbn. eexists. split; [done|].
    split; [|split; [|split]].
    + intros Hn. unfold fillna. by rewrite Hn.
    + intros Hn. unfold fillna. by rewrite Hn.
    + intros Hfin. by apply million_cell_finite, fillna_zero_finite.
    + intros Hinf. unfold fillna. rewrite (is_infinity_notna _ Hinf).
      by apply million_cell_infinite.
  - destruct (to_numeric_cases texts)
      as [(zs & Hzs & ->)|[(zs & Hzs & ->)| ->]]; cbn; [|done|].
    + destruct (existsb int_scaled zs); [|done].
      apply Forall_fmap, Forall_forall. intros z _. cbn.
      apply is_finite_notna, million_int_finite.
    + apply Forall_fmap, Forall_fmap, Forall_forall. intros t _. cbn.
      by apply million_cell_notna, fillna_notna.
Qed.
End LoaderProperties.

Lemma load_cleans_metric_cells_witness :
  NoDup (sheet_columns sample_sheet)
  ∧ ("売上高" ∉ ID_COLUMNS)
  ∧ sheet_get (load_table sample_str sample_to_numeric sample_int_literal
                 sample_sheet) "売上高" =
      Some (Float64Col [0.25%float; 0%float; 0%float; 0%float]).
Proof.
  assert (Hnd : NoDup (sheet_columns sample_sheet)) by decide_closed.
  assert (Hid : "売上高" ∉ ID_COLUMNS) by decide_closed.
  split; [done|]. split; [done|].
  destruct (load_cleans_metric_cells sample_str sample_to_numeric
    sample_int_literal sample_sheet "売上高" _ Hnd Hid eq_refl)
    as (_ & c & Hc & _).
  rewrite Hc. f_equal. vm_compute in Hc. by simplify_eq.
Defined.

(** C4, the claim as worded fails: a cell holding the text [inf] parses to
    the infinity, which [fillna] and the unit scaling keep, so a loaded
    numeric field is not finite. *)
Lemma load_keeps_infinity :
  sheet_get (load_table sample_str sample_to_numeric sample_int_literal
               infinite_sheet) "売上高" =
    Some (Float64Col [PrimFloat.infinity])
  ∧ PrimFloat.is_finite PrimFloat.infinity = false.
Proof. split; vm_compute; reflexivity. Qed.

(** ** Boolean indexing *)

Lemma true_positions_elem mask i :
  i ∈ true_positions mask ↔ mask !! i = Some true.
Proof.
  revert i. induction mask as [|b mask IH]; intros i; cbn.
  - split; [intros []%elem_of_nil | done].
  - assert (i ∈ S <$> true_positions mask ↔
            ∃ j, i = S j ∧ mask !! j = Some true) as Hl.
    { rewrite list_elem_of_fmap. by setoid_rewrite IH. }
    destruct b, i as [|i]; cbn; rewrite ?elem_of_cons, ?Hl.
    + split; [done | by left].
    + split; [intros [?|(j & [= ->] & ?)]; done | right; eauto].
    + split; [intros (j & ? & ?); done | done].
    + split; [intros (j & [= ->] & ?); done | eauto].
Qed.

Lemma true_positions_sorted mask : StronglySorted lt (true_positions mask).
Proof.
  induction mask as [|b mask IH]; cbn; [constructor|].
  assert (StronglySorted lt (S <$> true_positions mask)) as Hs.
  { apply (StronglySorted_fmap S lt lt); [|done]. intros x y; lia. }
  destruct b; [|done]. constructor; [done|].
  apply Forall_forall. intros j [k [-> _]]%list_elem_of_fmap. lia.
Qed.

Lemma mask_select_nil_r {A} (mask : list bool) : mask_select mask (@nil A) = [].
Proof. by destruct mask as [|[] ?]. Qed.

Lemma mask_select_positions {A} (mask : list bool) (vs : list A) :
  mask_select mask vs = omap (λ i, vs !! i) (true_positions mask).
Proof.
  revert vs. induction mask as [|b mask IH]; intros vs; [done|].
  destruct vs as [|v vs].
  - rewrite mask_select_nil_r. symmetry.
    generalize (true_positions (b :: mask)). intros l.
    induction l as [|? ? IHl]; [done|]. cbn. done.
  - cbn. rewrite IH.
    assert (omap (λ i, (v :: vs) !! i) (S <$> true_positions mask) =
            omap (λ i, vs !! i) (true_positions mask)) as Hs.
    { generalize (true_positions mask). intros l.
      induction l as [|j l IHl]; [done|]. cbn. by rewrite IHl. }
    destruct b; cbn; by rewrite Hs.
Qed.

Lemma mask_select_fmap {A B} (f : A → B) mask (vs : list A) :
  mask_select mask (f <$> vs) = f <$> mask_select mask vs.
Proof.
  revert vs. induction mask as [|b mask IH]; intros [|v vs]; cbn; try done.
  destruct b; cbn; by rewrite IH.
Qed.

Lemma series_cells_mask mask s :
  series_cells (series_mask mask s) = mask_select mask (series_cells s).
Proof. destruct s; cbn; [done|]. by rewrite mask_select_fmap. Qed.

Lemma is_numeric_mask mask s : is_numeric (series_mask mask s) = is_numeric s.
Proof. by destruct s. Qed.

Lemma mask_and_true m1 m2 i :
  mask_and m1 m2 !! i = Some true ↔
  m1 !! i = Some true ∧ m2 !! i = Some true.
Proof.
  unfold mask_and. rewrite lookup_zip_with.
  destruct (m1 !! i) as [[]|], (m2 !! i) as [[]|]; cbn; naive_solver.
Qed.

Lemma isin_true s vals i :
  isin s vals !! i = Some true ↔
  ∃ c, series_cells s !! i = Some (PStr c) ∧ c ∈ vals.
Proof.
  unfold isin. rewrite list_lookup_fmap.
  destruct (series_cells s !! i) as [[c|x]|]; cbn;
    [|split; [done | intros (? & [=] & _)]..].
  split.
  - intros [= H]. apply bool_decide_eq_true in H. eauto.
  - intros (c' & [= ->] & H). by rewrite bool_decide_eq_true_2.
Qed.

Lemma eq_str_true s c i :
  eq_str s c !! i = Some true ↔ series_cells s !! i = Some (PStr c).
Proof.
  unfold eq_str. rewrite list_lookup_fmap.
  destruct (series_cells s !! i) as [[c'|x]|]; cbn; [|done..].
  split.
  - intros [= H]. apply bool_decide_eq_true in H. by subst.
  - intros [= ->]. by rewrite bool_decide_eq_true_2.
Qed.

Lemma eq_int_true s y i :
  eq_int s (Some y) !! i = Some true ↔
  ∃ x, series_cells s !! i = Some (PNum x)
       ∧ PrimFloat.eqb x (float_of_Z y) = true.
Proof.
  unfold eq_int. rewrite list_lookup_fmap.
  destruct (series_cells s !! i) as [[c|x]|]; cbn.
  - split; [done | intros (? & [=] & _)].
  - split; [intros [= H]; eauto | intros (? & [= <-] & H); by rewrite H].
  - split; [done | intros (? & [=] & _)].
Qed.

Lemma get_col_df_mask df mask name :
  get_col (df_mask df mask) name = series_mask mask <$> get_col df name.
Proof. apply (get_col_fmap (λ _, series_mask mask)). Qed.

Lemma columns_df_mask df mask : columns (df_mask df mask) = columns df.
Proof. unfold columns, df_mask. by rewrite <- list_fmap_compose. Qed.

(** ** The current-period subset *)

(** C6: the current-period subset keeps the columns of the table and holds
    exactly the rows, identified by their positions [ks] in the table, whose
    company is one of the chosen ones and whose fiscal year is equal to the
    chosen year; every column reads the kept rows in the order of the
    table, each once. *)
Theorem df_compare_exact_rows (df_raw : DataFrame)
    (selected_companies : list string) (selected_year : Z)
    (comp yr : Series) :
  get_col df_raw "企業名" = Some comp →
  get_col df_raw "決算年度" = Some yr →
  ∃ ks df_compare,
    df_compare_of df_raw selected_companies (Some selected_year)
      = Ok df_compare
    ∧ (∀ i, i ∈ ks ↔
         ∃ c x, series_cells comp !! i = Some (PStr c)
                ∧ c ∈ selected_companies
                ∧ series_cells yr !! i = Some (PNum x)
                ∧ PrimFloat.eqb x (float_of_Z selected_year) = true)
    ∧ StronglySorted lt ks
    ∧ columns df_compare = columns df_raw
    ∧ ∀ name s, get_col df_raw name = Some s →
        ∃ s', get_col df_compare name = Some s'
              ∧ is_numeric s' = is_numeric s
              ∧ series_cells s' = omap (λ i, series_cells s !! i) ks.
Proof.
  intros Hcomp Hyr.
  set (mask := mask_and (isin comp selected_companies)
                        (eq_int yr (Some selected_year))).
  exists (true_positions mask), (df_mask df_raw mask).
  split; [|split; [|split; [|split]]].
  - unfold df_compare_of, compare_mask, getitem. by rewrite Hcomp, Hyr.
  - intros i. rewrite true_positions_elem. unfold mask.
    rewrite mask_and_true, isin_true, eq_int_true. naive_solver.
  - apply true_positions_sorted.
  - apply columns_df_mask.
  - intros name s Hs. exists (series_mask mask s).
    rewrite get_col_df_mask, Hs. split; [done|].
    split; [apply is_numeric_mask|].
    by rewrite series_cells_mask, mask_select_positions.
Qed.

Lemma df_compare_exact_rows_witness :
  ∃ (ks : list nat) df_compare,
    df_compare_of abc_table ["A"; "B"] (Some 2020%Z) = Ok df_compare
    ∧ (3 ∈ ks ∧ 4 ∈ ks ∧ (5 ∉ ks) ∧ (0 ∉ ks))
    ∧ columns df_compare = columns abc_table.
Proof.
  destruct (df_compare_exact_rows abc_table ["A"; "B"] 2020 _ _
    eq_refl eq_refl) as (ks & dfc & Hdf & Hks & _ & Hcols & _).
  exists ks, dfc. split; [done|]. split; [|done].
  rewrite !Hks. cbn.
  split; [|split; [|split]].
  - exists "A", 2020%float.
    split; [reflexivity|]. split; [decide_closed|]. split; reflexivity.
  - exists "B", 2020%float.
    split; [reflexivity|]. split; [decide_closed|]. split; reflexivity.
  - intros (c & x & [= <-] & Hc & _). revert Hc. decide_closed.
  - intros (c & x & _ & _ & [= <-] & Hx). vm_compute in Hx. done.
Defined.

(** ** Sorting and first-appearance lists of names *)

#[global] Instance str_le_total : Total str_le.
Proof.
  intros a b. unfold str_le, String.leb.
  rewrite (String.compare_antisym b a).
  destruct (String.compare a b); cbn; auto.
Qed.


Lemma sorted_Permutation l : sorted l ≡ₚ l.
Proof. apply merge_sort_Permutation. Qed.

Lemma elem_of_sorted x l : x ∈ sorted l ↔ x ∈ l.
Proof. by rewrite sorted_Permutation. Qed.




Lemma texts_PStr names : texts (PStr <$> names) = Ok names.
Proof.
  unfold texts. induction names as [|n names IH]; cbn; [done|].
  fold (@fmap list _ _ _ PStr names). by rewrite IH.
Qed.


(** ** The default selection *)



(** ** Writing columns *)

Lemma get_col_set_col df n s n' :
  get_col (set_col df n s) n' =
    if decide (n = n') then Some s else get_col df n'.
Proof.
  induction df as [|[m t] df IH]; cbn; [done|].
  destruct (decide (m = n)) as [->|Hmn]; cbn.
  - destruct (decide (n = n')); done.
  - destruct (decide (m = n')) as [->|Hmn'].
    + by rewrite decide_False.
    + done.
Qed.

Lemma nrows_set_col df n s :
  df ≠ [] → series_len s = nrows df → nrows (set_col df n s) = nrows df.
Proof.
  destruct df as [|[m t] df]; [done|]. intros _ Hs. cbn.
  by destruct (decide (m = n)).
Qed.

Lemma set_col_not_nil df n s : set_col df n s ≠ [].
Proof. destruct df as [|[m t] df]; cbn; [done|]. by case_decide. Qed.

Lemma Forall_set_col (P : string * Series → Prop) df n s :
  Forall P df → P (n, s) → Forall P (set_col df n s).
Proof.
  intros Hdf Hs. induction Hdf as [|[m t] df Ht Hdf IH]; cbn.
  - by repeat constructor.
  - destruct (decide (m = n)) as [->|]; by constructor.
Qed.

Lemma wf_set_col df n s :
  wf_frame df → df ≠ [] → series_len s = nrows df →
  wf_frame (set_col df n s).
Proof.
  intros Hwf Hne Hs. unfold wf_frame. rewrite nrows_set_col by done.
  by apply Forall_set_col.
Qed.

Lemma wf_get_col df n s :
  wf_frame df → get_col df n = Some s → series_len s = nrows df.
Proof.
  intros Hwf Hget. apply get_col_Some_elem in Hget.
  unfold wf_frame in Hwf. rewrite Forall_forall in Hwf.
  by apply (Hwf (n, s)).
Qed.

Lemma get_col_not_nil df n s : get_col df n = Some s → df ≠ [].
Proof. by destruct df. Qed.

Lemma mask_select_length_eq {A B} mask (vs : list A) (ws : list B) :
  length vs = length ws →
  length (mask_select mask vs) = length (mask_select mask ws).
Proof.
  revert vs ws.
  induction mask as [|b mask IH]; intros [|v vs] [|w ws] Hlen; cbn in *;
    try done.
  destruct b; cbn; auto.
Qed.

Lemma series_len_mask_eq mask s t :
  series_len s = series_len t →
  series_len (series_mask mask s) = series_len (series_mask mask t).
Proof.
  unfold series_len. rewrite !series_cells_mask. apply mask_select_length_eq.
Qed.

Lemma wf_df_mask df mask : wf_frame df → wf_frame (df_mask df mask).
Proof.
  unfold wf_frame. intros Hwf.
  destruct df as [|[n s] df]; [constructor|].
  cbn [nrows df_mask fmap list_fmap fst snd] in *.
  apply Forall_cons in Hwf as [_ Hwf]. constructor; [done|].
  apply Forall_fmap. eapply Forall_impl; [exact Hwf|].
  intros [m t] Ht. cbn in *. by apply series_len_mask_eq.
Qed.

Lemma nrows_df_mask df mask s n :
  wf_frame df → get_col df n = Some s →
  nrows (df_mask df mask) = length (mask_select mask (series_cells s)).
Proof.
  intros Hwf Hget. rewrite <- series_cells_mask.
  apply (wf_get_col _ n) in Hget as Hlen; [|done].
  destruct df as [|[m t] df]; [done|]. cbn in *.
  apply series_len_mask_eq. by rewrite Hlen.
Qed.

Lemma lookup_mask_update {A} mask (v : A) old j :
  mask_update mask v old !! j =
    (b ← mask !! j; x ← old !! j; Some (if b : bool then v else x)).
Proof. unfold mask_update. apply lookup_zip_with. Qed.

Lemma length_mask_update {A} mask (v : A) old :
  length mask = length old → length (mask_update mask v old) = length old.
Proof. intros H. unfold mask_update. rewrite length_zip_with. lia. Qed.

Lemma loc_assign_spec df mask name v :
  wf_frame df → df ≠ [] → length mask = nrows df →
  wf_frame (loc_assign df mask name v)
  ∧ nrows (loc_assign df mask name v) = nrows df
  ∧ (∀ n', n' ≠ name →
       get_col (loc_assign df mask name v) n' = get_col df n')
  ∧ ∃ s', get_col (loc_assign df mask name v) name = Some s'
      ∧ ∀ j,
          (mask !! j = Some true → series_cells s' !! j = Some (PNum v))
          ∧ (mask !! j = Some false → ∀ x,
               (s ← get_col df name; series_cells s !! j) = Some x →
               series_cells s' !! j = Some x).
Proof.
  intros Hwf Hne Hlen.
  assert (∀ s' : Series,
    series_len s' = nrows df →
    wf_frame (set_col df name s')
    ∧ nrows (set_col df name s') = nrows df
    ∧ (∀ n', n' ≠ name → get_col (set_col df name s') n' = get_col df n')
    ∧ get_col (set_col df name s') name = Some s') as Hset.
  { intros s' Hs'. split; [by apply wf_set_col|].
    split; [by apply nrows_set_col|]. split.
    - intros n' Hn'. by rewrite get_col_set_col, decide_False.
    - by rewrite get_col_set_col, decide_True. }
  unfold loc_assign. destruct (get_col df name) as [[vs|vs]|] eqn:Hget.
  - pose proof (wf_get_col _ _ _ Hwf Hget) as Hvs. unfold series_len in Hvs.
    cbn in Hvs.
    destruct (Hset (ObjectSeries (mask_update mask (PNum v) vs)))
      as (H1 & H2 & H3 & H4).
    { unfold series_len. cbn. rewrite length_mask_update; lia. }
    split; [done|]. split; [done|]. split; [done|].
    eexists. split; [done|]. intros j. cbn. rewrite lookup_mask_update.
    split; intros Hj; rewrite Hj; cbn.
    + destruct (vs !! j) eqn:E; [done|].
      apply lookup_ge_None in E. apply lookup_lt_Some in Hj. lia.
    + intros x Hx. by rewrite Hx.
  - pose proof (wf_get_col _ _ _ Hwf Hget) as Hvs. unfold series_len in Hvs.
    cbn in Hvs. rewrite length_fmap in Hvs.
    destruct (Hset (NumSeries (mask_update mask v vs)))
      as (H1 & H2 & H3 & H4).
    { unfold series_len. cbn. rewrite length_fmap, length_mask_update; lia. }
    split; [done|]. split; [done|]. split; [done|].
    eexists. split; [done|]. intros j. cbn.
    rewrite !list_lookup_fmap, lookup_mask_update.
    split; intros Hj; rewrite Hj; cbn.
    + destruct (vs !! j) eqn:E; [done|].
      apply lookup_ge_None in E. apply lookup_lt_Some in Hj. lia.
    + intros x. destruct (vs !! j); cbn; done.
  - destruct (Hset (NumSeries
      (mask_update mask v (replicate (nrows df) PrimFloat.nan))))
      as (H1 & H2 & H3 & H4).
    { unfold series_len. cbn.
      rewrite length_fmap, length_mask_update; rewrite length_replicate; lia. }
    split; [done|]. split; [done|]. split; [done|].
    eexists. split; [done|]. intros j. cbn.
    rewrite !list_lookup_fmap, lookup_mask_update.
    split; intros Hj; rewrite Hj; cbn; [|done].
    apply lookup_lt_Some in Hj.
    rewrite lookup_replicate_2 by lia. done.
Qed.

(** ** Revenue growth index *)

Lemma eqb_zero_not_pos b :
  PrimFloat.eqb b 0 = true → PrimFloat.ltb 0 b = false.
Proof.
  rewrite FloatAxioms.eqb_spec, FloatAxioms.ltb_spec.
  change (Prim2SF 0) with (S754_zero false).
  destruct (Prim2SF b) as [[]|[]| |[] m e]; cbn; done.
Qed.

Lemma head_fmap_S (l : list nat) : head (S <$> l) = S <$> head l.
Proof. by destruct l. Qed.

Lemma head_mask_select {A} mask (vs : list A) :
  (length mask ≤ length vs)%nat →
  head (mask_select mask vs) = (i ← head (true_positions mask); vs !! i).
Proof.
  revert vs. induction mask as [|b mask IH]; intros vs Hlen; [done|].
  destruct vs as [|v vs]; cbn in Hlen; [lia|].
  destruct b; cbn; [done|].
  rewrite IH by lia. rewrite head_fmap_S.
  by destruct (head (true_positions mask)).
Qed.

Lemma head_sorted_le (l : list nat) j :
  StronglySorted lt l → j ∈ l → ∃ j0, head l = Some j0 ∧ (j0 ≤ j)%nat.
Proof.
  intros Hs Hj. destruct Hs as [|j0 l Hs Hall]; [by apply elem_of_nil in Hj|].
  exists j0. split; [done|].
  apply elem_of_cons in Hj as [->|Hj]; [lia|].
  rewrite Forall_forall in Hall. specialize (Hall j Hj). lia.
Qed.

Lemma length_eq_str s c : length (eq_str s c) = series_len s.
Proof. unfold eq_str. by rewrite length_fmap. Qed.

Lemma length_eq_int s y : length (eq_int s y) = series_len s.
Proof. unfold eq_int. by rewrite length_fmap. Qed.

Lemma length_isin s vals : length (isin s vals) = series_len s.
Proof. unfold isin. by rewrite length_fmap. Qed.

Lemma eq_str_other s c c' j :
  c' ≠ c → series_cells s !! j = Some (PStr c') →
  eq_str s c !! j = Some false.
Proof.
  intros Hne Hj. unfold eq_str. rewrite list_lookup_fmap, Hj. cbn.
  by rewrite bool_decide_eq_false_2.
Qed.

Lemma df_empty_mask df mask n s :
  wf_frame df → get_col df n = Some s →
  df_empty (df_mask df mask) =
    Nat.eqb (length (mask_select mask (series_cells s))) 0.
Proof.
  intros Hwf Hget. rewrite <- (nrows_df_mask df mask s n) by done.
  destruct df; done.
Qed.

Section Growth.
Variables (df_raw : DataFrame) (selected_year : Z).
Variables (comp yr : Series) (rev : list float).
Hypothesis raw_wf : wf_frame df_raw.
Hypothesis raw_comp : get_col df_raw "企業名" = Some comp.
Hypothesis raw_yr : get_col df_raw "決算年度" = Some yr.
Hypothesis raw_rev : get_col df_raw "売上高" = Some (NumSeries rev).
Variables (gcomp : Series) (grev : list float).

Local Abbreviation value := (growth_value comp yr rev gcomp grev selected_year).
Local Abbreviation growth_inv := (growth_frame gcomp grev).

Lemma raw_lengths :
  series_len comp = length rev ∧ series_len yr = length rev.
Proof.
  pose proof (wf_get_col _ _ _ raw_wf raw_comp) as H1.
  pose proof (wf_get_col _ _ _ raw_wf raw_yr) as H2.
  pose proof (wf_get_col _ _ _ raw_wf raw_rev) as H3.
  unfold series_len in H3 at 1. cbn in H3. rewrite length_fmap in H3. lia.
Qed.

Lemma growth_inv_lengths df_growth :
  growth_inv df_growth →
  series_len gcomp = nrows df_growth ∧ length grev = nrows df_growth.
Proof.
  intros (Hwf & Hc & Hr).
  pose proof (wf_get_col _ _ _ Hwf Hc) as H1.
  pose proof (wf_get_col _ _ _ Hwf Hr) as H3.
  unfold series_len in H3 at 1. cbn in H3. rewrite length_fmap in H3. lia.
Qed.

Lemma growth_assign df_growth company v :
  growth_inv df_growth →
  growth_inv (loc_assign df_growth (eq_str gcomp company) GROWTH v)
  ∧ (∀ j, series_cells gcomp !! j = Some (PStr company) →
       growth_cell (loc_assign df_growth (eq_str gcomp company) GROWTH v) j
         = Some (PNum v))
  ∧ (∀ j c', c' ≠ company → series_cells gcomp !! j = Some (PStr c') →
       ∀ x, growth_cell df_growth j = Some x →
       growth_cell (loc_assign df_growth (eq_str gcomp company) GROWTH v) j
         = Some x).
Proof.
  intros Hinv. pose proof (growth_inv_lengths _ Hinv) as [Hl1 Hl2].
  destruct Hinv as (Hwf & Hc & Hr).
  destruct (loc_assign_spec df_growth (eq_str gcomp company) GROWTH v)
    as (Hwf' & Hn' & Hother & s' & Hs' & Hcells);
    [done | by eapply get_col_not_nil | by rewrite length_eq_str |].
  split; [|split].
  - split; [done|]. by rewrite !Hother by (unfold GROWTH; intros [=]).
  - intros j Hj. unfold growth_cell. rewrite Hs'. cbn.
    destruct (Hcells j) as [Ht _]. apply Ht. by apply eq_str_true.
  - intros j c' Hne Hj x Hx. unfold growth_cell. rewrite Hs'. cbn.
    destruct (Hcells j) as [_ Hf].
    apply Hf; [by eapply eq_str_other | done].
Qed.

Lemma growth_step_spec df_growth company :
  growth_inv df_growth →
  ∃ df_growth',
    growth_step df_raw selected_year df_growth company = Ok df_growth'
    ∧ growth_inv df_growth'
    ∧ (∀ j, series_cells gcomp !! j = Some (PStr company) →
         growth_cell df_growth' j = Some (PNum (value company)))
    ∧ (∀ j c', c' ≠ company → series_cells gcomp !! j = Some (PStr c') →
         ∀ x, growth_cell df_growth j = Some x →
         growth_cell df_growth' j = Some x).
Proof.
  intros Hinv. pose proof (growth_inv_lengths _ Hinv) as [Hl1 Hl2].
  pose proof raw_lengths as [Hr1 Hr2].
  pose proof Hinv as (Hwf & Hc & Hr).
  unfold growth_step, getitem. rewrite raw_comp, raw_yr. cbn.
  set (bm := mask_and (eq_str comp company)
                      (eq_int yr (Some (selected_year - 5)%Z))).
  assert (Hbm : length bm = length rev).
  { unfold bm, mask_and.
    rewrite length_zip_with, length_eq_str, length_eq_int. lia. }
  assert (Hgm : length (eq_str gcomp company) = length grev)
    by (rewrite length_eq_str; lia).
  rewrite (df_empty_mask df_raw bm _ _ raw_wf raw_rev).
  rewrite get_col_df_mask, raw_rev, Hc. cbn.
  rewrite get_col_df_mask, Hr. cbn.
  rewrite mask_select_fmap, length_fmap.
  pose proof (head_mask_select bm rev ltac:(lia)) as Hbase.
  pose proof (head_mask_select (eq_str gcomp company) grev ltac:(lia))
    as Hcur.
  unfold value, growth_value, rows_of. fold bm.
  destruct (mask_select bm rev) as [|b bs] eqn:Ebase; cbn.
  - (* no base row *)
    destruct (growth_assign df_growth company 1 Hinv) as (H1 & H2 & H3).
    eexists. split; [done|]. split; [done|]. split; [|done].
    intros j Hj. rewrite (H2 j Hj). do 2 f_equal.
    cbn in Hbase. destruct (head (true_positions bm)) as [i|]; [|done].
    cbn in Hbase. by rewrite <- Hbase.
  - cbn in Hbase. destruct (head (true_positions bm)) as [i|]; [|done].
    cbn in Hbase. rewrite <- Hbase.
    destruct (PrimFloat.ltb 0 b) eqn:Hpos.
    + destruct (mask_select (eq_str gcomp company) grev) as [|c0 cs] eqn:Ecur;
        cbn.
      * (* the company has no row in the current subset *)
        exists df_growth. split; [done|]. split; [done|]. split; [|done].
        intros j Hj. exfalso.
        apply eq_str_true in Hj.
        apply true_positions_elem in Hj as Hin.
        destruct (head_sorted_le _ _ (true_positions_sorted _) Hin)
          as (j0 & Hj0 & Hle).
        rewrite Hj0 in Hcur. cbn in Hcur.
        apply lookup_lt_Some in Hj.
        destruct (lookup_lt_is_Some_2 grev j0 ltac:(lia)) as [x Hx].
        by rewrite Hx in Hcur.
      * cbn in Hcur.
        destruct (head (true_positions (eq_str gcomp company))) as [j0|];
          [|done].
        cbn in Hcur. rewrite <- Hcur.
        destruct (growth_assign df_growth company (PrimFloat.div c0 b) Hinv)
          as (H1 & H2 & H3).
        eexists. split; [done|]. split; [done|]. split; done.
    + destruct (growth_assign df_growth company 1 Hinv) as (H1 & H2 & H3).
      eexists. split; [done|]. split; [done|]. split; done.
Qed.

Lemma growth_loop_spec companies : ∀ df_growth,
  growth_inv df_growth →
  ∃ df_growth',
    growth_loop df_raw selected_year df_growth companies = Ok df_growth'
    ∧ growth_inv df_growth'
    ∧ (∀ j c, c ∈ companies → series_cells gcomp !! j = Some (PStr c) →
         growth_cell df_growth' j = Some (PNum (value c)))
    ∧ (∀ j c, c ∉ companies → series_cells gcomp !! j = Some (PStr c) →
         ∀ x, growth_cell df_growth j = Some x →
         growth_cell df_growth' j = Some x).
Proof.
  unfold growth_loop.
  induction companies as [|c0 companies IH]; intros df_growth Hinv; cbn.
  - exists df_growth. split; [done|]. split; [done|].
    split; [|done]. intros j c Hc. by apply elem_of_nil in Hc.
  - destruct (growth_step_spec df_growth c0 Hinv)
      as (df1 & Hstep & Hinv1 & Hset1 & Hkeep1).
    rewrite Hstep. cbn.
    destruct (IH df1 Hinv1) as (df' & Hloop & Hinv' & Hset' & Hkeep').
    exists df'. split; [done|]. split; [done|]. split.
    + intros j c Hc Hj.
      destruct (decide (c ∈ companies)) as [Hin|Hnin]; [by apply Hset'|].
      apply elem_of_cons in Hc as [->|Hc]; [|done].
      apply (Hkeep' j c0 Hnin Hj). by apply Hset1.
    + intros j c Hc Hj x Hx. apply not_elem_of_cons in Hc as [Hne Hnin].
      apply (Hkeep' j c Hnin Hj). by apply (Hkeep1 j c Hne Hj).
Qed.
End Growth.

Lemma rows_of_elem comp yr company year i :
  i ∈ rows_of comp yr company year ↔
  series_cells comp !! i = Some (PStr company)
  ∧ ∃ x, series_cells yr !! i = Some (PNum x)
         ∧ PrimFloat.eqb x (float_of_Z year) = true.
Proof.
  unfold rows_of.
  by rewrite true_positions_elem, mask_and_true, eq_str_true, eq_int_true.
Qed.

Lemma mask_select_lookup_inv {A} mask (vs : list A) j v :
  mask_select mask vs !! j = Some v →
  ∃ i, mask !! i = Some true ∧ vs !! i = Some v.
Proof.
  rewrite mask_select_positions. intros Hj.
  apply list_elem_of_lookup_2, list_elem_of_omap in Hj as (i & Hi & Hv).
  apply true_positions_elem in Hi. eauto.
Qed.

(** C2: for every row of the current-period subset, with [c] its company:
    the base row is the first row of [c] in the table whose fiscal year is
    the selected year minus 5.  When it exists and its revenue [b] is
    greater than 0, the growth index of the row is [cur / b], where [cur] is
    the revenue of the first row of [c] in the subset (the row itself when
    the company has one row in the year); when the base revenue is 0, or
    not greater than 0, and when no base row exists, the index is 1.0. *)
Theorem growth_index_by_base_year (df_raw : DataFrame)
    (selected_companies : list string) (selected_year : Z)
    (comp yr : Series) (rev : list float) :
  wf_frame df_raw →
  get_col df_raw "企業名" = Some comp →
  get_col df_raw "決算年度" = Some yr →
  get_col df_raw "売上高" = Some (NumSeries rev) →
  ∃ df_compare df_shown df_growth gcomp grev,
    df_compare_of df_raw selected_companies (Some selected_year)
      = Ok df_compare
    ∧ with_display_names df_compare = Ok df_shown
    ∧ growth_loop df_raw selected_year df_shown selected_companies
        = Ok df_growth
    ∧ get_col df_compare "企業名" = Some gcomp
    ∧ get_col df_compare "売上高" = Some (NumSeries grev)
    ∧ ∀ j c, series_cells gcomp !! j = Some (PStr c) →
        c ∈ selected_companies
        ∧ (∀ i, i ∈ rows_of comp yr c (selected_year - 5) ↔
             series_cells comp !! i = Some (PStr c)
             ∧ ∃ x, series_cells yr !! i = Some (PNum x)
                 ∧ PrimFloat.eqb x (float_of_Z (selected_year - 5)) = true)
        ∧ ∃ j0 cur,
            head (true_positions (eq_str gcomp c)) = Some j0
            ∧ (j0 ≤ j)%nat
            ∧ grev !! j0 = Some cur
            ∧ match head (rows_of comp yr c (selected_year - 5)) with
              | Some i =>
                  ∃ b, rev !! i = Some b
                    ∧ (PrimFloat.ltb 0 b = true →
                         growth_cell df_growth j =
                           Some (PNum (PrimFloat.div cur b)))
                    ∧ (PrimFloat.eqb b 0 = true →
                         growth_cell df_growth j = Some (PNum 1))
                    ∧ (PrimFloat.ltb 0 b = false →
                         growth_cell df_growth j = Some (PNum 1))
              | None => growth_cell df_growth j = Some (PNum 1)
              end.
Proof.
  intros Hwf Hcomp Hyr Hrev.
  set (mask := mask_and (isin comp selected_companies)
                        (eq_int yr (Some selected_year))).
  set (dfc := df_mask df_raw mask).
  set (gcomp := series_mask mask comp).
  set (grev := mask_select mask rev).
  set (dfd := set_col dfc "企業名_表示"
                (ObjectSeries (display_obj <$> series_cells gcomp))).
  assert (Hgc : get_col dfc "企業名" = Some gcomp)
    by (unfold dfc; by rewrite get_col_df_mask, Hcomp).
  assert (Hgr : get_col dfc "売上高" = Some (NumSeries grev))
    by (unfold dfc; by rewrite get_col_df_mask, Hrev).
  assert (Hwfc : wf_frame dfc) by by apply wf_df_mask.
  assert (Hinv : growth_frame gcomp grev dfd).
  { split; [|split].
    - apply wf_set_col; [done | by eapply get_col_not_nil |].
      unfold series_len at 1. cbn. rewrite length_fmap.
      by apply (wf_get_col _ "企業名").
    - unfold dfd. by rewrite get_col_set_col, decide_False.
    - unfold dfd. by rewrite get_col_set_col, decide_False. }
  destruct (growth_loop_spec df_raw selected_year comp yr rev
    Hwf Hcomp Hyr Hrev gcomp grev selected_companies dfd Hinv)
    as (dfg & Hloop & Hinv' & Hset & _).
  exists dfc, dfd, dfg, gcomp, grev.
  split; [unfold df_compare_of, compare_mask, getitem;
          by rewrite Hcomp, Hyr|].
  split; [unfold with_display_names, getitem; by rewrite Hgc|].
  split; [done|]. split; [done|]. split; [done|].
  intros j c Hj.
  assert (Hsel : c ∈ selected_companies).
  { unfold gcomp in Hj. rewrite series_cells_mask in Hj.
    apply mask_select_lookup_inv in Hj as (i & Hm & Hi).
    unfold mask in Hm. apply mask_and_true in Hm as [Hm _].
    apply isin_true in Hm as (c' & Hc' & Hin). congruence. }
  split; [done|]. split; [intros i; apply rows_of_elem|].
  pose proof (Hset j c Hsel Hj) as Hcell.
  pose proof (growth_inv_lengths gcomp grev dfd Hinv) as [Hl1 Hl2].
  assert (Hpos : j ∈ true_positions (eq_str gcomp c))
    by by apply true_positions_elem, eq_str_true.
  destruct (head_sorted_le _ _ (true_positions_sorted _) Hpos)
    as (j0 & Hj0 & Hle).
  apply lookup_lt_Some in Hj as Hjlt. fold (series_len gcomp) in Hjlt.
  destruct (lookup_lt_is_Some_2 grev j0 ltac:(lia)) as [cur Hcur].
  exists j0, cur. split; [done|]. split; [done|]. split; [done|].
  unfold growth_value in Hcell. rewrite Hj0, Hcur in Hcell.
  destruct (head (rows_of comp yr c (selected_year - 5))) as [i|] eqn:Hi;
    [|done].
  assert (i ∈ rows_of comp yr c (selected_year - 5)) as Hin
    by (destruct (rows_of comp yr c (selected_year - 5)); simplify_eq/=; left).
  apply rows_of_elem in Hin as [Hic _].
  apply lookup_lt_Some in Hic. fold (series_len comp) in Hic.
  pose proof (raw_lengths df_raw comp yr rev Hwf Hcomp Hyr Hrev) as [Hr1 _].
  destruct (lookup_lt_is_Some_2 rev i ltac:(lia)) as [b Hb].
  rewrite Hb in Hcell. exists b. split; [done|].
  split; [|split].
  - intros Hp. by rewrite Hp in Hcell.
  - intros Hz. by rewrite (eqb_zero_not_pos _ Hz) in Hcell.
  - intros Hp. by rewrite Hp in Hcell.
Qed.

Lemma growth_index_by_base_year_witness :
  wf_frame growth_table
  ∧ ∃ df_growth,
      (df_compare ←r df_compare_of growth_table ["A"; "B"; "C"] (Some 2020%Z);
       df_shown ←r with_display_names df_compare;
       growth_loop growth_table 2020 df_shown ["A"; "B"; "C"]) = Ok df_growth
      ∧ growth_cell df_growth 0 = Some (PNum 1.5)
      ∧ growth_cell df_growth 1 = Some (PNum 1)
      ∧ growth_cell df_growth 2 = Some (PNum 1).
Proof.
  assert (Hwf : wf_frame growth_table) by decide_closed.
  split; [done|].
  destruct (growth_index_by_base_year growth_table ["A"; "B"; "C"] 2020
    _ _ _ Hwf eq_refl eq_refl eq_refl)
    as (dfc & dfd & dfg & gcomp & grev & Hdf & Hshown & Hloop & Hgc & Hgr & H).
  exists dfg. split; [by rewrite Hdf; cbn; rewrite Hshown|].
  vm_compute in Hdf. injection Hdf as <-.
  vm_compute in Hgc. injection Hgc as <-.
  vm_compute in Hgr. injection Hgr as <-.
  split; [|split].
  - destruct (H 0 "A" eq_refl) as (_ & _ & j0 & cur & Hj0 & _ & Hcur & Hv).
    vm_compute in Hj0. injection Hj0 as <-.
    vm_compute in Hcur. injection Hcur as <-.
    vm_compute in Hv. destruct Hv as (b & [= <-] & Hpos & _).
    by apply Hpos.
  - destruct (H 1 "B" eq_refl) as (_ & _ & j0 & cur & _ & _ & _ & Hv).
    vm_compute in Hv. done.
  - destruct (H 2 "C" eq_refl) as (_ & _ & j0 & cur & _ & _ & _ & Hv).
    vm_compute in Hv. destruct Hv as (b & [= <-] & _ & Hzero & _).
    by apply Hzero.
Defined.

(** ** Metric tables and chart series *)

Lemma has_col_true df c : has_col df c = true ↔ c ∈ columns df.
Proof. unfold has_col. apply bool_decide_eq_true. Qed.

Lemma present_columns_elem df cols c :
  c ∈ present_columns df cols ↔ c ∈ cols ∧ c ∈ columns df.
Proof.
  unfold present_columns.
  by rewrite list_elem_of_In, List.filter_In, <- list_elem_of_In, has_col_true.
Qed.

Lemma select_columns_ok df names :
  (∀ c, c ∈ names → c ∈ columns df) →
  ∃ t, select_columns df names = Ok t
    ∧ columns t = names
    ∧ ∀ c s, get_col t c = Some s → get_col df c = Some s.
Proof.
  induction names as [|n names IH]; intros Hall; cbn.
  - exists []. by repeat split.
  - destruct IH as (t & Ht & Hcols & Hget);
      [intros c Hc; apply Hall; by right|].
    unfold getitem. destruct (get_col df n) as [s|] eqn:Hn.
    + cbn. rewrite Ht. cbn. exists ((n, s) :: t).
      split; [done|]. split; [by rewrite <- Hcols|].
      intros c s'. cbn. case_decide; [by intros; simplify_eq | apply Hget].
    + apply get_col_None in Hn. exfalso. apply Hn, Hall. by left.
Qed.

(** C1 (as the tabs have it): a table built through the column filter
    (valuation, KPI download, balance sheet, cash flow, productivity, and
    the KPI table with its label column) never raises and shows exactly the
    requested columns that the table has, in the requested order, with the
    table's own values; a chart panel that reads through [safe_get_values]
    is drawn for every requested metric, and for a metric whose column is
    missing it holds the default 0 once per row. *)
Theorem metrics_requested_and_present (df : DataFrame) :
  (∀ cols, ∃ t,
     present_table df cols = Ok t
     ∧ columns t = List.filter (has_col df) cols
     ∧ (∀ c, c ∈ columns t ↔ c ∈ cols ∧ c ∈ columns df)
     ∧ ∀ c s, get_col t c = Some s → get_col df c = Some s)
  ∧ (has_col df LABEL = true →
     ∃ r, kpi_table df = Ok r
       ∧ match r with
         | None => ∀ m, m ∈ kpi_metrics → m ∉ columns df
         | Some t => columns t = LABEL :: List.filter (has_col df) kpi_metrics
         end)
  ∧ (∀ requested,
     (chart_panels df requested).*1 = requested
     ∧ ∀ m, m ∈ requested → m ∉ columns df →
         (m, replicate (nrows df) (PNum 0)) ∈ chart_panels df requested).
Proof.
  split; [|split].
  - intros cols.
    destruct (select_columns_ok df (present_columns df cols))
      as (t & Ht & Hcols & Hget).
    { intros c Hc. by apply present_columns_elem in Hc as [_ ?]. }
    exists t. split; [done|]. split; [done|]. split; [|done].
    intros c. rewrite Hcols. apply present_columns_elem.
  - intros Hlabel. unfold kpi_table.
    destruct (present_columns df kpi_metrics) as [|m ms] eqn:E.
    + exists None. split; [done|]. intros m Hm Hin.
      assert (m ∈ present_columns df kpi_metrics) as Hp
        by by apply present_columns_elem.
      rewrite E in Hp. by apply elem_of_nil in Hp.
    + destruct (select_columns_ok df (LABEL :: m :: ms))
        as (t & Ht & Hcols & _).
      { intros c [->|Hc]%elem_of_cons; [by apply has_col_true|].
        rewrite <- E in Hc. by apply present_columns_elem in Hc as [_ ?]. }
      exists (Some t). rewrite Ht. split; [done|].
      by rewrite Hcols, <- E.
  - intros requested. unfold chart_panels. split.
    + rewrite <- list_fmap_compose. apply list_fmap_id.
    + intros m Hm Hno. apply list_elem_of_fmap. exists m. split; [|done].
      unfold safe_get_values, has_col.
      by rewrite (bool_decide_eq_false_2 _ Hno).
Qed.

Lemma metrics_requested_and_present_witness :
  has_col no_roic_table LABEL = true
  ∧ ∃ r, kpi_table no_roic_table = Ok r
      ∧ match r with
        | None => ∀ m, m ∈ kpi_metrics → m ∉ columns no_roic_table
        | Some t =>
            columns t = LABEL :: List.filter (has_col no_roic_table) kpi_metrics
        end.
Proof.
  split; [reflexivity|].
  by apply (metrics_requested_and_present no_roic_table).
Defined.

(** C1, the claim as worded fails: the profitability chart of a table with
    no ROIC column still draws the ROIC panel, filled with zeros, so the
    metrics drawn are not the requested metrics that the table has. *)
Lemma kpi_chart_draws_missing_metric :
  has_col no_roic_table "ROIC" = false
  ∧ chart_panels no_roic_table kpi_chart_metrics =
      [ ("ROIC", [PNum 0; PNum 0]); ("実質ROE", [PNum 0; PNum 0]);
        ("ROA", [PNum 3; PNum 4]); ("ROE", [PNum 5; PNum 6]) ]
  ∧ (chart_panels no_roic_table kpi_chart_metrics).*1
      ≠ present_columns no_roic_table kpi_chart_metrics.
Proof. split; [|split]; vm_compute; [reflexivity..|discriminate]. Qed.

(** The comparison table of the first tab takes its columns unfiltered and
    raises on a missing one. *)
Lemma pl_table_missing_column_raises :
  pl_table no_roic_table = Raise (KeyError "売上高").
Proof. reflexivity. Qed.

(** ** The store: what a render cycle can touch *)

Lemma keeps_ret {A} h0 (a : A) (Q : A → Prop) : Q a → keeps h0 (ret a) Q.
Proof. intros HQ st Hst. by split. Qed.

Lemma keeps_bind {A B} h0 (m : M A) (k : A → M B) Q R :
  keeps h0 m Q → (∀ a, Q a → keeps h0 (k a) R) → keeps h0 (bind m k) R.
Proof.
  intros Hm Hk st Hst. unfold bind.
  destruct (Hm st Hst) as [Hpre HQ].
  destruct (m st) as [[a|e] st']; cbn in *; [|done].
  by apply Hk.
Qed.

Lemma keeps_weaken {A} h0 (m : M A) (Q Q' : A → Prop) :
  keeps h0 m Q → (∀ a, Q a → Q' a) → keeps h0 m Q'.
Proof.
  intros Hm HQ st Hst. destruct (Hm st Hst) as [Hpre Ha].
  split; [done|]. destruct (m st).1; auto.
Qed.

Lemma keeps_lift {A} h0 (r : result A) : keeps h0 (lift r) any.
Proof. intros st Hst. split; [done|]. cbn. by destruct r. Qed.

Lemma keeps_emit h0 e : keeps h0 (emit e) any.
Proof. intros st Hst. by split. Qed.

Lemma keeps_deref h0 r : keeps h0 (deref r) any.
Proof.
  intros st Hst. unfold deref. destruct (heap st !! r); by split.
Qed.

Lemma keeps_alloc h0 df : keeps h0 (alloc df) (fresh h0).
Proof.
  intros st Hst. cbn. split; [by apply prefix_app_r|].
  unfold fresh. by apply prefix_length.
Qed.

Lemma keeps_update h0 r f : fresh h0 r → keeps h0 (update r f) any.
Proof.
  intros Hr st [k Hk]. cbn. split; [|done].
  rewrite Hk. unfold fresh in Hr.
  rewrite alter_app_r_alt by done. by apply prefix_app_r.
Qed.

Lemma keeps_for_each {B} h0 (l : list B) (body : B → M unit) :
  (∀ x, keeps h0 (body x) any) → keeps h0 (for_each l body) any.
Proof.
  intros Hbody. induction l as [|x l IH]; cbn.
  - by apply keeps_ret.
  - eapply keeps_bind; [apply Hbody | by intros].
Qed.

Lemma keeps_any {A} h0 (m : M A) Q : keeps h0 m Q → keeps h0 m any.
Proof. intros Hm. by eapply keeps_weaken. Qed.

(** One step of a proof that a script keeps the old tables: split a
    sequence, or close a primitive step. *)
Ltac keeps_step :=
  lazymatch goal with
  | |- keeps _ (bind (alloc _) _) _ =>
      eapply keeps_bind; [apply keeps_alloc | intros ? ?]
  | |- keeps _ (bind (deref _) _) _ =>
      eapply keeps_bind; [apply keeps_deref | intros ? _]
  | |- keeps _ (bind (lift _) _) _ =>
      eapply keeps_bind; [apply keeps_lift | intros ? _]
  | |- keeps _ (bind (emit _) _) _ =>
      eapply keeps_bind; [apply keeps_emit | intros ? _]
  | |- keeps _ (bind (update _ _) _) _ =>
      eapply keeps_bind; [by apply keeps_update | intros ? _]
  | |- keeps _ (bind (assign_numbers _ _ _) _) _ =>
      eapply keeps_bind; [by apply keeps_update | intros ? _]
  | |- keeps _ (bind _ _) _ =>
      eapply (keeps_bind _ _ _ any); [|intros ? _]
  | |- keeps _ (for_each _ _) _ => apply keeps_for_each; intros ?
  | |- keeps _ (ret _) _ => by apply keeps_ret
  | |- keeps _ (lift _) _ => apply keeps_lift
  | |- keeps _ (emit _) _ => apply keeps_emit
  | |- keeps _ (update _ _) _ => by apply keeps_update
  | |- keeps _ (assign_numbers _ _ _) _ => by apply keeps_update
  | |- keeps _ (match ?x with _ => _ end) _ => destruct x
  end.

Ltac keeps_steps := repeat keeps_step.

Lemma keeps_show_table h0 title file_name df :
  keeps h0 (show_table title file_name df) any.
Proof. unfold show_table. keeps_steps. Qed.

Section RenderKeeps.
Variable round_to : nat → float → float.
Variable h0 : list DataFrame.

Lemma keeps_summary_card df_compare company :
  keeps h0 (summary_card df_compare company) any.
Proof. unfold summary_card. keeps_steps. Qed.

Lemma keeps_tab_pl raw df_compare selected_companies selected_year :
  keeps h0 (tab_pl raw df_compare selected_companies selected_year) any.
Proof. unfold tab_pl, show_gradient_table. keeps_steps. Qed.

Lemma keeps_tab_structure df_compare :
  keeps h0 (tab_structure round_to df_compare) any.
Proof. unfold tab_structure, show_gradient_table. keeps_steps. Qed.

Lemma keeps_tab_bs df_compare : keeps h0 (tab_bs round_to df_compare) any.
Proof. unfold tab_bs, show_table. keeps_steps. Qed.

Lemma keeps_tab_cf df_compare : keeps h0 (tab_cf df_compare) any.
Proof. unfold tab_cf, show_table. keeps_steps. Qed.

Lemma keeps_tab_prod df_compare : keeps h0 (tab_prod round_to df_compare) any.
Proof. unfold tab_prod, show_table. keeps_steps. Qed.

Lemma keeps_trend_section df_trend selected_companies :
  keeps h0 (trend_section df_trend selected_companies) any.
Proof. unfold trend_section, trend_lines. keeps_steps. Qed.

Lemma keeps_render_tabs raw df_compare df_trend selected_companies
    selected_year :
  fresh h0 df_compare →
  keeps h0 (render_tabs round_to raw df_compare df_trend selected_companies
              selected_year) any.
Proof.
  intros Hfresh. unfold render_tabs. keeps_steps;
    auto using keeps_summary_card, keeps_tab_pl, keeps_tab_structure,
      keeps_tab_bs, keeps_tab_cf, keeps_tab_prod, keeps_trend_section.
Qed.

Lemma keeps_dashboard raw w : keeps h0 (dashboard round_to raw w) any.
Proof.
  unfold dashboard. keeps_steps. by apply keeps_render_tabs.
Qed.

Lemma keeps_script raw w : keeps h0 (script round_to raw w) any.
Proof. unfold script. keeps_steps. apply keeps_dashboard. Qed.
End RenderKeeps.

(** C10: a render cycle, whether it runs to its end or stops on an
    exception, leaves the loaded table and every table that existed before
    it exactly as they were; what it writes to are tables that it created
    itself in the cycle. *)
Theorem render_cycle_keeps_loaded_table
    (round_to : nat → float → float) (raw : ref) (w : Widgets) (st : state)
    (df_raw : DataFrame) :
  heap st !! raw = Some df_raw →
  heap (script round_to (Some raw) w st).2 !! raw = Some df_raw
  ∧ heap st `prefix_of` heap (script round_to (Some raw) w st).2.
Proof.
  intros Hraw.
  destruct (keeps_script round_to (heap st) (Some raw) w st) as [Hpre _];
    [done|].
  split; [|done]. by eapply prefix_lookup_Some.
Qed.

Lemma render_cycle_keeps_loaded_table_witness :
  (script no_rounding (Some 0) full_widgets (start_state full_table)).1 = Ok ()
  ∧ heap (script no_rounding (Some 0) full_widgets (start_state full_table)).2
      !! 0 = Some full_table.
Proof.
  split; [vm_compute; reflexivity|].
  by apply (render_cycle_keeps_loaded_table no_rounding 0 full_widgets
              (start_state full_table) full_table).
Defined.

(** ** The two advisories *)

Section Advisories.
Variable round_to : nat → float → float.
Variables (raw : ref) (w : Widgets) (st : state) (df_raw : DataFrame).
Variables (available preset : list string) (years : list Z).
Hypothesis raw_table : heap st !! raw = Some df_raw.
Hypothesis names_ok : available_data_names df_raw = Ok available.
Hypothesis preset_ok :
  default_display_names available (industry_choice w) = Ok preset.
Hypothesis years_ok : available_years df_raw = Ok years.

Local Abbreviation selected_companies :=
  (get_data_names (selected_display_names w)).
Local Abbreviation selected_year := (selectbox years (year_choice w)).

(** No company chosen: the first advisory, between the title and the
    footer, and no table is created. *)
Lemma empty_selection_advisory :
  selected_display_names w = [] →
  script round_to (Some raw) w st =
    (Ok (), {| heap := heap st;
               out := (out st ++ [Title; Warning WARN_NO_COMPANY; Footer])%list |}).
Proof.
  intros Hsel. unfold script, dashboard, bind, emit, deref, lift. cbn.
  rewrite raw_table, names_ok, preset_ok, years_ok, Hsel. cbn.
  by rewrite <- !app_assoc.
Qed.

(** Companies chosen, no row of theirs in the chosen year, trend display
    off: the current-period subset is created, empty, and the second
    advisory is shown. *)
Lemma no_matching_rows_advisory mask :
  selected_companies ≠ [] →
  show_trend w = false →
  compare_mask df_raw selected_companies selected_year = Ok mask →
  df_empty (df_mask df_raw mask) = true →
  script round_to (Some raw) w st =
    (Ok (), {| heap := (heap st ++ [df_mask df_raw mask])%list;
               out := (out st ++ [Title; Warning WARN_NO_DATA; Footer])%list |}).
Proof.
  intros Hsel Htrend Hmask Hempty.
  unfold script, dashboard, bind, emit, deref, lift, alloc, ret. cbn.
  rewrite raw_table, names_ok, preset_ok, years_ok. cbn.
  destruct selected_companies as [|c cs] eqn:Hc; [done|].
  cbn. rewrite raw_table. cbn. rewrite Hmask, Htrend. cbn.
  rewrite list_lookup_middle by done. rewrite Hempty. cbn.
  by rewrite <- !app_assoc.
Qed.

(** The same with the trend display on and a fiscal year chosen: the trend
    subset is created as well. *)
Lemma no_matching_rows_advisory_trend mask y trend :
  selected_companies ≠ [] →
  show_trend w = true →
  selected_year = Some y →
  compare_mask df_raw selected_companies (Some y) = Ok mask →
  trend_mask df_raw selected_companies (y - 4) y = Ok trend →
  df_empty (df_mask df_raw mask) = true →
  script round_to (Some raw) w st =
    (Ok (), {| heap := (heap st ++ [df_mask df_raw mask;
                                    df_mask df_raw trend])%list;
               out := (out st ++ [Title; Warning WARN_NO_DATA; Footer])%list |}).
Proof.
  intros Hsel Htrend Hyear Hmask Htmask Hempty.
  unfold script, dashboard, bind, emit, deref, lift, alloc, ret. cbn.
  rewrite raw_table, names_ok, preset_ok, years_ok. cbn.
  destruct selected_companies as [|c cs] eqn:Hc; [done|].
  cbn. rewrite raw_table, Hyear. cbn. rewrite Hmask, Htrend. cbn.
  rewrite (lookup_app_l_Some _ _ _ _ raw_table). cbn.
  rewrite Htmask. cbn.
  rewrite <- app_assoc. cbn.
  rewrite (list_lookup_middle (heap st) _ _ (length (heap st))) by done.
  rewrite Hempty. cbn.
  by rewrite <- !app_assoc.
Qed.
End Advisories.

(** C8: a table whose fiscal-year cells are all empty offers no year to
    select; with a company chosen and the trend display switched on, the
    current-period subset is empty, but [selected_year - 4] raises before
    the second advisory is reached: the cycle stops on the exception with
    nothing but the title on screen. *)
Theorem yearless_trend_cycle_raises (round_to : nat → float → float) :
  available_years yearless_table = Ok []
  ∧ selectbox ([] : list Z) (year_choice trend_widgets) = None
  ∧ get_data_names (selected_display_names trend_widgets) = ["A"]
  ∧ (d ←r df_compare_of yearless_table ["A"] None; Ok (df_empty d)) = Ok true
  ∧ script round_to (Some 0) trend_widgets (start_state yearless_table) =
      (Raise TypeError,
       {| heap := [yearless_table; df_mask yearless_table [false; false]];
          out := [Title] |}).
Proof. repeat split; vm_compute; reflexivity. Qed.

(* ================================================================== *)
(** * Further properties of the code *)

(** ** Results of list traversals *)

Lemma rmap_Forall2 {A B} (f : A → result B) (P : A → B → Prop) l :
  (∀ x, x ∈ l → ∃ y, f x = Ok y ∧ P x y) →
  ∃ ys, rmap f l = Ok ys ∧ Forall2 P l ys.
Proof.
  induction l as [|x l IH]; intros Hall; cbn.
  - exists []. by split.
  - destruct (Hall x) as (y & Hy & HP); [by left|]. rewrite Hy. cbn.
    destruct IH as (ys & Hys & HF); [intros z Hz; apply Hall; by right|].
    rewrite Hys. cbn. exists (y :: ys). split; [done | by constructor].
Qed.

(** ** Company colours *)

Lemma color_entry_Ok d i c :
  ∃ color, COLORS_primary !! (i `mod` 7)%nat = Some color
    ∧ color_entry d (i, c) = Ok (<[c := color]> d).
Proof.
  unfold color_entry. cbn [fst snd].
  change (length COLORS_primary) with 7%nat.
  destruct (lookup_lt_is_Some_2 COLORS_primary (i `mod` 7)%nat) as [color Hc].
  { change (length COLORS_primary) with 7%nat. apply Nat.mod_upper_bound. lia. }
  exists color. by rewrite Hc.
Qed.

Lemma last_occurrence (c : string) (l : list string) :
  c ∈ l → ∃ j, l !! j = Some c ∧ ∀ j', (j < j')%nat → l !! j' ≠ Some c.
Proof.
  induction l as [|x l IH]; intros Hc; [by apply elem_of_nil in Hc|].
  destruct (decide (c ∈ l)) as [Hin|Hnin].
  - destruct (IH Hin) as (j & Hj & Hlast). exists (S j). split; [done|].
    intros [|j'] Hlt; [lia|]. cbn. apply Hlast. lia.
  - apply elem_of_cons in Hc as [->|Hc]; [|done]. exists 0%nat.
    split; [done|]. intros [|j'] Hlt; [lia|]. cbn. intros Hj'.
    apply Hnin. by eapply list_elem_of_lookup_2.
Qed.

Lemma colors_fold companies : ∀ k d,
  ∃ d', rfoldl color_entry d (imap (λ i, pair (k + i)%nat) companies) = Ok d'
    ∧ (∀ c, c ∉ companies → d' !! c = d !! c)
    ∧ (∀ j c, companies !! j = Some c →
         (∀ j', (j < j')%nat → companies !! j' ≠ Some c) →
         d' !! c = COLORS_primary !! ((k + j) `mod` 7)%nat).
Proof.
  induction companies as [|x companies IH]; intros k d; cbn.
  - exists d. split; [done|]. split; [done|]. intros j c Hj. done.
  - destruct (color_entry_Ok d (k + 0) x) as (color & Hcolor & ->). cbn.
    destruct (IH (S k) (<[x := color]> d)) as (d' & Hd' & Hout & Hin).
    exists d'. split.
    { rewrite <- Hd'. f_equal. apply imap_ext. intros i y _. cbn.
      f_equal. lia. }
    split.
    + intros c [Hne Hnin]%not_elem_of_cons.
      rewrite (Hout c Hnin). by rewrite lookup_insert_ne.
    + intros [|j] c Hj Hlast; cbn in Hj.
      * injection Hj as ->.
        rewrite Hout, lookup_insert_eq; [done|].
        intros Hc. apply list_elem_of_lookup_1 in Hc as [j' Hj'].
        apply (Hlast (S j')); [lia | done].
      * replace (k + S j)%nat with (S k + j)%nat by lia.
        apply Hin; [done|]. intros j' Hlt. apply (Hlast (S j')). lia.
Qed.

Lemma get_company_colors_spec companies :
  ∃ d, get_company_colors companies = Ok d
    ∧ (∀ c, c ∉ companies → d !! c = None)
    ∧ (∀ j c, companies !! j = Some c →
         (∀ j', (j < j')%nat → companies !! j' ≠ Some c) →
         d !! c = COLORS_primary !! (j `mod` 7)%nat).
Proof.
  destruct (colors_fold companies 0 ∅) as (d & Hd & Hout & Hin).
  exists d. split; [done|]. split; [|done].
  intros c Hc. by rewrite Hout, lookup_empty.
Qed.

Lemma company_colors_member companies d c :
  get_company_colors companies = Ok d → c ∈ companies →
  ∃ color, d !! c = Some color ∧ color ∈ COLORS_primary.
Proof.
  intros Hd Hc.
  destruct (get_company_colors_spec companies) as (d' & Hd' & _ & Hin).
  rewrite Hd in Hd'. injection Hd' as <-.
  destruct (last_occurrence c companies Hc) as (j & Hj & Hlast).
  destruct (lookup_lt_is_Some_2 COLORS_primary (j `mod` 7)%nat) as [color Hcolor].
  { change (length COLORS_primary) with 7%nat. apply Nat.mod_upper_bound. lia. }
  exists color. split; [by rewrite (Hin j c Hj Hlast)|].
  by eapply list_elem_of_lookup_2.
Qed.

(** X1: [get_company_colors] never raises; exactly the listed companies
    get a colour, each colour is one of the seven of the palette, and the
    colour of a company is the palette entry at the position of its last
    occurrence in the list, counted modulo 7. *)
Theorem company_colors_by_position (companies : list string) :
  ∃ d, get_company_colors companies = Ok d
    ∧ (∀ c, c ∈ companies ↔ is_Some (d !! c))
    ∧ (∀ c color, d !! c = Some color → color ∈ COLORS_primary)
    ∧ (∀ j c, companies !! j = Some c →
         (∀ j', (j < j')%nat → companies !! j' ≠ Some c) →
         d !! c = COLORS_primary !! (j `mod` 7)%nat).
Proof.
  destruct (get_company_colors_spec companies) as (d & Hd & Hout & Hin).
  exists d. split; [done|]. split; [|split; [|done]].
  - intros c. split.
    + intros Hc.
      destruct (company_colors_member companies d c Hd Hc) as (k & -> & _).
      done.
    + intros [color Hcolor]. destruct (decide (c ∈ companies)); [done|].
      by rewrite Hout in Hcolor.
  - intros c color Hcolor. destruct (decide (c ∈ companies)) as [Hc|Hc].
    + destruct (company_colors_member companies d c Hd Hc) as (k & Hk & ?).
      by simplify_eq.
    + by rewrite Hout in Hcolor.
Qed.

Lemma COLORS_primary_NoDup : NoDup COLORS_primary.
Proof. decide_closed. Qed.

(** X2: with at most seven companies in the list (the limit of the
    company multiselect), two different companies never share a colour. *)
Theorem company_colors_distinct (companies : list string)
    (d : gmap string string) :
  get_company_colors companies = Ok d →
  (length companies ≤ 7)%nat →
  ∀ c1 c2 color, d !! c1 = Some color → d !! c2 = Some color → c1 = c2.
Proof.
  intros Hd Hlen c1 c2 color H1 H2.
  destruct (get_company_colors_spec companies) as (d' & Hd' & Hout & Hin).
  rewrite Hd in Hd'. injection Hd' as <-.
  assert (Hpos : ∀ c, d !! c = Some color →
    ∃ j, companies !! j = Some c ∧ COLORS_primary !! j = Some color).
  { intros c Hc. destruct (decide (c ∈ companies)) as [Hel|Hel];
      [|by rewrite Hout in Hc].
    destruct (last_occurrence c companies Hel) as (j & Hj & Hlast).
    exists j. split; [done|].
    rewrite (Hin j c Hj Hlast) in Hc.
    apply lookup_lt_Some in Hj.
    by rewrite Nat.mod_small in Hc by lia. }
  destruct (Hpos c1 H1) as (j1 & Hj1 & Hp1).
  destruct (Hpos c2 H2) as (j2 & Hj2 & Hp2).
  pose proof (NoDup_lookup _ _ _ _ COLORS_primary_NoDup Hp1 Hp2) as ->.
  by simplify_eq.
Qed.

Lemma company_colors_distinct_witness :
  ∃ d, get_company_colors ["A"; "B"; "A"] = Ok d
    ∧ ∀ c1 c2 color, d !! c1 = Some color → d !! c2 = Some color → c1 = c2.
Proof.
  eexists. split; [reflexivity|].
  apply (company_colors_distinct ["A"; "B"; "A"]); [reflexivity | cbn; lia].
Defined.

(** X3: the colour list of a bar chart, read from the company column of
    the current-period subset (or of a copy of it), never raises a
    [KeyError]: every row of the subset holds one of the selected
    companies, and each of them has a colour of the palette. *)
Theorem bar_colors_never_raise (df_raw df : DataFrame)
    (selected_companies : list string) (selected_year : option Z)
    (mask : list bool) (company_colors : gmap string string) :
  compare_mask df_raw selected_companies selected_year = Ok mask →
  get_company_colors selected_companies = Ok company_colors →
  get_col df "企業名" = get_col (df_mask df_raw mask) "企業名" →
  ∃ gcomp colors,
    get_col df "企業名" = Some gcomp
    ∧ bar_colors company_colors df = Ok colors
    ∧ Forall2 (λ o color, ∃ c, o = PStr c ∧ c ∈ selected_companies
                 ∧ company_colors !! c = Some color
                 ∧ color ∈ COLORS_primary)
        (series_cells gcomp) colors.
Proof.
  intros Hmask Hcolors Hcomp. unfold compare_mask, getitem in Hmask.
  destruct (get_col df_raw "企業名") as [comp|] eqn:Ecomp; [|done].
  destruct (get_col df_raw "決算年度") as [yr|] eqn:Eyr; [|done].
  cbn in Hmask. injection Hmask as <-.
  rewrite get_col_df_mask, Ecomp in Hcomp. cbn in Hcomp.
  eexists. unfold bar_colors, getitem. rewrite Hcomp. cbn.
  destruct (rmap_Forall2 (color_of company_colors)
    (λ o color, ∃ c, o = PStr c ∧ c ∈ selected_companies
                 ∧ company_colors !! c = Some color
                 ∧ color ∈ COLORS_primary)
    (series_cells (series_mask
       (mask_and (isin comp selected_companies) (eq_int yr selected_year))
       comp))) as (colors & Hcs & HF).
  { intros o Ho. rewrite series_cells_mask in Ho.
    apply list_elem_of_lookup_1 in Ho as [j Hj].
    apply mask_select_lookup_inv in Hj as (i & Hi & Ho).
    apply mask_and_true in Hi as [Hi _].
    apply isin_true in Hi as (c & Hc & Hsel).
    rewrite Hc in Ho. injection Ho as <-.
    destruct (company_colors_member _ _ c Hcolors Hsel) as (color & Hk & Hp).
    exists color. cbn. rewrite Hk. split; [done|]. by exists c. }
  exists colors. by rewrite Hcs.
Qed.

Lemma bar_colors_never_raise_witness :
  ∃ gcomp colors,
    get_col (df_mask abc_table [false; false; false; true; true; false]) "企業名"
      = Some gcomp
    ∧ bar_colors {[ "A" := "#2E86AB"; "B" := "#A23B72" ]}
        (df_mask abc_table [false; false; false; true; true; false])
      = Ok colors
    ∧ colors = ["#2E86AB"; "#A23B72"].
Proof.
  destruct (bar_colors_never_raise abc_table
    (df_mask abc_table [false; false; false; true; true; false])
    ["A"; "B"] (Some 2020%Z) [false; false; false; true; true; false]
    {[ "A" := "#2E86AB"; "B" := "#A23B72" ]})
    as (gcomp & colors & Hg & Hc & _); [reflexivity..|].
  exists gcomp, colors. split; [done|]. split; [done|].
  vm_compute in Hc. by injection Hc as <-.
Defined.

(** ** Whole numbers as binary64 numbers *)

Local Open Scope Z_scope.

Lemma binary_round_aux_exact sx m e :
  Zpos (digits2_pos m) = 53 → -1074 <= e <= 971 →
  binary_round_aux prec emax sx (Zpos m) e loc_Exact = S754_finite sx m e.
Proof.
  intros Hd He. unfold binary_round_aux, shr_fexp.
  cbn [Zdigits2 shr_record_of_loc].
  rewrite Hd, fexp64.
  replace (Z.max (53 + e - 53) (-1074) - e) with 0 by lia.
  cbn [shr shr_m loc_of_shr_record round_nearest_even Zdigits2].
  rewrite Hd, fexp64.
  replace (Z.max (53 + e - 53) (-1074) - e) with 0 by lia.
  cbn [shr shr_m shr_record_of_loc].
  change (emax - prec) with 971.
  destruct (Z.leb_spec e 971); [done|lia].
Qed.

Lemma digits2_pos_lower q : 2 ^ (Zpos (digits2_pos q) - 1) <= Zpos q.
Proof.
  induction q as [q IH|q IH|]; cbn [digits2_pos]; [| |done].
  - rewrite Pos2Z.inj_succ.
    replace (Z.succ (Zpos (digits2_pos q)) - 1)
      with (Z.succ (Zpos (digits2_pos q) - 1)) by lia.
    rewrite Z.pow_succ_r by lia. lia.
  - rewrite Pos2Z.inj_succ.
    replace (Z.succ (Zpos (digits2_pos q)) - 1)
      with (Z.succ (Zpos (digits2_pos q) - 1)) by lia.
    rewrite Z.pow_succ_r by lia. lia.
Qed.

Lemma digits2_pos_bound p : Zpos p < 2 ^ 53 → Zpos (digits2_pos p) <= 53.
Proof.
  intros Hp. pose proof (digits2_pos_lower p) as H.
  destruct (Z.le_gt_cases (Zpos (digits2_pos p)) 53) as [|Hgt]; [done|].
  assert (2 ^ 53 <= 2 ^ (Zpos (digits2_pos p) - 1))
    by (apply Z.pow_le_mono_r; lia).
  lia.
Qed.

Lemma binary_round_whole p :
  Zpos p < 2 ^ 53 →
  ∃ m e, binary_round prec emax false p 0 = S754_finite false m e
    ∧ e <= 0 ∧ Zpos m = Z.shiftl (Zpos p) (- e)
    ∧ e = Zpos (digits2_pos p) - 53.
Proof.
  intros Hp. pose proof (digits2_pos_bound p Hp) as Hd.
  unfold binary_round, shl_align. rewrite fexp64.
  replace (Z.max (Zpos (digits2_pos p) + 0 - 53) (-1074) - 0)
    with (Zpos (digits2_pos p) - 53) by lia.
  replace (Z.max (Zpos (digits2_pos p) + 0 - 53) (-1074))
    with (Zpos (digits2_pos p) - 53) by lia.
  destruct (Zpos (digits2_pos p) - 53) as [|k|k] eqn:E; [|lia|].
  - exists p, 0. split; [apply binary_round_aux_exact; lia|]. done.
  - exists (Pos.iter xO p k), (Zneg k).
    split; [|split; [lia|split; [apply Zpos_shift|done]]].
    apply binary_round_aux_exact; [|lia].
    rewrite digits2_pos_shift. lia.
Qed.

Lemma Prim2SF_float_of_Z_pos p :
  Zpos p < 2 ^ 53 →
  ∃ m e, Prim2SF (float_of_Z (Zpos p)) = S754_finite false m e
    ∧ e <= 0 ∧ Zpos m = Z.shiftl (Zpos p) (- e)
    ∧ e = Zpos (digits2_pos p) - 53.
Proof.
  intros Hp. cbn [float_of_Z].
  rewrite FloatAxioms.of_uint63_spec, Uint63.of_Z_spec.
  rewrite Z.mod_small by (change Uint63.wB with (2 ^ 63); lia).
  by apply binary_round_whole.
Qed.

(** A whole number below 2^53 in magnitude is held exactly: [int] of its
    float gives it back. *)
Lemma int_of_float_of_Z z :
  - 2 ^ 53 < z < 2 ^ 53 → int_of_float (float_of_Z z) = Ok z.
Proof.
  intros Hz. destruct z as [|p|p].
  - reflexivity.
  - destruct (Prim2SF_float_of_Z_pos p) as (m & e & Hsf & He & Hm & _); [lia|].
    unfold int_of_float. rewrite Hsf, Hm. f_equal.
    destruct e as [|k|k]; [|lia|].
    + by rewrite Z.shiftl_0_r.
    + cbn [Z.opp]. rewrite Z.shiftr_shiftl_l by lia.
      by rewrite Z.sub_diag, Z.shiftl_0_r.
  - destruct (Prim2SF_float_of_Z_pos p) as (m & e & Hsf & He & Hm & _); [lia|].
    unfold int_of_float. cbn [float_of_Z]. cbn [float_of_Z] in Hsf.
    change (- Z.neg p) with (Z.pos p).
    rewrite FloatAxioms.opp_spec, Hsf. cbn [SFopp negb]. rewrite Hm. f_equal.
    destruct e as [|k|k]; [|lia|].
    + by rewrite Z.shiftl_0_r.
    + cbn [Z.opp]. rewrite Z.shiftr_shiftl_l by lia.
      by rewrite Z.sub_diag, Z.shiftl_0_r.
Qed.

Local Close Scope Z_scope.

Lemma int_of_float_nan x :
  PrimFloat.is_nan x = true → int_of_float x = Raise ValueError.
Proof. intros H%is_nan_spec. unfold int_of_float. by rewrite H. Qed.

Lemma int_of_float_infinity x :
  PrimFloat.is_infinity x = true → int_of_float x = Raise OverflowError.
Proof.
  intros [s H]%is_infinity_spec. unfold int_of_float. by rewrite H.
Qed.

Lemma int_of_float_Ok x :
  PrimFloat.is_nan x = false → PrimFloat.is_infinity x = false →
  ∃ z, int_of_float x = Ok z.
Proof.
  intros Hnan Hinf. unfold int_of_float.
  destruct (Prim2SF x) as [s|s| |s m e] eqn:E; eauto.
  - assert (PrimFloat.is_infinity x = true) by (apply is_infinity_spec; eauto).
    congruence.
  - apply is_nan_false in Hnan. done.
Qed.

Lemma int_of_float_Ok_inv x z :
  int_of_float x = Ok z →
  PrimFloat.is_nan x = false ∧ PrimFloat.is_infinity x = false.
Proof.
  intros H. split.
  - destruct (PrimFloat.is_nan x) eqn:E; [|done].
    by rewrite int_of_float_nan in H.
  - destruct (PrimFloat.is_infinity x) eqn:E; [|done].
    by rewrite int_of_float_infinity in H.
Qed.

Lemma eqb_refl_notna x :
  PrimFloat.is_nan x = false → PrimFloat.eqb x x = true.
Proof.
  intros H%is_nan_false. rewrite FloatAxioms.eqb_spec. unfold SFeqb.
  by rewrite SFcompare_refl.
Qed.

Lemma int_of_float_eqb x y :
  PrimFloat.eqb x y = true → int_of_float x = int_of_float y.
Proof.
  rewrite FloatAxioms.eqb_spec. unfold SFeqb, int_of_float.
  destruct (Prim2SF x) as [[]|[]| |[] m1 e1],
           (Prim2SF y) as [[]|[]| |[] m2 e2]; cbn; try done.
  - destruct (e1 ?= e2)%Z eqn:Ee; try done.
    apply Z.compare_eq in Ee as ->.
    destruct (Pos.compare_cont Eq m1 m2) eqn:Em; try done.
    by apply Pos.compare_eq in Em as ->.
  - destruct (e1 ?= e2)%Z eqn:Ee; try done.
    apply Z.compare_eq in Ee as ->.
    destruct (Pos.compare_cont Eq m1 m2) eqn:Em; try done.
    by apply Pos.compare_eq in Em as ->.
Qed.

Lemma float_of_Z_notna z :
  (- 2 ^ 53 < z < 2 ^ 53)%Z → PrimFloat.is_nan (float_of_Z z) = false.
Proof.
  intros Hz. by destruct (int_of_float_Ok_inv _ _ (int_of_float_of_Z z Hz)).
Qed.

Lemma float_of_Z_eqb a b :
  (- 2 ^ 53 < a < 2 ^ 53)%Z → (- 2 ^ 53 < b < 2 ^ 53)%Z →
  PrimFloat.eqb (float_of_Z a) (float_of_Z b) = bool_decide (a = b).
Proof.
  intros Ha Hb. case_bool_decide as Hab.
  - subst. by apply eqb_refl_notna, float_of_Z_notna.
  - destruct (PrimFloat.eqb _ _) eqn:E; [|done].
    apply int_of_float_eqb in E.
    rewrite !int_of_float_of_Z in E by done. by injection E.
Qed.

(** ** Fiscal-year labels *)

(** X4: [format_fy] never raises.  A whole year becomes the text FY
    followed by its decimal digits, so two different years never get the
    same label; a number of the year column that holds a whole year gets
    the label of that year; [None], a missing number and an infinite
    number come back as they are. *)
Theorem format_fy_labels (int_of_str : string → result Z) :
  (∀ z, format_fy int_of_str (VInt z) = VStr ("FY" +:+ pretty z))
  ∧ (∀ a b, format_fy int_of_str (VInt a) = format_fy int_of_str (VInt b) →
        a = b)
  ∧ (∀ z, (- 2 ^ 53 < z < 2 ^ 53)%Z →
        format_fy int_of_str (VFloat (float_of_Z z)) =
        format_fy int_of_str (VInt z))
  ∧ format_fy int_of_str VNone = VNone
  ∧ (∀ x, PrimFloat.is_nan x = true ∨ PrimFloat.is_infinity x = true →
        format_fy int_of_str (VFloat x) = VFloat x).
Proof.
  split; [done|]. split; [|split; [|split; [done|]]].
  - intros a b. unfold format_fy. cbn. intros [= H].
    change (pretty a = pretty b) in H. by apply (inj pretty) in H.
  - intros z Hz. unfold format_fy. cbn. by rewrite int_of_float_of_Z.
  - intros x [Hx|Hx]; unfold format_fy; cbn.
    + by rewrite int_of_float_nan.
    + by rewrite int_of_float_infinity.
Qed.

(** ** The selectable fiscal years *)

#[local] Instance descending_total : Total descending.
Proof. intros a b. unfold descending. lia. Qed.

Lemma Forall2_elem_of_r {A B} (P : A → B → Prop) l ys y :
  Forall2 P l ys → y ∈ ys → ∃ x, x ∈ l ∧ P x y.
Proof.
  intros HF [i Hi]%list_elem_of_lookup_1.
  destruct (Forall2_lookup_r _ _ _ _ _ HF Hi) as (x & Hx & HP).
  exists x. split; [by eapply list_elem_of_lookup_2 | done].
Qed.

Lemma Forall2_elem_of_l {A B} (P : A → B → Prop) l ys x :
  Forall2 P l ys → x ∈ l → ∃ y, y ∈ ys ∧ P x y.
Proof.
  intros HF [i Hi]%list_elem_of_lookup_1.
  destruct (Forall2_lookup_l _ _ _ _ _ HF Hi) as (y & Hy & HP).
  exists y. split; [by eapply list_elem_of_lookup_2 | done].
Qed.

Lemma rmap_raise {A B} (f : A → result B) l e :
  (∀ x e', x ∈ l → f x = Raise e' → e' = e) →
  (∃ x, x ∈ l ∧ f x = Raise e) →
  rmap f l = Raise e.
Proof.
  induction l as [|a l IH]; intros Hall (x & Hx & Hfx).
  - by apply elem_of_nil in Hx.
  - cbn. destruct (f a) as [b|e'] eqn:Ea; cbn.
    + apply elem_of_cons in Hx as [->|Hx]; [congruence|].
      rewrite IH; [done | | by eauto].
      intros z e' Hz. apply Hall. by right.
    + f_equal. apply (Hall a); [by left | done].
Qed.

Lemma rmap_year_number cells : rmap year_number (PNum <$> cells) = Ok cells.
Proof. induction cells as [|x cells IH]; cbn; [done|]. by rewrite IH. Qed.

Lemma existsb_eqb_true x (acc : list float) :
  existsb (PrimFloat.eqb x) acc = true ↔
  ∃ a, a ∈ acc ∧ PrimFloat.eqb x a = true.
Proof.
  rewrite existsb_exists. by setoid_rewrite list_elem_of_In.
Qed.

Lemma unique_floats_acc l : ∀ acc,
  (∀ x, x ∈ foldl (λ acc x, if existsb (PrimFloat.eqb x) acc then acc
                             else (acc ++ [x])%list) acc l →
        x ∈ acc ∨ x ∈ l)
  ∧ (∀ x, x ∈ acc →
        x ∈ foldl (λ acc x, if existsb (PrimFloat.eqb x) acc then acc
                            else (acc ++ [x])%list) acc l)
  ∧ (∀ x, x ∈ l → PrimFloat.is_nan x = false →
        ∃ x', x' ∈ foldl (λ acc x, if existsb (PrimFloat.eqb x) acc then acc
                                   else (acc ++ [x])%list) acc l
              ∧ PrimFloat.eqb x x' = true).
Proof.
  induction l as [|a l IH]; intros acc; cbn.
  - split; [by left|]. split; [done|]. by intros x Hx%elem_of_nil.
  - destruct (existsb (PrimFloat.eqb a) acc) eqn:E.
    + destruct (IH acc) as (H1 & H2 & H3). split; [|split].
      * intros x Hx. destruct (H1 x Hx); [by left | right; by right].
      * done.
      * intros x [->|Hx]%elem_of_cons Hnan; [|by apply H3].
        apply existsb_eqb_true in E as (a' & Ha' & Heq).
        exists a'. split; [by apply H2 | done].
    + destruct (IH (acc ++ [a])%list) as (H1 & H2 & H3). split; [|split].
      * intros x Hx. destruct (H1 x Hx) as [Hin|Hin]; [|right; by right].
        apply elem_of_app in Hin as [Hin|Hin]; [by left|].
        apply list_elem_of_singleton in Hin as ->. right. by left.
      * intros x Hx. apply H2, elem_of_app. by left.
      * intros x [->|Hx]%elem_of_cons Hnan; [|by apply H3].
        exists a. split; [|by apply eqb_refl_notna].
        apply H2, elem_of_app. right. by apply list_elem_of_singleton.
Qed.

Lemma unique_floats_spec l :
  (∀ x, x ∈ unique_floats l → x ∈ l)
  ∧ (∀ x, x ∈ l → PrimFloat.is_nan x = false →
        ∃ x', x' ∈ unique_floats l ∧ PrimFloat.eqb x x' = true).
Proof.
  destruct (unique_floats_acc l []) as (H1 & _ & H3). split; [|done].
  intros x Hx. destruct (H1 x Hx) as [Hin|Hin]; [|done].
  by apply elem_of_nil in Hin.
Qed.

Lemma elem_of_filter_notna x (cells : list float) :
  x ∈ List.filter notna cells ↔ x ∈ cells ∧ PrimFloat.is_nan x = false.
Proof.
  rewrite list_elem_of_In, filter_In, <- list_elem_of_In.
  unfold notna. by rewrite negb_true_iff.
Qed.

Lemma int_of_float_raise x e :
  PrimFloat.is_nan x = false → int_of_float x = Raise e → e = OverflowError.
Proof.
  intros Hnan%is_nan_false. unfold int_of_float.
  destruct (Prim2SF x); try done. by intros [= <-].
Qed.

Lemma available_years_members (df_raw : DataFrame) (cells : list float) :
  get_col df_raw "決算年度" = Some (NumSeries cells) →
  Forall (λ x, PrimFloat.is_infinity x = false) cells →
  ∃ ys, available_years df_raw = Ok (merge_sort descending ys)
    ∧ ∀ y, y ∈ ys ↔
        ∃ x, x ∈ cells ∧ PrimFloat.is_nan x = false ∧ int_of_float x = Ok y.
Proof.
  intros Hyr Hfin. unfold available_years, getitem. rewrite Hyr. cbn.
  rewrite rmap_year_number. cbn.
  destruct (unique_floats_spec (List.filter notna cells)) as [Hsub Hrep].
  rewrite Forall_forall in Hfin.
  destruct (rmap_Forall2 int_of_float (λ x y, int_of_float x = Ok y)
    (unique_floats (List.filter notna cells))) as (ys & Hys & HF).
  { intros x Hx. apply Hsub, elem_of_filter_notna in Hx as [Hx Hnan].
    destruct (int_of_float_Ok x Hnan (Hfin x Hx)) as [z Hz]. eauto. }
  rewrite Hys. cbn. exists ys. split; [done|].
  intros y. split.
  - intros Hy.
    destruct (Forall2_elem_of_r _ _ _ _ HF Hy) as (x & Hx & Hxy).
    apply Hsub, elem_of_filter_notna in Hx as [Hx Hnan]. eauto.
  - intros (x & Hx & Hnan & Hxy).
    destruct (Hrep x) as (x' & Hx' & Heq);
      [by apply elem_of_filter_notna | done |].
    destruct (Forall2_elem_of_l _ _ _ _ HF Hx') as (y' & Hy' & Hxy').
    apply int_of_float_eqb in Heq. rewrite Hxy, Hxy' in Heq.
    by injection Heq as ->.
Qed.

(** A table with a year cell that holds a number offers a year. *)
Lemma available_years_nonempty (df_raw : DataFrame) (cells : list float) :
  get_col df_raw "決算年度" = Some (NumSeries cells) →
  Forall (λ x, PrimFloat.is_infinity x = false) cells →
  Exists (λ x, PrimFloat.is_nan x = false) cells →
  ∃ years, available_years df_raw = Ok years ∧ years ≠ [].
Proof.
  intros Hyr Hfin (x & Hx & Hnan)%Exists_exists.
  destruct (available_years_members df_raw cells Hyr Hfin)
    as (ys & Hys & Hmem).
  eexists. split; [done|]. intros Hnil.
  rewrite Forall_forall in Hfin.
  destruct (int_of_float_Ok x Hnan (Hfin x Hx)) as [z Hz].
  assert (z ∈ merge_sort descending ys) as Hin
    by (rewrite merge_sort_Permutation; apply Hmem; eauto).
  rewrite Hnil in Hin. by apply elem_of_nil in Hin.
Qed.

(** X5: the fiscal years offered for selection, for a numeric year
    column.  Without an infinite cell the list is built, in descending
    order, of exactly the whole parts (truncation toward zero) of the cells
    that hold a number, and it is empty exactly when every cell is empty;
    an infinite cell makes the sidebar stop on an [OverflowError]. *)
Theorem available_years_offered (df_raw : DataFrame) (cells : list float) :
  get_col df_raw "決算年度" = Some (NumSeries cells) →
  (Forall (λ x, PrimFloat.is_infinity x = false) cells →
     ∃ years, available_years df_raw = Ok years
       ∧ Sorted descending years
       ∧ (∀ y, y ∈ years ↔
            ∃ x, x ∈ cells ∧ PrimFloat.is_nan x = false
                 ∧ int_of_float x = Ok y)
       ∧ (years = [] ↔ Forall (λ x, PrimFloat.is_nan x = true) cells))
  ∧ (Exists (λ x, PrimFloat.is_infinity x = true) cells →
     available_years df_raw = Raise OverflowError).
Proof.
  intros Hyr. split.
  - intros Hfin.
    destruct (available_years_members df_raw cells Hyr Hfin)
      as (ys & Hys & Hmem).
    exists (merge_sort descending ys). split; [done|].
    assert (Hmem' : ∀ y, y ∈ merge_sort descending ys ↔
      ∃ x, x ∈ cells ∧ PrimFloat.is_nan x = false ∧ int_of_float x = Ok y)
      by (intros y; by rewrite merge_sort_Permutation).
    split; [apply (Sorted_merge_sort _)|]. split; [done|].
    rewrite Forall_forall in Hfin. split.
    + intros Hnil. apply Forall_forall. intros x Hx.
      destruct (PrimFloat.is_nan x) eqn:Hnan; [done|].
      destruct (int_of_float_Ok x Hnan (Hfin x Hx)) as [z Hz].
      assert (z ∈ merge_sort descending ys) as Hin by (apply Hmem'; eauto).
      rewrite Hnil in Hin. by apply elem_of_nil in Hin.
    + intros Hall. rewrite Forall_forall in Hall.
      destruct (merge_sort descending ys) as [|y l] eqn:E; [done|].
      destruct (proj1 (Hmem' y)) as (x & Hx & Hnan & _); [by left|].
      rewrite (Hall x Hx) in Hnan. done.
  - intros (x & Hx & Hinf)%Exists_exists.
    unfold available_years, getitem. rewrite Hyr. cbn.
    rewrite rmap_year_number. cbn.
    destruct (unique_floats_spec (List.filter notna cells)) as [Hsub Hrep].
    rewrite (rmap_raise int_of_float _ OverflowError); [done| |].
    + intros z e' Hz. apply Hsub, elem_of_filter_notna in Hz as [_ Hnan].
      by apply int_of_float_raise.
    + destruct (Hrep x) as (x' & Hx' & Heq).
      { apply elem_of_filter_notna. split; [done|].
        by apply is_infinity_notna. }
      { by apply is_infinity_notna. }
      exists x'. split; [done|].
      rewrite <- (int_of_float_eqb _ _ Heq). by apply int_of_float_infinity.
Qed.

Lemma available_years_offered_witness :
  ∃ years, available_years abc_table = Ok years
    ∧ Sorted descending years
    ∧ (2020%Z ∈ years).
Proof.
  destruct (available_years_offered abc_table
    [2019%float; 2019%float; 2019%float; 2020%float; 2020%float; 2020%float]
    eq_refl) as [Hok _].
  destruct Hok as (years & Hy & Hs & Hmem & _).
  { repeat constructor. }
  exists years. split; [done|]. split; [done|].
  apply Hmem. exists 2020%float.
  split; [|split; reflexivity].
  do 3 (apply elem_of_cons; right). apply elem_of_cons. by left.
Defined.

Lemma existsb_eqb_whole z (accz : list Z) :
  (- 2 ^ 53 < z < 2 ^ 53)%Z →
  Forall (λ a, (- 2 ^ 53 < a < 2 ^ 53)%Z) accz →
  existsb (PrimFloat.eqb (float_of_Z z)) (float_of_Z <$> accz) =
    bool_decide (z ∈ accz).
Proof.
  intros Hz Hacc. induction Hacc as [|a accz Ha Hacc IH]; cbn; [done|].
  rewrite IH, float_of_Z_eqb by done.
  apply eq_bool_prop_intro. rewrite orb_True, !bool_decide_spec, elem_of_cons.
  done.
Qed.

Lemma unique_floats_whole lz : ∀ accz,
  Forall (λ a, (- 2 ^ 53 < a < 2 ^ 53)%Z) accz →
  Forall (λ a, (- 2 ^ 53 < a < 2 ^ 53)%Z) lz →
  NoDup accz →
  ∃ rz,
    foldl (λ acc x, if existsb (PrimFloat.eqb x) acc then acc
                    else (acc ++ [x])%list)
      (float_of_Z <$> accz) (float_of_Z <$> lz) = float_of_Z <$> rz
    ∧ NoDup rz
    ∧ Forall (λ a, (- 2 ^ 53 < a < 2 ^ 53)%Z) rz
    ∧ ∀ z, z ∈ rz ↔ z ∈ accz ∨ z ∈ lz.
Proof.
  induction lz as [|z lz IH]; intros accz Hacc Hl Hnd; cbn.
  - exists accz. split; [done|]. split; [done|]. split; [done|].
    intros z. rewrite elem_of_nil. tauto.
  - apply Forall_cons in Hl as [Hz Hl].
    rewrite existsb_eqb_whole by done. case_bool_decide as Hin.
    + destruct (IH accz Hacc Hl Hnd) as (rz & Hrz & Hnd' & Hr & Hmem).
      exists rz. split; [done|]. split; [done|]. split; [done|].
      intros y. rewrite Hmem, elem_of_cons.
      split; [tauto|]. intros [?|[->|?]]; tauto.
    + destruct (IH (accz ++ [z])%list) as (rz & Hrz & Hnd' & Hr & Hmem).
      { apply Forall_app. split; [done|]. by constructor. }
      { done. }
      { apply NoDup_app. split; [done|]. split; [|apply NoDup_singleton].
        intros y Hy ->%list_elem_of_singleton. done. }
      exists rz. split; [by rewrite <- Hrz, fmap_app|].
      split; [done|]. split; [done|].
      intros y. rewrite Hmem, elem_of_app, list_elem_of_singleton, elem_of_cons.
      tauto.
Qed.

Lemma rmap_int_of_float_whole zs :
  Forall (λ a, (- 2 ^ 53 < a < 2 ^ 53)%Z) zs →
  rmap int_of_float (float_of_Z <$> zs) = Ok zs.
Proof.
  induction 1 as [|z zs Hz Hzs IH]; cbn; [done|].
  by rewrite int_of_float_of_Z, IH.
Qed.

Lemma filter_notna_whole zs :
  Forall (λ a, (- 2 ^ 53 < a < 2 ^ 53)%Z) zs →
  List.filter notna (float_of_Z <$> zs) = float_of_Z <$> zs.
Proof.
  induction 1 as [|z zs Hz Hzs IH]; cbn; [done|].
  unfold notna at 1. by rewrite float_of_Z_notna, IH.
Qed.

(** X6: when the year column holds whole years (as an integer column
    does), the years offered for selection are exactly the years of the
    table, each once, in descending order, and every offered year is the
    year of at least one row: the equality test of the current-period
    filter finds it. *)
Theorem whole_years_offered_have_rows (df_raw : DataFrame) (zs : list Z) :
  get_col df_raw "決算年度" = Some (NumSeries (float_of_Z <$> zs)) →
  Forall (λ z, (- 2 ^ 53 < z < 2 ^ 53)%Z) zs →
  ∃ years, available_years df_raw = Ok years
    ∧ NoDup years
    ∧ Sorted descending years
    ∧ (∀ y, y ∈ years ↔ y ∈ zs)
    ∧ ∀ y, y ∈ years →
        ∃ i, eq_int (NumSeries (float_of_Z <$> zs)) (Some y) !! i = Some true.
Proof.
  intros Hyr Hzs. unfold available_years, getitem. rewrite Hyr. cbn.
  rewrite rmap_year_number. cbn. rewrite filter_notna_whole by done.
  destruct (unique_floats_whole zs [] ltac:(constructor) Hzs
    ltac:(constructor)) as (rz & Hrz & Hnd & Hr & Hmem).
  unfold unique_floats. cbn in Hrz. rewrite Hrz.
  rewrite rmap_int_of_float_whole by done. cbn.
  eexists. split; [done|].
  assert (Hel : ∀ y, y ∈ merge_sort descending rz ↔ y ∈ zs).
  { intros y. rewrite merge_sort_Permutation, Hmem, elem_of_nil. tauto. }
  split; [by rewrite merge_sort_Permutation|].
  split; [apply (Sorted_merge_sort _)|]. split; [done|].
  intros y [i Hi]%Hel%list_elem_of_lookup_1. exists i.
  apply (proj2 (eq_int_true (NumSeries (float_of_Z <$> zs)) y i)).
  exists (float_of_Z y). cbn.
  rewrite <- list_fmap_compose, list_lookup_fmap, Hi. split; [done|].
  rewrite Forall_forall in Hzs.
  apply eqb_refl_notna, float_of_Z_notna, Hzs.
  by eapply list_elem_of_lookup_2.
Qed.

Lemma whole_years_offered_have_rows_witness :
  ∃ years, available_years abc_table = Ok years
    ∧ NoDup years
    ∧ ∀ y, y ∈ years ↔ y ∈ [2019; 2019; 2019; 2020; 2020; 2020]%Z.
Proof.
  destruct (whole_years_offered_have_rows abc_table
    [2019; 2019; 2019; 2020; 2020; 2020]%Z)
    as (years & Hy & Hnd & _ & Hmem & _).
  - vm_compute. reflexivity.
  - repeat constructor.
  - by exists years.
Defined.

(** ** Loading: the shape of the table and its identifying columns *)

Section LoaderShape.
Variable str_of_float : float → string.
Variable to_numeric : string → float.
Variable int_literal : string → option Z.

Local Abbreviation loaded := (load_table str_of_float to_numeric int_literal).

Lemma load_table_len name (c : Column) :
  column_len
    (apply_million
       (if decide (name ∈ ID_COLUMNS) then c
        else clean_series str_of_float to_numeric int_literal c))
  = column_len c.
Proof.
  rewrite column_len_apply_million. case_decide; [done|].
  apply column_len_clean.
Qed.

(** X7: loading keeps the shape of the spreadsheet: the same columns in
    the same order, every column with as many cells as it had, the same
    number of rows, and columns of one common length stay so. *)
Theorem load_keeps_shape (df : Sheet) :
  NoDup (sheet_columns df) →
  sheet_columns (loaded df) = sheet_columns df
  ∧ (∀ name c, sheet_get df name = Some c →
       ∃ c', sheet_get (loaded df) name = Some c'
             ∧ column_len c' = column_len c)
  ∧ sheet_nrows (loaded df) = sheet_nrows df
  ∧ (sheet_wf df → sheet_wf (loaded df)).
Proof.
  intros Hnd.
  assert (Hrows : sheet_nrows (loaded df) = sheet_nrows df).
  { rewrite load_table_map by done.
    destruct df as [|[n c] df]; [done|]. cbn [fmap list_fmap sheet_nrows].
    apply (load_table_len n c). }
  split; [|split; [|split; [done|]]].
  - rewrite load_table_map by done.
    unfold sheet_columns. rewrite <- list_fmap_compose. done.
  - intros name c Hc. rewrite load_table_get, Hc by done.
    eexists. split; [done|]. apply load_table_len.
  - unfold sheet_wf. rewrite Hrows. intros Hwf.
    rewrite load_table_map by done.
    apply Forall_fmap. eapply Forall_impl; [exact Hwf|].
    intros [n c] Hc. cbn in *. rewrite <- Hc. apply load_table_len.
Qed.

(** X8: loading leaves the identifying columns alone, up to the unit
    scaling: a company, year or quarter column of texts is unchanged (no
    hyphen of it is replaced), and so is one of dtype [uint64]; one of
    dtype [float64] or [int64] is unchanged, dtype included, whenever its
    numbers are below 100000 in magnitude (or missing), as fiscal years
    are. *)
Theorem load_keeps_id_columns (df : Sheet) (name : string) :
  NoDup (sheet_columns df) →
  name ∈ ID_COLUMNS →
  (∀ vs, sheet_get df name = Some (ObjectCol vs) →
     sheet_get (loaded df) name = Some (ObjectCol vs))
  ∧ (∀ vs, sheet_get df name = Some (Float64Col vs) →
       Forall (λ x, PrimFloat.ltb (PrimFloat.abs x) 100000 = true
                    ∨ PrimFloat.is_nan x = true) vs →
       sheet_get (loaded df) name = Some (Float64Col vs))
  ∧ (∀ zs, sheet_get df name = Some (Int64Col zs) →
       Forall (λ z, (Z.abs z < 100000)%Z) zs →
       sheet_get (loaded df) name = Some (Int64Col zs))
  ∧ (∀ zs, sheet_get df name = Some (UInt64Col zs) →
       sheet_get (loaded df) name = Some (UInt64Col zs)).
Proof.
  intros Hnd Hid. split; [|split; [|split]].
  - intros vs Hget. rewrite load_table_get, Hget by done. cbn.
    by rewrite decide_True.
  - intros vs Hget Hsmall. rewrite load_table_get, Hget by done. cbn.
    rewrite decide_True by done. cbn. do 2 f_equal. clear Hget.
    induction Hsmall as [|x vs Hx Hvs IH]; cbn; [done|].
    rewrite IH. f_equal.
    destruct Hx as [Hx|Hx]; [by apply million_cell_small|].
    by apply million_cell_nan.
  - intros zs Hget Hsmall. rewrite load_table_get, Hget by done. cbn.
    rewrite decide_True by done. cbn.
    assert (existsb int_scaled zs = false) as ->; [|done].
    clear Hget. induction Hsmall as [|z zs Hz Hzs IH]; cbn; [done|].
    by rewrite IH, int_scaled_small.
  - intros zs Hget. rewrite load_table_get, Hget by done. cbn.
    by rewrite decide_True.
Qed.
End LoaderShape.

Lemma load_keeps_shape_witness :
  NoDup (sheet_columns sample_sheet)
  ∧ sheet_columns (load_table sample_str sample_to_numeric sample_int_literal
                     sample_sheet)
      = ["企業名"; "決算年度"; "売上高"; "店舗数"; "時価総額"]
  ∧ sheet_nrows (load_table sample_str sample_to_numeric sample_int_literal
                   sample_sheet) = 4%nat.
Proof.
  assert (Hnd : NoDup (sheet_columns sample_sheet)) by decide_closed.
  destruct (load_keeps_shape sample_str sample_to_numeric sample_int_literal
    sample_sheet Hnd) as (Hc & _ & Hn & _).
  split; [done|]. split; [by rewrite Hc | by rewrite Hn].
Defined.

Lemma load_keeps_id_columns_witness :
  NoDup (sheet_columns sample_sheet)
  ∧ ("決算年度" ∈ ID_COLUMNS)
  ∧ sheet_get (load_table sample_str sample_to_numeric sample_int_literal
                 sample_sheet) "決算年度"
      = Some (Int64Col [2020; 2020; 2020; 2020]%Z)
  ∧ sheet_get (load_table sample_str sample_to_numeric sample_int_literal
                 sample_sheet) "企業名"
      = Some (ObjectCol [CStr "A"; CStr "B"; CStr "C"; CStr "D"]).
Proof.
  assert (Hnd : NoDup (sheet_columns sample_sheet)) by decide_closed.
  assert (Hid : "決算年度" ∈ ID_COLUMNS) by decide_closed.
  assert (Hid' : "企業名" ∈ ID_COLUMNS) by decide_closed.
  split; [done|]. split; [done|]. split.
  - apply (load_keeps_id_columns sample_str sample_to_numeric
      sample_int_literal sample_sheet "決算年度" Hnd Hid); [reflexivity|].
    repeat constructor.
  - by apply (load_keeps_id_columns sample_str sample_to_numeric
      sample_int_literal sample_sheet "企業名" Hnd Hid').
Defined.

(** ** The trend subset *)

Lemma ge_int_num yrs y :
  ge_int (NumSeries yrs) y =
    Ok ((λ x, PrimFloat.leb (float_of_Z y) x) <$> yrs).
Proof.
  unfold ge_int. cbn. induction yrs as [|x yrs IH]; cbn; [done|].
  by rewrite IH.
Qed.

Lemma le_int_num yrs y :
  le_int (NumSeries yrs) y =
    Ok ((λ x, PrimFloat.leb x (float_of_Z y)) <$> yrs).
Proof.
  unfold le_int. cbn. induction yrs as [|x yrs IH]; cbn; [done|].
  by rewrite IH.
Qed.

Lemma trend_mask_num df_raw selected_companies start_year selected_year
    comp yrs :
  get_col df_raw "企業名" = Some comp →
  get_col df_raw "決算年度" = Some (NumSeries yrs) →
  trend_mask df_raw selected_companies start_year selected_year =
    Ok (mask_and
          (mask_and (isin comp selected_companies)
             ((λ x, PrimFloat.leb (float_of_Z start_year) x) <$> yrs))
          ((λ x, PrimFloat.leb x (float_of_Z selected_year)) <$> yrs)).
Proof.
  intros Hcomp Hyr. unfold trend_mask, getitem. rewrite Hcomp, Hyr.
  cbn [rbind]. rewrite ge_int_num. cbn [rbind]. by rewrite le_int_num.
Qed.

Lemma trend_mask_true df_raw selected_companies start_year selected_year
    comp yrs mask i :
  get_col df_raw "企業名" = Some comp →
  get_col df_raw "決算年度" = Some (NumSeries yrs) →
  trend_mask df_raw selected_companies start_year selected_year = Ok mask →
  mask !! i = Some true ↔
  ∃ c x, series_cells comp !! i = Some (PStr c)
         ∧ c ∈ selected_companies
         ∧ yrs !! i = Some x
         ∧ PrimFloat.leb (float_of_Z start_year) x = true
         ∧ PrimFloat.leb x (float_of_Z selected_year) = true.
Proof.
  intros Hcomp Hyr. rewrite (trend_mask_num _ _ _ _ _ _ Hcomp Hyr).
  intros [= <-]. rewrite !mask_and_true, isin_true, !list_lookup_fmap.
  split.
  - intros [[(c & Hc & Hsel) Hge] Hle].
    destruct (yrs !! i) as [x|]; [|done]. cbn in *.
    exists c, x. by simplify_eq.
  - intros (c & x & Hc & Hsel & -> & Hge & Hle). cbn.
    rewrite Hge, Hle. eauto.
Qed.

(** X9: the trend subset, for a numeric year column: it is built without
    an exception, keeps the columns of the table, and holds exactly the
    rows whose company is one of the chosen ones and whose fiscal year
    lies between the chosen year minus 4 and the chosen year, both ends
    included, in the order of the table.  A row with an empty year cell is
    never part of it. *)
Theorem df_trend_exact_rows (df_raw : DataFrame)
    (selected_companies : list string) (selected_year : Z)
    (comp : Series) (yrs : list float) :
  get_col df_raw "企業名" = Some comp →
  get_col df_raw "決算年度" = Some (NumSeries yrs) →
  ∃ mask,
    trend_mask df_raw selected_companies (selected_year - 4) selected_year
      = Ok mask
    ∧ (∀ i, i ∈ true_positions mask ↔
         ∃ c x, series_cells comp !! i = Some (PStr c)
                ∧ c ∈ selected_companies
                ∧ yrs !! i = Some x
                ∧ PrimFloat.leb (float_of_Z (selected_year - 4)) x = true
                ∧ PrimFloat.leb x (float_of_Z selected_year) = true)
    ∧ (∀ i x, i ∈ true_positions mask → yrs !! i = Some x →
         PrimFloat.is_nan x = false)
    ∧ StronglySorted lt (true_positions mask)
    ∧ columns (df_mask df_raw mask) = columns df_raw
    ∧ ∀ name s, get_col df_raw name = Some s →
        ∃ s', get_col (df_mask df_raw mask) name = Some s'
              ∧ series_cells s' =
                  omap (λ i, series_cells s !! i) (true_positions mask).
Proof.
  intros Hcomp Hyr. eexists.
  split; [by apply trend_mask_num|].
  pose proof (λ i, trend_mask_true df_raw selected_companies
    (selected_year - 4) selected_year comp yrs _ i Hcomp Hyr
    (trend_mask_num _ _ _ _ _ _ Hcomp Hyr)) as Hrows.
  split; [|split; [|split; [|split]]].
  - intros i. rewrite true_positions_elem. by apply Hrows.
  - intros i x Hi Hx. apply true_positions_elem in Hi.
    apply Hrows in Hi as (c & x' & _ & _ & Hx' & _ & Hle).
    rewrite Hx in Hx'. injection Hx' as <-.
    destruct (PrimFloat.is_nan x) eqn:Hnan; [|done].
    apply is_nan_spec in Hnan.
    rewrite FloatAxioms.leb_spec, Hnan in Hle. done.
  - apply true_positions_sorted.
  - apply columns_df_mask.
  - intros name s Hs. eexists. rewrite get_col_df_mask, Hs.
    split; [done|]. by rewrite series_cells_mask, mask_select_positions.
Qed.

Lemma df_trend_exact_rows_witness :
  ∃ mask, trend_mask abc_table ["A"] (2020 - 4) 2020 = Ok mask
    ∧ true_positions mask = [0; 3]%nat.
Proof.
  destruct (df_trend_exact_rows abc_table ["A"] 2020 _ _ eq_refl eq_refl)
    as (mask & Hmask & _).
  exists mask. split; [done|].
  vm_compute in Hmask. by injection Hmask as <-.
Defined.

(** ** The summary cards *)

Lemma rmap_py_float vs : rmap py_float (PNum <$> vs) = Ok vs.
Proof. induction vs as [|x vs IH]; cbn; [done|]. by rewrite IH. Qed.

Lemma col_numbers_num d name vs :
  get_col d name = Some (NumSeries vs) → col_numbers d name = Ok vs.
Proof.
  intros Hget. unfold col_numbers, getitem. rewrite Hget. cbn.
  apply rmap_py_float.
Qed.

Lemma head_true_positions_lookup {A} mask (vs : list A) :
  length mask = length vs →
  match head (true_positions mask) with
  | Some j => ∃ v, vs !! j = Some v ∧ head (mask_select mask vs) = Some v
  | None => mask_select mask vs = []
  end.
Proof.
  intros Hlen. pose proof (head_mask_select mask vs ltac:(lia)) as Hhead.
  destruct (head (true_positions mask)) as [j|] eqn:Ej; cbn in Hhead.
  - assert (j ∈ true_positions mask) as Hj
      by (destruct (true_positions mask); simplify_eq/=; left).
    apply true_positions_elem, lookup_lt_Some in Hj.
    destruct (lookup_lt_is_Some_2 vs j ltac:(lia)) as [v Hv].
    exists v. by rewrite Hhead.
  - by destruct (mask_select mask vs).
Qed.

Lemma summary_card_spec r st d comp sales margin company :
  heap st !! r = Some d →
  wf_frame d →
  get_col d "企業名" = Some comp →
  get_col d "売上高" = Some (NumSeries sales) →
  get_col d "営業利益率" = Some (NumSeries margin) →
  summary_card r company st =
    (Ok (),
     {| heap := heap st;
        out := (out st ++
                option_list
                  (j ← head (true_positions (eq_str comp company));
                   s ← sales !! j;
                   m ← margin !! j;
                   Some (Card (get_display_name company) s m)))%list |}).
Proof.
  intros Hheap Hwf Hcomp Hsales Hmargin.
  pose proof (wf_get_col _ _ _ Hwf Hcomp) as Hl1.
  pose proof (wf_get_col _ _ _ Hwf Hsales) as Hl2.
  pose proof (wf_get_col _ _ _ Hwf Hmargin) as Hl3.
  unfold series_len in Hl2, Hl3. cbn in Hl2, Hl3.
  rewrite length_fmap in Hl2, Hl3.
  assert (Hms : length (eq_str comp company) = length sales)
    by (rewrite length_eq_str; lia).
  assert (Hmm : length (eq_str comp company) = length margin)
    by (rewrite length_eq_str; lia).
  unfold summary_card, bind, deref, lift. rewrite Hheap.
  unfold getitem at 1. rewrite Hcomp.
  rewrite (df_empty_mask d _ _ _ Hwf Hsales). cbn [series_cells].
  rewrite mask_select_fmap, length_fmap.
  rewrite !(col_numbers_num (df_mask d _) _ (mask_select _ _))
    by (by rewrite get_col_df_mask, ?Hsales, ?Hmargin).
  pose proof (head_true_positions_lookup _ sales Hms) as Hs.
  pose proof (head_true_positions_lookup _ margin Hmm) as Hm.
  destruct (head (true_positions (eq_str comp company))) as [j|].
  - destruct Hs as (s & Hs & Hhs), Hm as (m & Hm & Hhm).
    cbn [mbind option_bind]. rewrite Hs. cbn [mbind option_bind].
    rewrite Hm. cbn [mbind option_bind option_list].
    destruct (mask_select (eq_str comp company) sales) as [|s' ss];
      [done|].
    destruct (mask_select (eq_str comp company) margin) as [|m' ms];
      [done|].
    cbn in *. by simplify_eq.
  - rewrite Hs. cbn. destruct st. cbn. by rewrite app_nil_r.
Qed.

(** X10: the summary above the tabs shows one card for every selected
    company that has a row in the current-period subset and none for the
    others, in the order of the selection; the card carries the display
    name of the company and the revenue and operating margin of the
    company's first row.  No table is touched. *)
Theorem summary_cards_per_company (r : ref) (d : DataFrame) (comp : Series)
    (sales margin : list float) (selected_companies : list string)
    (st : state) :
  heap st !! r = Some d →
  wf_frame d →
  get_col d "企業名" = Some comp →
  get_col d "売上高" = Some (NumSeries sales) →
  get_col d "営業利益率" = Some (NumSeries margin) →
  for_each selected_companies (summary_card r) st =
    (Ok (),
     {| heap := heap st;
        out := (out st ++
                omap (λ company,
                        j ← head (true_positions (eq_str comp company));
                        s ← sales !! j;
                        m ← margin !! j;
                        Some (Card (get_display_name company) s m))
                  selected_companies)%list |}).
Proof.
  intros Hheap Hwf Hcomp Hsales Hmargin. revert st Hheap.
  induction selected_companies as [|c cs IH]; intros st Hheap.
  - cbn. destruct st. cbn. by rewrite app_nil_r.
  - cbn [for_each]. unfold bind at 1.
    rewrite (summary_card_spec r st d comp sales margin c) by done.
    rewrite IH by done. cbn [heap out omap list_omap].
    do 2 f_equal. rewrite <- app_assoc. f_equal.
    by destruct (_ ≫= _).
Qed.

Lemma summary_cards_per_company_witness :
  for_each ["A"; "Z"; "B"] (summary_card 0) (start_state full_table) =
    (Ok (), {| heap := [full_table];
               out := [Card "A" 100 10; Card "B" 70 17] |}).
Proof.
  assert (Hwf : wf_frame full_table) by decide_closed.
  rewrite (summary_cards_per_company 0 full_table _ _ _ ["A"; "Z"; "B"]
    (start_state full_table) eq_refl Hwf eq_refl eq_refl eq_refl).
  vm_compute. reflexivity.
Defined.

(** ** Chart series with a default *)

(** X11: [safe_get_values] returns one value per row of the table,
    whether the column exists or not, and none of the numbers it returns
    is missing; on a numeric column it is the column with every missing
    number replaced by the default. *)
Theorem safe_get_values_complete (df : DataFrame) (col_name : string)
    (default : float) :
  wf_frame df →
  PrimFloat.is_nan default = false →
  length (safe_get_values df col_name default) = nrows df
  ∧ Forall (λ o, ∀ x, o = PNum x → PrimFloat.is_nan x = false)
      (safe_get_values df col_name default)
  ∧ (∀ vs, get_col df col_name = Some (NumSeries vs) →
       safe_get_values df col_name default = PNum <$> (fillna default <$> vs)).
Proof.
  intros Hwf Hdef. unfold safe_get_values.
  destruct (has_col df col_name) eqn:Hhas.
  - apply has_col_true in Hhas.
    destruct (get_col df col_name) as [s|] eqn:Hget;
      [|by apply get_col_None in Hget].
    split; [|split].
    + rewrite length_fmap. by apply (wf_get_col df col_name).
    + apply Forall_fmap, Forall_forall. intros [c|y] _ x; cbn; [done|].
      intros [= <-]. by apply fillna_notna.
    + intros vs [= ->]. cbn. rewrite <- !list_fmap_compose. done.
  - split; [by rewrite length_replicate|]. split.
    + apply Forall_forall. intros o [-> _]%elem_of_replicate x [= <-]. done.
    + intros vs Hget. apply get_col_Some_elem in Hget.
      assert (col_name ∈ columns df) as Hin.
      { unfold columns. apply list_elem_of_fmap. by eexists (_, _). }
      apply has_col_true in Hin. congruence.
Qed.

Lemma safe_get_values_complete_witness :
  wf_frame full_table
  ∧ safe_get_values full_table "パート社員" 0 = [PNum 5; PNum 0; PNum 15]
  ∧ length (safe_get_values full_table "ROIC" 0) = 3%nat.
Proof.
  assert (Hwf : wf_frame full_table) by decide_closed.
  destruct (safe_get_values_complete full_table "パート社員" 0 Hwf eq_refl)
    as (_ & _ & Hvs).
  destruct (safe_get_values_complete full_table "ROIC" 0 Hwf eq_refl)
    as (Hlen & _).
  split; [done|]. split; [|by rewrite Hlen].
  by rewrite (Hvs _ eq_refl).
Defined.

(** ** Guarded division of two columns *)

Lemma finite_nonzero_spec d :
  PrimFloat.is_finite d = true → PrimFloat.eqb d 0 = false →
  ∃ s m e, Prim2SF d = S754_finite s m e.
Proof.
  intros [Hnan Hinf]%is_finite_spec Hz.
  rewrite FloatAxioms.eqb_spec in Hz.
  change (Prim2SF 0) with (S754_zero false) in Hz.
  destruct (Prim2SF d) as [s|s| |s m e]; cbn in Hz; try done; eauto.
  by destruct (Hinf s).
Qed.

(** X12: [safe_divide] on two columns of one table never raises and
    divides row by row: a row whose divisor is zero (of either sign) gets
    the default 0, every other row the quotient; a row with a number as
    dividend and a finite divisor never becomes a missing value. *)
Theorem divide_columns_rowwise (ns ds : list float) :
  length ns = length ds →
  ∃ qs, divide_columns ns ds = Ok qs
    ∧ length qs = length ns
    ∧ ∀ i n d, ns !! i = Some n → ds !! i = Some d →
        ∃ q, qs !! i = Some q
          ∧ (PrimFloat.eqb d 0 = true → q = 0%float)
          ∧ (PrimFloat.eqb d 0 = false → q = PrimFloat.div n d)
          ∧ (PrimFloat.is_nan n = false → PrimFloat.is_finite d = true →
               PrimFloat.is_nan q = false).
Proof.
  intros Hlen. unfold divide_columns.
  rewrite safe_divide_arrays by done. cbn.
  eexists. split; [done|]. split; [rewrite length_zip_with; lia|].
  intros i n d Hn Hd. exists (guarded_quotient 0 n d).
  split; [by rewrite lookup_zip_with, Hn, Hd|].
  split; [apply guarded_quotient_zero|].
  split; [apply guarded_quotient_nonzero|].
  intros Hnan Hfin. unfold guarded_quotient.
  destruct (PrimFloat.eqb d 0) eqn:Hz; [done|].
  destruct (finite_nonzero_spec d Hfin Hz) as (s & m & e & Hsf).
  apply is_nan_false. rewrite FloatAxioms.div_spec, Hsf.
  apply SFdiv_finite_not_nan. by apply is_nan_false.
Qed.

Lemma divide_columns_rowwise_witness :
  divide_columns [10%float; 7%float; 3%float] [4%float; 0%float; (-0)%float]
    = Ok [2.5%float; 0%float; 0%float].
Proof.
  destruct (divide_columns_rowwise [10%float; 7%float; 3%float]
    [4%float; 0%float; (-0)%float] eq_refl) as (qs & Hqs & _).
  rewrite Hqs. vm_compute in Hqs. by injection Hqs as <-.
Defined.

(** ** The default selection among the options *)

Lemma preset_names_round_trip g preset :
  dict_lookup INDUSTRY_GROUPS g = Some preset →
  Forall (λ n, get_display_name (get_data_name n) = n) preset.
Proof.
  unfold INDUSTRY_GROUPS. cbn.
  repeat (case_decide; [intros [= <-]; decide_closed|]). done.
Qed.

Lemma default_display_names_Ok available g preset :
  dict_lookup INDUSTRY_GROUPS g = Some preset →
  ∃ sel, default_display_names available g = Ok sel.
Proof.
  intros Hg. unfold default_display_names. rewrite Hg.
  case_decide; eauto.
Qed.

(** X14: for every industry group of the selection box and every table,
    the default of the company multiselect is built without an exception,
    has at most 7 entries (the limit of the multiselect), and each of its
    entries is one of the options of the multiselect (the display labels
    of the companies of the table). *)
Theorem default_names_are_options (available : list string) (g : string)
    (preset : list string) :
  dict_lookup INDUSTRY_GROUPS g = Some preset →
  ∃ sel, default_display_names available g = Ok sel
    ∧ (length sel ≤ 7)%nat
    ∧ ∀ n, n ∈ sel → n ∈ available_display_names available.
Proof.
  intros Hg. unfold default_display_names. rewrite Hg.
  case_decide as Hc.
  - eexists. split; [done|]. split; [rewrite length_take; lia|].
    intros n Hn. by apply subseteq_take in Hn.
  - eexists. split; [done|]. split; [rewrite length_take; lia|].
    intros n Hn%subseteq_take.
    apply list_elem_of_In, List.filter_In in Hn as [Hn Hav].
    apply list_elem_of_In in Hn. apply bool_decide_eq_true in Hav.
    pose proof (preset_names_round_trip g preset Hg) as Hrt.
    rewrite Forall_forall in Hrt.
    unfold available_display_names. rewrite elem_of_sorted.
    apply list_elem_of_fmap. exists (get_data_name n).
    split; [by rewrite (Hrt n Hn) | done].
Qed.

Lemma default_names_are_options_witness :
  ∃ sel, default_display_names ["USMH"; "ツルハ"; "ライフ"] "イオングループ" = Ok sel
    ∧ sel = ["U.S.M.H"; "ツルハ"]
    ∧ ∀ n, n ∈ sel → n ∈ available_display_names ["USMH"; "ツルハ"; "ライフ"].
Proof.
  destruct (default_names_are_options ["USMH"; "ツルハ"; "ライフ"]
    "イオングループ" _ eq_refl) as (sel & Hsel & _ & Hin).
  exists sel. split; [done|]. split; [|done].
  vm_compute in Hsel. by injection Hsel as <-.
Defined.

(** ** The shown tables *)

Lemma has_col_get df c s : get_col df c = Some s → has_col df c = true.
Proof.
  intros Hget. apply has_col_true. apply get_col_Some_elem in Hget.
  unfold columns. apply list_elem_of_fmap. by eexists (_, _).
Qed.

Lemma rename_col_id df old new :
  old ∉ columns df → rename_col df old new = df.
Proof.
  unfold columns, rename_col. induction df as [|[n s] df IH]; cbn; [done|].
  intros [Hne Hnin]%not_elem_of_cons.
  rewrite decide_False by done. f_equal. by apply IH.
Qed.

Lemma present_table_label df rest label :
  get_col df LABEL = Some label →
  ∃ t', present_table df rest = Ok t'
    ∧ present_table df (LABEL :: rest) = Ok ((LABEL, label) :: t')
    ∧ columns t' = List.filter (has_col df) rest
    ∧ ∀ c s, get_col t' c = Some s → get_col df c = Some s.
Proof.
  intros Hlabel.
  destruct (select_columns_ok df (present_columns df rest))
    as (t' & Ht' & Hcols & Hget).
  { intros c Hc. by apply present_columns_elem in Hc as [_ ?]. }
  exists t'. split; [done|]. split; [|done].
  unfold present_table, present_columns. cbn [List.filter].
  rewrite (has_col_get df _ _ Hlabel). cbn [select_columns].
  unfold getitem at 1. rewrite Hlabel. cbn.
  fold (present_columns df rest). by rewrite Ht'.
Qed.

Lemma shown_label_table label t' :
  LABEL ∉ columns t' →
  shown ((LABEL, label) :: t') = Ok {| index := label; metrics := t' |}.
Proof.
  intros Hno. unfold shown. cbn [rename_col fmap list_fmap fst snd].
  rewrite decide_True by done.
  fold (rename_col t' LABEL "企業名"). rewrite rename_col_id by done.
  unfold getitem. cbn [get_col]. rewrite decide_True by done. cbn.
  by rewrite decide_True.
Qed.

(** X15: a table built through the column filter from a list that starts
    with the label column is shown with the display names of the rows as
    its index and, as its columns, exactly the other requested columns
    that the table has, in the requested order and with the table's
    values; the label column itself is not among the shown columns. *)
Theorem shown_table_index_and_metrics (df : DataFrame) (rest : list string)
    (label : Series) :
  get_col df LABEL = Some label →
  LABEL ∉ rest →
  "企業名" ∉ rest →
  ∃ t t',
    present_table df (LABEL :: rest) = Ok t
    ∧ present_table df rest = Ok t'
    ∧ shown t = Ok {| index := label; metrics := t' |}
    ∧ columns t' = List.filter (has_col df) rest
    ∧ ∀ c s, get_col t' c = Some s → get_col df c = Some s.
Proof.
  intros Hlabel Hrest Hname.
  destruct (present_table_label df rest label Hlabel)
    as (t' & Ht' & Ht & Hcols & Hget).
  exists ((LABEL, label) :: t'), t'.
  split; [done|]. split; [done|]. split; [|done].
  apply shown_label_table. rewrite Hcols. intros Hin.
  apply list_elem_of_In, List.filter_In in Hin as [Hin _].
  by apply list_elem_of_In in Hin.
Qed.

Lemma shown_table_index_and_metrics_witness :
  ∃ t, present_table no_roic_table kpi_cols = Ok t
    ∧ shown t =
        Ok {| index := ObjectSeries [PStr "A"; PStr "B"];
              metrics := [ ("ROE", NumSeries [5%float; 6%float]);
                           ("ROA", NumSeries [3%float; 4%float]) ] |}.
Proof.
  destruct (shown_table_index_and_metrics no_roic_table
    ["ROE"; "実質ROE"; "ROA"; "ROIC"; "営業利益率"; "自己資本比率";
     "PER（会予）"; "PBR"; "配当利回り（実績）"; "時価総額"]
    (ObjectSeries [PStr "A"; PStr "B"]) eq_refl)
    as (t & t' & Ht & Ht' & Hshown & _); [decide_closed..|].
  exists t. split; [done|]. rewrite Hshown.
  vm_compute in Ht'. by injection Ht' as <-.
Defined.

(** ** The growth panel *)

(** X16: whenever the tabs are drawn (the current-period subset has a
    row), the loop of the growth index leaves a growth column in its
    table, so the growth panel of the first chart is always drawn.  Every
    row of the subset belongs to a selected company, and its cell of the
    growth column holds the number that the loop wrote for this company:
    1.0, or the quotient of a revenue of the subset by a base revenue of
    the table that is greater than 0.  No row is left with the empty cell
    with which the column is created. *)
Theorem growth_panel_always_drawn (df_raw : DataFrame)
    (selected_companies : list string) (selected_year : Z)
    (comp yr : Series) (rev : list float) :
  wf_frame df_raw →
  get_col df_raw "企業名" = Some comp →
  get_col df_raw "決算年度" = Some yr →
  get_col df_raw "売上高" = Some (NumSeries rev) →
  ∃ df_compare df_shown df_growth gcomp grev,
    df_compare_of df_raw selected_companies (Some selected_year)
      = Ok df_compare
    ∧ with_display_names df_compare = Ok df_shown
    ∧ growth_loop df_raw selected_year df_shown selected_companies
        = Ok df_growth
    ∧ get_col df_compare "企業名" = Some gcomp
    ∧ get_col df_compare "売上高" = Some (NumSeries grev)
    ∧ nrows df_growth = nrows df_compare
    ∧ (∀ j, (j < nrows df_compare)%nat →
         ∃ c v, series_cells gcomp !! j = Some (PStr c)
           ∧ c ∈ selected_companies
           ∧ growth_cell df_growth j = Some (PNum v)
           ∧ v = growth_value comp yr rev gcomp grev selected_year c
           ∧ (v = 1%float
              ∨ ∃ cur b, cur ∈ grev ∧ b ∈ rev
                  ∧ PrimFloat.ltb 0 b = true
                  ∧ v = PrimFloat.div cur b))
    ∧ (df_empty df_compare = false → has_col df_growth GROWTH = true).
Proof.
  intros Hwf Hcomp Hyr Hrev.
  set (mask := mask_and (isin comp selected_companies)
                        (eq_int yr (Some selected_year))).
  set (dfc := df_mask df_raw mask).
  set (gcomp := series_mask mask comp).
  set (grev := mask_select mask rev).
  set (dfd := set_col dfc "企業名_表示"
                (ObjectSeries (display_obj <$> series_cells gcomp))).
  assert (Hgc : get_col dfc "企業名" = Some gcomp)
    by (unfold dfc; by rewrite get_col_df_mask, Hcomp).
  assert (Hgr : get_col dfc "売上高" = Some (NumSeries grev))
    by (unfold dfc; by rewrite get_col_df_mask, Hrev).
  assert (Hwfc : wf_frame dfc) by by apply wf_df_mask.
  assert (Hne : dfc ≠ []) by by eapply get_col_not_nil.
  assert (Hlen : series_len gcomp = nrows dfc)
    by by apply (wf_get_col _ "企業名").
  assert (Hrows : nrows dfd = nrows dfc).
  { apply nrows_set_col; [done|].
    unfold series_len at 1. cbn. by rewrite length_fmap. }
  assert (Hinv : growth_frame gcomp grev dfd).
  { split; [|split].
    - apply wf_set_col; [done | done |].
      unfold series_len at 1. cbn. by rewrite length_fmap.
    - unfold dfd. by rewrite get_col_set_col, decide_False.
    - unfold dfd. by rewrite get_col_set_col, decide_False. }
  destruct (growth_loop_spec df_raw selected_year comp yr rev
    Hwf Hcomp Hyr Hrev gcomp grev selected_companies dfd Hinv)
    as (dfg & Hloop & Hinv' & Hset & _).
  pose proof (growth_inv_lengths gcomp grev dfd Hinv) as [Hl1 _].
  pose proof (growth_inv_lengths gcomp grev dfg Hinv') as [Hl2 _].
  assert (Hcells : ∀ j, (j < nrows dfc)%nat →
    ∃ c, series_cells gcomp !! j = Some (PStr c)
      ∧ c ∈ selected_companies
      ∧ growth_cell dfg j =
          Some (PNum (growth_value comp yr rev gcomp grev selected_year c))).
  { intros j Hj.
    destruct (lookup_lt_is_Some_2 (series_cells gcomp) j) as [o Ho].
    { fold (series_len gcomp). lia. }
    pose proof Ho as Ho'. unfold gcomp in Ho'.
    rewrite series_cells_mask in Ho'.
    apply mask_select_lookup_inv in Ho' as (i & Hm & Hi).
    unfold mask in Hm. apply mask_and_true in Hm as [Hm _].
    apply isin_true in Hm as (c & Hc & Hin).
    rewrite Hc in Hi. injection Hi as <-.
    exists c. split; [done|]. split; [done|]. by apply (Hset j c). }
  exists dfc, dfd, dfg, gcomp, grev.
  split; [unfold df_compare_of, compare_mask, getitem;
          by rewrite Hcomp, Hyr|].
  split; [unfold with_display_names, getitem; by rewrite Hgc|].
  split; [done|]. split; [done|]. split; [done|]. split; [lia|]. split.
  { intros j Hj. destruct (Hcells j Hj) as (c & Hc & Hin & Hcell).
    exists c, (growth_value comp yr rev gcomp grev selected_year c).
    split; [done|]. split; [done|]. split; [done|]. split; [done|].
    unfold growth_value.
    destruct (head (rows_of comp yr c (selected_year - 5))) as [i|];
      [|by left].
    destruct (rev !! i) as [b|] eqn:Hb; [|by left].
    destruct (PrimFloat.ltb 0 b) eqn:Hpos; [|by left].
    destruct (head (true_positions (eq_str gcomp c))) as [j0|]; [|by left].
    destruct (grev !! j0) as [cur|] eqn:Hcur; [|by left].
    right. exists cur, b.
    split; [by eapply list_elem_of_lookup_2|].
    split; [by eapply list_elem_of_lookup_2|]. done. }
  intros Hempty.
  assert (0 < nrows dfc)%nat as Hpos.
  { destruct dfc as [|c0 dfc0]; [done|]. cbn in Hempty.
    apply Nat.eqb_neq in Hempty. cbn. lia. }
  destruct (Hcells 0%nat Hpos) as (x & _ & _ & Hx).
  unfold growth_cell in Hx.
  destruct (get_col dfg GROWTH) as [s|] eqn:Hs; [|done].
  apply has_col_true. apply get_col_Some_elem in Hs.
  unfold columns. apply list_elem_of_fmap. by eexists (_, _).
Qed.

Lemma growth_panel_always_drawn_witness :
  wf_frame growth_table
  ∧ ∃ df_growth,
      (df_compare ←r df_compare_of growth_table ["A"; "B"; "C"] (Some 2020%Z);
       df_shown ←r with_display_names df_compare;
       growth_loop growth_table 2020 df_shown ["A"; "B"; "C"]) = Ok df_growth
      ∧ has_col df_growth GROWTH = true
      ∧ ∃ v, growth_cell df_growth 0 = Some (PNum v).
Proof.
  assert (Hwf : wf_frame growth_table) by decide_closed.
  split; [done|].
  destruct (growth_panel_always_drawn growth_table ["A"; "B"; "C"] 2020
    _ _ _ Hwf eq_refl eq_refl eq_refl)
    as (dfc & dfd & dfg & gcomp & grev & Hdf & Hshown & Hloop & _ & _ & _
        & Hcells & Hhas).
  exists dfg. split; [by rewrite Hdf; cbn; rewrite Hshown|].
  vm_compute in Hdf. injection Hdf as <-.
  split; [by apply Hhas|].
  destruct (Hcells 0%nat) as (c & v & _ & _ & Hcell & _); [vm_compute; lia|].
  eauto.
Defined.

(** ** Data labels recovered from display labels *)

(** X17: converting a data label of the table to its display label and
    back gives the data label again, for every label that is not itself
    one of the three display labels of the mapping; so the companies
    chosen in the multiselect are looked up under the labels that the
    table uses.  A table that names a company by a display label of the
    mapping is the exception: the label converted back is another one. *)
Theorem data_name_recovered :
  (∀ x, x ∉ COMPANY_NAME_MAPPING_items.*1 →
     get_data_name (get_display_name x) = x)
  ∧ (∀ x, x ∈ COMPANY_NAME_MAPPING_items.*1 →
       get_data_name (get_display_name x) ≠ x)
  ∧ (∀ available,
       Forall (λ x, x ∉ COMPANY_NAME_MAPPING_items.*1) available →
       get_data_names (get_display_names available) = available).
Proof.
  assert (H1 : ∀ x, x ∉ COMPANY_NAME_MAPPING_items.*1 →
    get_data_name (get_display_name x) = x).
  { intros x Hx.
    destruct (decide (x ∈ COMPANY_NAME_MAPPING_items.*2)) as [Hd|Hd].
    - cbn in Hd. rewrite !elem_of_cons in Hd.
      destruct Hd as [->|[->|[->|Hd]]]; [by vm_compute..|].
      by apply elem_of_nil in Hd.
    - rewrite (get_display_name_unmapped x Hd).
      by apply get_data_name_unmapped. }
  split; [done|]. split.
  - intros x Hx. cbn in Hx. rewrite !elem_of_cons in Hx.
    destruct Hx as [->|[->|[->|Hx]]]; [by vm_compute..|].
    by apply elem_of_nil in Hx.
  - intros available Hav. unfold get_data_names, get_display_names.
    induction Hav as [|x l Hx Hl IH]; cbn; [done|].
    f_equal; [by apply H1 | done].
Qed.

(** ** The advisories on a loaded table *)

Lemma available_data_names_text df_raw names :
  get_col df_raw "企業名" = Some (ObjectSeries (PStr <$> names)) →
  available_data_names df_raw = Ok (sorted (unique names)).
Proof.
  intros Hcomp. unfold available_data_names, getitem. rewrite Hcomp. cbn.
  by rewrite texts_PStr.
Qed.

Lemma selectbox_Some {A} (options : list A) choice :
  options ≠ [] → ∃ y, selectbox options choice = Some y.
Proof.
  intros Hne. unfold selectbox. apply lookup_lt_is_Some_2.
  destruct options; [done|]. cbn. lia.
Qed.

(** X18: on a table with a text company column and a numeric year column
    without an infinite cell, and for every industry group of the
    selection box: when no company is selected, the cycle shows exactly
    the title, the advisory asking to select a company, and the footer;
    it returns normally and creates no table. *)
Theorem empty_selection_shows_advisory (round_to : nat → float → float)
    (raw : ref) (w : Widgets) (st : state) (df_raw : DataFrame)
    (names : list string) (yrs : list float) (preset : list string) :
  heap st !! raw = Some df_raw →
  get_col df_raw "企業名" = Some (ObjectSeries (PStr <$> names)) →
  get_col df_raw "決算年度" = Some (NumSeries yrs) →
  Forall (λ x, PrimFloat.is_infinity x = false) yrs →
  dict_lookup INDUSTRY_GROUPS (industry_choice w) = Some preset →
  selected_display_names w = [] →
  script round_to (Some raw) w st =
    (Ok (), {| heap := heap st;
               out := (out st ++
                       [Title; Warning WARN_NO_COMPANY; Footer])%list |}).
Proof.
  intros Hraw Hcomp Hyr Hfin Hg Hsel.
  destruct (available_years_members df_raw yrs Hyr Hfin) as (ys & Hy & _).
  destruct (default_display_names_Ok (sorted (unique names)) _ _ Hg)
    as (sel & Hdef).
  by eapply empty_selection_advisory;
    [| apply available_data_names_text | |..].
Qed.

Lemma empty_selection_shows_advisory_witness :
  script no_rounding (Some 0%nat) no_company_widgets (start_state abc_table) =
    (Ok (), {| heap := [abc_table];
               out := [Title; Warning WARN_NO_COMPANY; Footer] |}).
Proof.
  apply (empty_selection_shows_advisory no_rounding 0 no_company_widgets
    (start_state abc_table) abc_table ["A"; "B"; "C"; "A"; "B"; "C"]
    [2019%float; 2019%float; 2019%float; 2020%float; 2020%float; 2020%float]
    []); try reflexivity.
  repeat constructor.
Defined.

(** X19: on the same kind of table with at least one year cell filled,
    and with a company selected: a fiscal year is always selected, the
    current-period subset is built without an exception, and when it has
    no row the cycle shows exactly the title, the advisory that no data
    match, and the footer, and returns normally.  The only tables created
    are the empty subset and, with the trend display on, the trend
    subset. *)
Theorem no_matching_rows_shows_advisory (round_to : nat → float → float)
    (raw : ref) (w : Widgets) (st : state) (df_raw : DataFrame)
    (names : list string) (yrs : list float) (preset : list string) :
  heap st !! raw = Some df_raw →
  get_col df_raw "企業名" = Some (ObjectSeries (PStr <$> names)) →
  get_col df_raw "決算年度" = Some (NumSeries yrs) →
  Forall (λ x, PrimFloat.is_infinity x = false) yrs →
  Exists (λ x, PrimFloat.is_nan x = false) yrs →
  dict_lookup INDUSTRY_GROUPS (industry_choice w) = Some preset →
  selected_display_names w ≠ [] →
  ∃ years y mask,
    available_years df_raw = Ok years
    ∧ selectbox years (year_choice w) = Some y
    ∧ compare_mask df_raw (get_data_names (selected_display_names w))
        (Some y) = Ok mask
    ∧ (df_empty (df_mask df_raw mask) = true →
       ∃ tables,
         script round_to (Some raw) w st =
           (Ok (), {| heap := (heap st ++ df_mask df_raw mask :: tables)%list;
                      out := (out st ++
                              [Title; Warning WARN_NO_DATA; Footer])%list |})
         ∧ (show_trend w = false → tables = [])
         ∧ (show_trend w = true →
              ∃ trend,
                trend_mask df_raw (get_data_names (selected_display_names w))
                  (y - 4) y = Ok trend
                ∧ tables = [df_mask df_raw trend])).
Proof.
  intros Hraw Hcomp Hyr Hfin Hsome Hg Hsel.
  destruct (available_years_nonempty df_raw yrs Hyr Hfin Hsome)
    as (years & Hy & Hne).
  destruct (selectbox_Some years (year_choice w) Hne) as [y Hsel_y].
  destruct (default_display_names_Ok (sorted (unique names)) _ _ Hg)
    as (sel & Hdef).
  pose proof (available_data_names_text _ _ Hcomp) as Hnames.
  assert (get_data_names (selected_display_names w) ≠ []) as Hsel'.
  { destruct (selected_display_names w); done. }
  assert (Hmask : compare_mask df_raw
    (get_data_names (selected_display_names w)) (Some y) =
    Ok (mask_and (isin (ObjectSeries (PStr <$> names))
                    (get_data_names (selected_display_names w)))
                 (eq_int (NumSeries yrs) (Some y))))
    by (unfold compare_mask, getitem; by rewrite Hcomp, Hyr).
  exists years, y. eexists. split; [done|]. split; [done|].
  split; [exact Hmask|].
  intros Hempty. destruct (show_trend w) eqn:Htrend.
  - eexists. split.
    + eapply (no_matching_rows_advisory_trend round_to raw w st df_raw
        _ _ _ Hraw Hnames Hdef Hy _ y);
        [done | done | done | exact Hmask | by eapply trend_mask_num | done].
    + split; [done|]. intros _. eexists.
      split; [by eapply trend_mask_num | done].
  - exists []. split; [|split; [done|done]].
    eapply (no_matching_rows_advisory round_to raw w st df_raw
      _ _ _ Hraw Hnames Hdef Hy);
      [done | done | by rewrite Hsel_y | done].
Qed.

Lemma no_matching_rows_shows_advisory_witness :
  ∃ tables,
    script no_rounding (Some 0%nat) other_year_widgets (start_state abc_table)
      = (Ok (), {| heap := abc_table :: tables;
                   out := [Title; Warning WARN_NO_DATA; Footer] |}).
Proof.
  destruct (no_matching_rows_shows_advisory no_rounding 0 other_year_widgets
    (start_state abc_table) abc_table ["A"; "B"; "C"; "A"; "B"; "C"]
    [2019%float; 2019%float; 2019%float; 2020%float; 2020%float; 2020%float]
    []) as (years & y & mask & Hy & Hsel & Hmask & Hadv);
    try reflexivity.
  - repeat constructor.
  - by constructor.
  - done.
  - vm_compute in Hy. injection Hy as <-.
    vm_compute in Hsel. injection Hsel as <-.
    vm_compute in Hmask. injection Hmask as <-.
    destruct (Hadv eq_refl) as (tables & Hscript & _).
    exists (df_mask abc_table [false; false; false; false; false; false]
              :: tables).
    exact Hscript.
Defined.

(** ** The order of whole numbers as binary64 numbers *)

Local Open Scope Z_scope.

Lemma digits2_pos_upper q : Zpos q < 2 ^ Zpos (digits2_pos q).
Proof.
  induction q as [q IH|q IH|]; cbn [digits2_pos]; [| |done].
  - rewrite Pos2Z.inj_succ, Z.pow_succ_r by lia. lia.
  - rewrite Pos2Z.inj_succ, Z.pow_succ_r by lia. lia.
Qed.

Lemma digits2_pos_lt p q :
  Zpos (digits2_pos p) < Zpos (digits2_pos q) → Zpos p < Zpos q.
Proof.
  intros Hd. pose proof (digits2_pos_upper p) as Hp.
  pose proof (digits2_pos_lower q) as Hq.
  assert (2 ^ Zpos (digits2_pos p) <= 2 ^ (Zpos (digits2_pos q) - 1))
    by (apply Z.pow_le_mono_r; lia).
  lia.
Qed.

Lemma SFcompare_whole_pos p q :
  Zpos p < 2 ^ 53 → Zpos q < 2 ^ 53 →
  SFcompare (Prim2SF (float_of_Z (Zpos p))) (Prim2SF (float_of_Z (Zpos q)))
    = Some (Zpos p ?= Zpos q).
Proof.
  intros Hp Hq.
  destruct (Prim2SF_float_of_Z_pos p Hp) as (mp & ep & -> & Hep & Hmp & Edp).
  destruct (Prim2SF_float_of_Z_pos q Hq) as (mq & eq2 & -> & Heq & Hmq & Edq).
  cbn [SFcompare]. f_equal.
  destruct (Z.compare_spec ep eq2) as [Hee|Hlt|Hgt].
  - rewrite <- Hee in Hmq.
    assert (0 < 2 ^ (- ep)) as Hk by (apply Z.pow_pos_nonneg; lia).
    assert ((mp ?= mq)%positive = (Zpos p ?= Zpos q)) as Hcmp.
    { rewrite (Pos2Z.inj_compare mp mq), Hmp, Hmq, !Z.shiftl_mul_pow2 by lia.
      destruct (Z.compare_spec (Zpos p) (Zpos q)) as [H|H|H].
      - rewrite H. apply Z.compare_refl.
      - apply Z.compare_lt_iff. by apply Z.mul_lt_mono_pos_r.
      - apply Z.compare_gt_iff. by apply Z.mul_lt_mono_pos_r. }
    rewrite Pos.compare_cont_spec, Hcmp.
    by destruct (Zpos p ?= Zpos q).
  - symmetry. apply Z.compare_lt_iff. apply digits2_pos_lt. lia.
  - symmetry. apply Z.compare_gt_iff. apply digits2_pos_lt. lia.
Qed.

(** On whole numbers below 2^53 in magnitude the order of the floats is
    the order of the numbers. *)
Lemma SFcompare_float_of_Z a b :
  - 2 ^ 53 < a < 2 ^ 53 → - 2 ^ 53 < b < 2 ^ 53 →
  SFcompare (Prim2SF (float_of_Z a)) (Prim2SF (float_of_Z b)) = Some (a ?= b).
Proof.
  intros Ha Hb.
  assert (Hneg : ∀ p, Zpos p < 2 ^ 53 →
    ∃ m e, Prim2SF (float_of_Z (Zneg p)) = S754_finite true m e
         ∧ Prim2SF (float_of_Z (Zpos p)) = S754_finite false m e).
  { intros p Hp.
    destruct (Prim2SF_float_of_Z_pos p Hp) as (m & e & Hsf & _).
    exists m, e. split; [|done]. cbn [float_of_Z] in *.
    change (- Z.neg p) with (Z.pos p).
    by rewrite FloatAxioms.opp_spec, Hsf. }
  assert (Hpos : ∀ p, Zpos p < 2 ^ 53 →
    ∃ m e, Prim2SF (float_of_Z (Zpos p)) = S754_finite false m e).
  { intros p Hp.
    destruct (Prim2SF_float_of_Z_pos p Hp) as (m & e & Hsf & _). eauto. }
  destruct a as [|p|p], b as [|q|q].
  - done.
  - destruct (Hpos q) as (m & e & ->); [lia|]. done.
  - destruct (Hneg q) as (m & e & -> & _); [lia|]. done.
  - destruct (Hpos p) as (m & e & ->); [lia|]. done.
  - apply SFcompare_whole_pos; lia.
  - destruct (Hpos p) as (m & e & ->); [lia|].
    destruct (Hneg q) as (m' & e' & -> & _); [lia|]. done.
  - destruct (Hneg p) as (m & e & -> & _); [lia|]. done.
  - destruct (Hneg p) as (m & e & -> & _); [lia|].
    destruct (Hpos q) as (m' & e' & ->); [lia|]. done.
  - pose proof (SFcompare_whole_pos p q ltac:(lia) ltac:(lia)) as Hc.
    destruct (Hneg p) as (m & e & -> & Hp); [lia|].
    destruct (Hneg q) as (m' & e' & -> & Hq); [lia|].
    rewrite Hp, Hq in Hc. cbn [SFcompare] in *.
    injection Hc as Hc. f_equal.
    change (Z.neg p ?= Z.neg q) with (CompOpp (p ?= q)%positive).
    rewrite <- Hc. by destruct (e ?= e').
Qed.

Local Close Scope Z_scope.

Lemma SFcompare_Eq_inv x y :
  SFcompare x y = Some Eq →
  x = y ∨ ∃ s1 s2, x = S754_zero s1 ∧ y = S754_zero s2.
Proof.
  destruct x as [s1|[]| |[] m1 e1], y as [s2|[]| |[] m2 e2]; cbn;
    try done; try (intros _; by left); try (intros _; right; by eauto).
  - intros [= H]. left.
    destruct (e1 ?= e2)%Z eqn:Ee; try done.
    apply Z.compare_eq in Ee as ->.
    destruct (Pos.compare_cont Eq m1 m2) eqn:Em; try done.
    by apply Pos.compare_eq in Em as ->.
  - intros [= H]. left.
    destruct (e1 ?= e2)%Z eqn:Ee; try done.
    apply Z.compare_eq in Ee as ->.
    destruct (Pos.compare_cont Eq m1 m2) eqn:Em; try done.
    by apply Pos.compare_eq in Em as ->.
Qed.

Lemma SFcompare_zero_r a s1 s2 :
  SFcompare a (S754_zero s1) = SFcompare a (S754_zero s2).
Proof. by destruct a as [?|[]| |[] ? ?]. Qed.

(** A number equal to the whole year [y] lies in the window from
    [y - 4] to [y]. *)
Lemma eqb_in_window x y :
  (- 2 ^ 53 + 4 < y < 2 ^ 53)%Z →
  PrimFloat.eqb x (float_of_Z y) = true →
  PrimFloat.leb (float_of_Z (y - 4)) x = true
  ∧ PrimFloat.leb x (float_of_Z y) = true.
Proof.
  intros Hy. rewrite FloatAxioms.eqb_spec, !FloatAxioms.leb_spec.
  unfold SFeqb, SFleb.
  destruct (SFcompare (Prim2SF x) (Prim2SF (float_of_Z y))) as [[]|] eqn:E;
    try done.
  intros _. split; [|done].
  pose proof (SFcompare_float_of_Z (y - 4) y ltac:(lia) ltac:(lia)) as Hc.
  replace (y - 4 ?= y)%Z with Lt in Hc
    by (symmetry; apply Z.compare_lt_iff; lia).
  destruct (SFcompare_Eq_inv _ _ E) as [->|(s1 & s2 & -> & Hz)].
  - by rewrite Hc.
  - rewrite Hz in Hc. by rewrite (SFcompare_zero_r _ s1 s2), Hc.
Qed.

Lemma mask_select_nonempty {A} mask (vs : list A) :
  length mask = length vs →
  mask_select mask vs ≠ [] ↔ ∃ i, mask !! i = Some true.
Proof.
  intros Hlen. pose proof (head_true_positions_lookup mask vs Hlen) as Hh.
  split.
  - intros Hne. destruct (head (true_positions mask)) as [j|] eqn:Ej; [|done].
    exists j. apply true_positions_elem.
    destruct (true_positions mask); simplify_eq/=. by left.
  - intros [i Hi%true_positions_elem].
    destruct (true_positions mask) as [|j l] eqn:Ej;
      [by apply elem_of_nil in Hi|].
    cbn in Hh. destruct Hh as (v & _ & Hv).
    intros Hnil. by rewrite Hnil in Hv.
Qed.

Lemma df_empty_false_iff df mask n s :
  wf_frame df → get_col df n = Some s → length mask = nrows df →
  df_empty (df_mask df mask) = false ↔ ∃ i, mask !! i = Some true.
Proof.
  intros Hwf Hget Hlen. rewrite (df_empty_mask df mask n s Hwf Hget).
  rewrite <- (mask_select_nonempty mask (series_cells s)).
  - rewrite Nat.eqb_neq. by destruct (mask_select mask (series_cells s)).
  - rewrite Hlen. symmetry. by apply (wf_get_col df n).
Qed.

(** X20: for a whole selected year, every row of the current-period
    subset is also a row of the trend subset (the five-year window ends
    with the selected year); so whenever the tabs are drawn with the trend
    display on, the trend subset has a row and the trend charts are
    drawn. *)
Theorem current_rows_in_trend_window (df_raw : DataFrame)
    (selected_companies : list string) (selected_year : Z)
    (comp : Series) (yrs : list float) :
  wf_frame df_raw →
  get_col df_raw "企業名" = Some comp →
  get_col df_raw "決算年度" = Some (NumSeries yrs) →
  (- 2 ^ 53 + 4 < selected_year < 2 ^ 53)%Z →
  ∃ mask trend,
    compare_mask df_raw selected_companies (Some selected_year) = Ok mask
    ∧ trend_mask df_raw selected_companies (selected_year - 4) selected_year
        = Ok trend
    ∧ (∀ i, mask !! i = Some true → trend !! i = Some true)
    ∧ (df_empty (df_mask df_raw mask) = false →
       df_empty (df_mask df_raw trend) = false).
Proof.
  intros Hwf Hcomp Hyr Hy.
  pose proof (trend_mask_num df_raw selected_companies (selected_year - 4)
    selected_year comp yrs Hcomp Hyr) as Htrend.
  pose proof (wf_get_col _ _ _ Hwf Hcomp) as Hl1.
  pose proof (wf_get_col _ _ _ Hwf Hyr) as Hl2.
  unfold series_len in Hl2. cbn in Hl2. rewrite length_fmap in Hl2.
  eexists _, _. split; [unfold compare_mask, getitem; by rewrite Hcomp, Hyr|].
  split; [exact Htrend|].
  assert (Hsub : ∀ i,
    mask_and (isin comp selected_companies)
      (eq_int (NumSeries yrs) (Some selected_year)) !! i = Some true →
    mask_and
      (mask_and (isin comp selected_companies)
         ((λ x, PrimFloat.leb (float_of_Z (selected_year - 4)) x) <$> yrs))
      ((λ x, PrimFloat.leb x (float_of_Z selected_year)) <$> yrs) !! i
      = Some true).
  { intros i [Hin Heq]%mask_and_true.
    apply isin_true in Hin as (c & Hc & Hsel).
    apply eq_int_true in Heq as (x & Hx & Heq). cbn in Hx.
    rewrite list_lookup_fmap in Hx.
    destruct (yrs !! i) as [x'|] eqn:Ex; [|done]. cbn in Hx.
    injection Hx as ->.
    destruct (eqb_in_window x selected_year Hy Heq) as [Hge Hle].
    apply (trend_mask_true df_raw selected_companies (selected_year - 4)
      selected_year comp yrs _ i Hcomp Hyr Htrend).
    exists c, x. done. }
  split; [done|].
  rewrite (df_empty_false_iff df_raw _ _ _ Hwf Hcomp),
          (df_empty_false_iff df_raw _ _ _ Hwf Hcomp).
  - intros [i Hi]. exists i. by apply Hsub.
  - unfold mask_and.
    rewrite !length_zip_with, length_isin, !length_fmap. lia.
  - unfold mask_and.
    rewrite !length_zip_with, length_isin, length_eq_int.
    unfold series_len in *. cbn. rewrite length_fmap. lia.
Qed.

Lemma current_rows_in_trend_window_witness :
  ∃ mask trend,
    compare_mask abc_table ["A"] (Some 2020%Z) = Ok mask
    ∧ trend_mask abc_table ["A"] (2020 - 4) 2020 = Ok trend
    ∧ mask = [false; false; false; true; false; false]
    ∧ trend = [true; false; false; true; false; false].
Proof.
  assert (Hwf : wf_frame abc_table) by decide_closed.
  destruct (current_rows_in_trend_window abc_table ["A"] 2020 _ _
    Hwf eq_refl eq_refl) as (mask & trend & Hm & Ht & _);
    [split; reflexivity|].
  exists mask, trend. split; [done|]. split; [done|].
  vm_compute in Hm. injection Hm as <-.
  vm_compute in Ht. by injection Ht as <-.
Defined.

(** ** The order of the trend points *)

Lemma leb_total_notna a b :
  PrimFloat.is_nan a = false → PrimFloat.is_nan b = false →
  PrimFloat.leb a b = true ∨ PrimFloat.leb b a = true.
Proof.
  intros Ha%is_nan_false Hb%is_nan_false.
  rewrite !FloatAxioms.leb_spec. unfold SFleb.
  rewrite (SFcompare_antisym (Prim2SF a) (Prim2SF b)).
  destruct (Prim2SF a) as [?|[]| |[] ? ?], (Prim2SF b) as [?|[]| |[] ? ?];
    cbn; try done; auto;
    match goal with
    | |- context [(?e1 ?= ?e2)%Z] =>
        destruct (e1 ?= e2)%Z; cbn; auto;
        match goal with
        | |- context [Pos.compare_cont Eq ?m1 ?m2] =>
            destruct (Pos.compare_cont Eq m1 m2); cbn; auto
        end
    end.
Qed.

#[local] Instance by_year_total : Total by_year.
Proof.
  intros [a v] [b w]. unfold by_year, year_le, notna. cbn.
  destruct (PrimFloat.is_nan a) eqn:Ea, (PrimFloat.is_nan b) eqn:Eb; cbn;
    auto.
  apply leb_total_notna; done.
Qed.

Lemma Sorted_by_year_leb (l : list (float * pyobj)) :
  Forall (λ p, PrimFloat.is_nan p.1 = false) l →
  Sorted by_year l →
  Sorted (λ a b, PrimFloat.leb a.1 b.1 = true) l.
Proof.
  intros Hall Hs. induction Hs as [|p l Hs IH Hhd]; [constructor|].
  apply Forall_cons in Hall as [Hp Hall].
  constructor; [by apply IH|].
  destruct Hhd as [|q l Hpq]; constructor.
  apply Forall_cons in Hall as [Hq _].
  unfold by_year, year_le, notna in Hpq.
  rewrite Hq, Hp in Hpq. done.
Qed.

(** X21: the points of a trend line are the rows of the company in the
    window, each once, ordered by fiscal year: of two neighbouring points
    the earlier one never has the later year. *)
Theorem trend_points_in_year_order (years : list float)
    (values : list pyobj) :
  length years = length values →
  Forall (λ y, PrimFloat.is_nan y = false) years →
  ∃ points,
    sorted_by_year years values = points.*2
    ∧ points ≡ₚ zip years values
    ∧ sorted_by_year years values ≡ₚ values
    ∧ Sorted (λ a b, PrimFloat.leb a.1 b.1 = true) points.
Proof.
  intros Hlen Hnan. exists (merge_sort by_year (zip years values)).
  split; [done|].
  assert (Hperm : merge_sort by_year (zip years values) ≡ₚ zip years values)
    by apply merge_sort_Permutation.
  split; [done|]. split.
  - unfold sorted_by_year. rewrite Hperm. by rewrite snd_zip by lia.
  - assert (Hall : Forall (λ p, PrimFloat.is_nan p.1 = false)
                     (merge_sort by_year (zip years values))).
    { rewrite Hperm. apply Forall_forall. intros [y v] Hin.
      apply elem_of_zip_l in Hin. rewrite Forall_forall in Hnan.
      by apply Hnan. }
    apply Sorted_by_year_leb; [done|]. apply (Sorted_merge_sort _).
Qed.

Lemma trend_points_in_year_order_witness :
  sorted_by_year [2020%float; 2018%float; 2019%float]
    [PNum 3; PNum 1; PNum 2] = [PNum 1; PNum 2; PNum 3].
Proof.
  destruct (trend_points_in_year_order [2020%float; 2018%float; 2019%float]
    [PNum 3; PNum 1; PNum 2] eq_refl) as (points & Hp & _).
  - repeat constructor.
  - rewrite Hp. vm_compute in Hp.
    destruct points as [|[? ?] [|[? ?] [|[? ?] [|]]]]; try done.
Defined.

(** ** Running the steps of a tab *)

Lemma bind_lift_Ok {A B} (a : A) (k : A → M B) st :
  bind (lift (Ok a)) k st = k a st.
Proof. done. Qed.

Lemma bind_emit {B} e (k : unit → M B) st :
  bind (emit e) k st =
    k () {| heap := heap st; out := (out st ++ [e])%list |}.
Proof. done. Qed.

Lemma bind_alloc {B} df (k : ref → M B) st :
  bind (alloc df) k st =
    k (length (heap st)) {| heap := (heap st ++ [df])%list; out := out st |}.
Proof. done. Qed.

Lemma bind_deref {B} r df (k : DataFrame → M B) st :
  heap st !! r = Some df → bind (deref r) k st = k df st.
Proof. intros H. unfold bind, deref. by rewrite H. Qed.

Lemma bind_assign_numbers {B} r name values (k : unit → M B) st :
  bind (assign_numbers r name values) k st =
    k () {| heap := alter (λ df, set_col df name (NumSeries values)) r (heap st);
            out := out st |}.
Proof. done. Qed.

Lemma alter_last {A} (f : A → A) (h : list A) x :
  alter f (length h) (h ++ [x])%list = (h ++ [f x])%list.
Proof. induction h as [|y h IH]; cbn; [done|]. by rewrite IH. Qed.

Lemma lookup_last {A} (h : list A) x : (h ++ [x])%list !! length h = Some x.
Proof. by rewrite list_lookup_middle. Qed.

Lemma show_table_run title file_name df s st :
  shown df = Ok s →
  show_table title file_name df st =
    (Ok (), {| heap := heap st;
               out := (out st ++ [Table title s; Download file_name s])%list |}).
Proof.
  intros Hs. unfold show_table. rewrite Hs, bind_lift_Ok, bind_emit.
  unfold emit. cbn. by rewrite <- app_assoc.
Qed.

Lemma show_gradient_table_run title file_name df s st :
  shown df = Ok s →
  background_gradient s = Ok () →
  show_gradient_table title file_name df st =
    (Ok (), {| heap := heap st;
               out := (out st ++ [Table title s; Download file_name s])%list |}).
Proof.
  intros Hs Hg. unfold show_gradient_table.
  rewrite Hs, bind_lift_Ok, Hg, bind_lift_Ok, bind_emit.
  unfold emit. cbn. by rewrite <- app_assoc.
Qed.

Lemma show_gradient_table_refused title file_name df s st e :
  shown df = Ok s →
  background_gradient s = Raise e →
  show_gradient_table title file_name df st = (Raise e, st).
Proof.
  intros Hs Hg. unfold show_gradient_table.
  by rewrite Hs, bind_lift_Ok, Hg.
Qed.

Lemma getitem_Some df c s : get_col df c = Some s → getitem df c = Ok s.
Proof. intros H. unfold getitem. by rewrite H. Qed.

Lemma col_cells_Some df c s :
  get_col df c = Some s → col_cells df c = Ok (series_cells s).
Proof. intros H. unfold col_cells. by rewrite (getitem_Some _ _ _ H). Qed.

Lemma divide_columns_zip ns ds :
  length ns = length ds →
  divide_columns ns ds = Ok (zip_with (guarded_quotient 0) ns ds).
Proof. intros H. unfold divide_columns. by rewrite safe_divide_arrays. Qed.

(** ** Labour productivity *)

Lemma get_col_set_col_ne df n s n' :
  n ≠ n' → get_col (set_col df n s) n' = get_col df n'.
Proof. intros H. by rewrite get_col_set_col, decide_False. Qed.

Lemma get_col_set_col_eq df n s : get_col (set_col df n s) n = Some s.
Proof. by rewrite get_col_set_col, decide_True. Qed.

(** X22: the productivity tab on a subset whose head counts, revenue and
    operating profit are numeric: it returns normally, leaves the subset
    as it is and creates two tables (its working copy and the shown one).
    The four metrics are computed row by row: revenue and profit divided
    by the regular staff, and by the regular staff plus the part-time
    staff with a missing part-time count taken as 0; a row whose divisor
    is zero gets 0; every value is rounded to 2 decimals.  The chart
    draws the four metrics and the table shows the two head counts and
    the four metrics under the display names. *)
Theorem productivity_per_head (round_to : nat → float → float) (r : ref)
    (st : state) (d : DataFrame) (comp label : Series)
    (staff part_time sales profit : list float) :
  heap st !! r = Some d →
  wf_frame d →
  get_col d "企業名" = Some comp →
  get_col d LABEL = Some label →
  get_col d "従業員数" = Some (NumSeries staff) →
  get_col d "パート社員" = Some (NumSeries part_time) →
  get_col d "売上高" = Some (NumSeries sales) →
  get_col d "営業利益" = Some (NumSeries profit) →
  let total := zip_with PrimFloat.add staff (fillna 0 <$> part_time) in
  let per (a b : list float) :=
    round_to 2 <$> zip_with (guarded_quotient 0) a b in
  let shown_table :=
    {| index := label;
       metrics :=
         [ ("従業員数", NumSeries staff);
           ("パート社員", NumSeries part_time);
           ("正社員1人当り売上高", NumSeries (per sales staff));
           ("正社員1人当り営業利益", NumSeries (per profit staff));
           ("全従業員1人当り売上高", NumSeries (per sales total));
           ("全従業員1人当り営業利益", NumSeries (per profit total)) ] |} in
  ∃ df_prod,
    tab_prod round_to r st =
      (Ok (),
       {| heap := (heap st ++
                   [df_prod; (LABEL, label) :: metrics shown_table])%list;
          out := (out st ++
                  [ Chart "労働生産性の比較"
                      [ ("正社員1人当り売上高", PNum <$> per sales staff);
                        ("正社員1人当り営業利益", PNum <$> per profit staff);
                        ("全従業員1人当り売上高", PNum <$> per sales total);
                        ("全従業員1人当り営業利益", PNum <$> per profit total) ];
                    Table "労働生産性比較" shown_table;
                    Download "productivity_comparison.html" shown_table ])%list
       |}).
Proof.
  intros Hheap Hwf Hcomp Hlabel Hstaff Hpart Hsales Hprofit total per
    shown_table.
  pose proof (wf_get_col _ _ _ Hwf Hstaff) as L1.
  pose proof (wf_get_col _ _ _ Hwf Hpart) as L2.
  pose proof (wf_get_col _ _ _ Hwf Hsales) as L3.
  pose proof (wf_get_col _ _ _ Hwf Hprofit) as L4.
  unfold series_len in L1, L2, L3, L4. cbn in L1, L2, L3, L4.
  rewrite length_fmap in L1, L2, L3, L4.
  assert (Ltot : length total = nrows d).
  { unfold total. rewrite length_zip_with, length_fmap. lia. }
  destruct st as [h o]. cbn [heap out] in *.
  unfold tab_prod.
  rewrite (bind_deref r d) by done.
  rewrite bind_alloc. cbn [heap out].
  rewrite (col_numbers_num d _ _ Hstaff), bind_lift_Ok.
  rewrite (col_numbers_num d _ _ Hpart), bind_lift_Ok.
  rewrite (col_numbers_num d _ _ Hsales), bind_lift_Ok.
  rewrite (divide_columns_zip sales staff), bind_lift_Ok by lia.
  rewrite bind_assign_numbers. cbn [heap out]. rewrite alter_last.
  rewrite (col_numbers_num d _ _ Hprofit), bind_lift_Ok.
  rewrite (divide_columns_zip profit staff), bind_lift_Ok by lia.
  rewrite bind_assign_numbers. cbn [heap out]. rewrite alter_last.
  fold total.
  rewrite (divide_columns_zip sales total), bind_lift_Ok by lia.
  rewrite bind_assign_numbers. cbn [heap out]. rewrite alter_last.
  rewrite (divide_columns_zip profit total), bind_lift_Ok by lia.
  rewrite bind_assign_numbers. cbn [heap out]. rewrite alter_last.
  fold (per sales staff) (per profit staff) (per sales total)
       (per profit total).
  set (p := set_col _ "全従業員1人当り営業利益" _).
  assert (Hold : ∀ c s, get_col d c = Some s →
    c ≠ "正社員1人当り売上高" → c ≠ "正社員1人当り営業利益" →
    c ≠ "全従業員1人当り売上高" → c ≠ "全従業員1人当り営業利益" →
    get_col p c = Some s).
  { intros c s Hc H1 H2 H3 H4. unfold p.
    by rewrite !get_col_set_col_ne. }
  assert (Hm1 : get_col p "正社員1人当り売上高" = Some (NumSeries (per sales staff))).
  { unfold p. rewrite !get_col_set_col_ne by done.
    apply get_col_set_col_eq. }
  assert (Hm2 : get_col p "正社員1人当り営業利益"
                = Some (NumSeries (per profit staff))).
  { unfold p. rewrite !get_col_set_col_ne by done.
    apply get_col_set_col_eq. }
  assert (Hm3 : get_col p "全従業員1人当り売上高"
                = Some (NumSeries (per sales total))).
  { unfold p. rewrite !get_col_set_col_ne by done.
    apply get_col_set_col_eq. }
  assert (Hm4 : get_col p "全従業員1人当り営業利益"
                = Some (NumSeries (per profit total))).
  { unfold p. apply get_col_set_col_eq. }
  pose proof (Hold _ _ Hcomp ltac:(done) ltac:(done) ltac:(done) ltac:(done))
    as Hc'.
  pose proof (Hold _ _ Hlabel ltac:(done) ltac:(done) ltac:(done) ltac:(done))
    as Hl'.
  pose proof (Hold _ _ Hstaff ltac:(done) ltac:(done) ltac:(done) ltac:(done))
    as Hs'.
  pose proof (Hold _ _ Hpart ltac:(done) ltac:(done) ltac:(done) ltac:(done))
    as Hp'.
  exists p.
  rewrite (bind_deref (length h) p) by apply lookup_last.
  rewrite (col_cells_Some p _ _ Hc'), bind_lift_Ok.
  rewrite (col_cells_Some p _ _ Hl'), bind_lift_Ok.
  cbn [rmap].
  rewrite (col_cells_Some p _ _ Hm1), (col_cells_Some p _ _ Hm2),
          (col_cells_Some p _ _ Hm3), (col_cells_Some p _ _ Hm4).
  cbn [rbind series_cells]. rewrite bind_lift_Ok, bind_emit. cbn [heap out].
  assert (Ht : present_table p prod_cols =
               Ok ((LABEL, label) :: metrics shown_table)).
  { unfold present_table, present_columns, prod_cols. cbn [List.filter].
    rewrite (has_col_get p _ _ Hl'), (has_col_get p _ _ Hs'),
            (has_col_get p _ _ Hp'), (has_col_get p _ _ Hm1),
            (has_col_get p _ _ Hm2), (has_col_get p _ _ Hm3),
            (has_col_get p _ _ Hm4).
    cbn [select_columns].
    rewrite (getitem_Some p _ _ Hl'), (getitem_Some p _ _ Hs'),
            (getitem_Some p _ _ Hp'), (getitem_Some p _ _ Hm1),
            (getitem_Some p _ _ Hm2), (getitem_Some p _ _ Hm3),
            (getitem_Some p _ _ Hm4).
    done. }
  rewrite Ht, bind_lift_Ok, bind_alloc. cbn [heap out].
  rewrite (show_table_run _ _ _ shown_table) by done.
  cbn [heap out]. by rewrite <- !app_assoc.
Qed.

Lemma productivity_per_head_witness :
  ∃ df_prod table events,
    tab_prod no_rounding 0 (start_state staff_table) =
      (Ok (), {| heap := [staff_table; df_prod; table]; out := events |})
    ∧ events !! 0%nat =
        Some (Chart "労働生産性の比較"
                [ ("正社員1人当り売上高", [PNum 10; PNum 0]);
                  ("正社員1人当り営業利益", [PNum 1; PNum 0]);
                  ("全従業員1人当り売上高", [PNum 5; PNum 0]);
                  ("全従業員1人当り営業利益", [PNum 0.5; PNum 0]) ]).
Proof.
  assert (Hwf : wf_frame staff_table) by decide_closed.
  destruct (productivity_per_head no_rounding 0 (start_state staff_table)
    staff_table _ _ _ _ _ _ eq_refl Hwf eq_refl eq_refl eq_refl eq_refl
    eq_refl eq_refl) as [df_prod Hrun].
  exists df_prod. eexists _, _. split; [exact Hrun|]. reflexivity.
Defined.

(** ** Cost structure *)

(** X23: the structure tab on a subset whose revenue, gross margin,
    selling and administrative cost and operating margin are numeric.  The
    cost ratio is 100 minus the gross margin; the selling and
    administrative ratio is the cost times 100 divided by the revenue, and
    0 in a row without revenue.  The tab draws its two charts with the
    ratios as they are and creates one table, which holds the ratios
    rounded to 1 decimal; the subset stays as it is.  When no display name
    repeats among the rows, the table is shown under the display names
    with its download and the tab returns normally.  When a display name
    repeats (two rows of one company), colouring the table raises a
    [KeyError]: the charts are drawn, but the table is not shown and no
    download is offered. *)
Theorem cost_structure_ratios (round_to : nat → float → float) (r : ref)
    (st : state) (d : DataFrame) (label revenue : Series)
    (sales gross sga margin : list float) :
  heap st !! r = Some d →
  wf_frame d →
  get_col d LABEL = Some label →
  get_col d "売上高" = Some (NumSeries sales) →
  get_col d "営業収入" = Some revenue →
  get_col d "売上総利益率" = Some (NumSeries gross) →
  get_col d "販管費" = Some (NumSeries sga) →
  get_col d "営業利益率" = Some (NumSeries margin) →
  let cost_ratio := (λ x, PrimFloat.sub 100 x) <$> gross in
  let sgna_ratio :=
    zip_with (guarded_quotient 0) ((λ x, PrimFloat.mul x 100) <$> sga) sales in
  let shown_table :=
    {| index := label;
       metrics :=
         [ ("売上原価率", NumSeries (round_to 1 <$> cost_ratio));
           ("販管費率", NumSeries (round_to 1 <$> sgna_ratio));
           ("営業利益率", NumSeries (round_to 1 <$> margin)) ] |} in
  let charts :=
    [ Chart "収益構造"
        [ ("売上高", PNum <$> sales); ("営業収入", series_cells revenue) ];
      Chart "コスト構造分解"
        [ ("売上原価率", PNum <$> cost_ratio);
          ("販管費率", PNum <$> sgna_ratio);
          ("営業利益率", PNum <$> margin) ] ] in
  (is_unique (series_cells label) = true →
   tab_structure round_to r st =
     (Ok (),
      {| heap := (heap st ++ [(LABEL, label) :: metrics shown_table])%list;
         out := (out st ++ charts ++
                 [ Table "構造比較テーブル" shown_table;
                   Download "structure_comparison.html" shown_table ])%list
      |}))
  ∧ (is_unique (series_cells label) = false →
     tab_structure round_to r st =
       (Raise (KeyError STYLER_NOT_UNIQUE),
        {| heap := (heap st ++ [(LABEL, label) :: metrics shown_table])%list;
           out := (out st ++ charts)%list |})).
Proof.
  intros Hheap Hwf Hlabel Hsales Hrev Hgross Hsga Hmargin cost_ratio
    sgna_ratio shown_table charts.
  pose proof (wf_get_col _ _ _ Hwf Hsales) as L1.
  pose proof (wf_get_col _ _ _ Hwf Hsga) as L2.
  unfold series_len in L1, L2. cbn in L1, L2.
  rewrite length_fmap in L1, L2.
  destruct st as [h o]. cbn [heap out] in *.
  unfold tab_structure.
  rewrite (bind_deref r d) by done.
  rewrite (col_cells_Some d _ _ Hlabel), bind_lift_Ok.
  rewrite (col_cells_Some d _ _ Hsales), bind_lift_Ok.
  rewrite (col_cells_Some d _ _ Hrev), bind_lift_Ok.
  rewrite bind_emit. cbn [heap out].
  rewrite (col_numbers_num d _ _ Hgross), bind_lift_Ok.
  rewrite (col_numbers_num d _ _ Hsga), bind_lift_Ok.
  rewrite (col_numbers_num d _ _ Hsales), bind_lift_Ok.
  rewrite divide_columns_zip, bind_lift_Ok by (rewrite length_fmap; lia).
  rewrite (col_numbers_num d _ _ Hmargin), bind_lift_Ok.
  rewrite bind_emit. cbn [heap out select_columns].
  rewrite (getitem_Some d _ _ Hlabel). cbn [rbind].
  rewrite bind_lift_Ok, bind_alloc. cbn [heap out].
  rewrite !bind_assign_numbers. cbn [heap out]. rewrite !alter_last.
  rewrite (bind_deref (length h) _) by apply lookup_last.
  assert (Hcols : bool_decide (NoDup (columns (metrics shown_table))) = true)
    by (vm_compute; reflexivity).
  assert (Hgradient : background_gradient shown_table =
      if is_unique (series_cells label) then Ok ()
      else Raise (KeyError STYLER_NOT_UNIQUE)).
  { unfold background_gradient. by rewrite Hcols, andb_true_r. }
  split; intros Huniq; rewrite Huniq in Hgradient.
  - rewrite (show_gradient_table_run _ _ _ shown_table) by done.
    cbn [heap out series_cells]. by rewrite <- !app_assoc.
  - rewrite (show_gradient_table_refused _ _ _ shown_table _ _) by done.
    cbn [heap out series_cells]. by rewrite <- !app_assoc.
Qed.

Lemma cost_structure_ratios_witness :
  (∃ table events,
     tab_structure no_rounding 0 (start_state cost_table) =
       (Ok (), {| heap := [cost_table; table]; out := events |})
     ∧ events !! 1%nat =
         Some (Chart "コスト構造分解"
                 [ ("売上原価率", [PNum 70; PNum 100]);
                   ("販管費率", [PNum 20; PNum 0]);
                   ("営業利益率", [PNum 10; PNum 0]) ])
     ∧ length events = 4%nat)
  ∧ (∃ table events,
       tab_structure no_rounding 0 (start_state two_quarter_table) =
         (Raise (KeyError STYLER_NOT_UNIQUE),
          {| heap := [two_quarter_table; table]; out := events |})
       ∧ length events = 2%nat).
Proof.
  assert (Hwf : wf_frame cost_table) by decide_closed.
  assert (Hwf' : wf_frame two_quarter_table) by decide_closed.
  destruct (cost_structure_ratios no_rounding 0 (start_state cost_table)
    cost_table _ _ _ _ _ _ eq_refl Hwf eq_refl eq_refl eq_refl eq_refl
    eq_refl eq_refl) as [Hrun _].
  destruct (cost_structure_ratios no_rounding 0
    (start_state two_quarter_table) two_quarter_table _ _ _ _ _ _ eq_refl
    Hwf' eq_refl eq_refl eq_refl eq_refl eq_refl eq_refl) as [_ Hstop].
  split.
  - eexists _, _. split; [exact (Hrun eq_refl)|]. split; reflexivity.
  - eexists _, _. split; [exact (Hstop eq_refl)|]. reflexivity.
Defined.

(** ** Balance sheet *)

(** X24: the balance-sheet tab on a subset with numeric revenue, stock
    and asset turnover: it returns normally, leaves the subset as it is
    and creates two tables.  Its working copy differs from the subset in
    one column, the stock turnover: revenue divided by stock, 0 in a row
    without stock, rounded to 1 decimal.  The chart draws total assets,
    stock and the two turnovers; the table shows, under the display
    names, the columns of its list that the working copy has. *)
Theorem inventory_turnover_tab (round_to : nat → float → float) (r : ref)
    (st : state) (d : DataFrame) (comp label assets : Series)
    (sales inventory asset_turnover : list float) :
  heap st !! r = Some d →
  wf_frame d →
  get_col d "企業名" = Some comp →
  get_col d LABEL = Some label →
  get_col d "売上高" = Some (NumSeries sales) →
  get_col d "棚卸資産" = Some (NumSeries inventory) →
  get_col d "総資産" = Some assets →
  get_col d "総資産回転率" = Some (NumSeries asset_turnover) →
  let turnover :=
    round_to 1 <$> zip_with (guarded_quotient 0) sales inventory in
  ∃ df_bs t t',
    get_col df_bs "棚卸資産回転率" = Some (NumSeries turnover)
    ∧ (∀ c, c ≠ "棚卸資産回転率" → get_col df_bs c = get_col d c)
    ∧ present_table df_bs bs_cols = Ok t
    ∧ present_table df_bs (drop 1 bs_cols) = Ok t'
    ∧ tab_bs round_to r st =
        (Ok (),
         {| heap := (heap st ++ [df_bs; t])%list;
            out := (out st ++
                    [ Chart "財政状態の比較"
                        [ ("総資産", series_cells assets);
                          ("棚卸資産", PNum <$> inventory);
                          ("総資産回転率", PNum <$> asset_turnover);
                          ("棚卸資産回転率", PNum <$> turnover) ];
                      Table "財政状態比較"
                        {| index := label; metrics := t' |};
                      Download "bs_comparison.html"
                        {| index := label; metrics := t' |} ])%list |}).
Proof.
  intros Hheap Hwf Hcomp Hlabel Hsales Hinv Hassets Hat turnover.
  pose proof (wf_get_col _ _ _ Hwf Hsales) as L1.
  pose proof (wf_get_col _ _ _ Hwf Hinv) as L2.
  unfold series_len in L1, L2. cbn in L1, L2.
  rewrite length_fmap in L1, L2.
  set (b := set_col d "棚卸資産回転率" (NumSeries turnover)).
  assert (Hnew : get_col b "棚卸資産回転率" = Some (NumSeries turnover))
    by apply get_col_set_col_eq.
  assert (Hold : ∀ c, c ≠ "棚卸資産回転率" → get_col b c = get_col d c).
  { intros c Hc. unfold b. by rewrite get_col_set_col_ne. }
  destruct (present_table_label b (drop 1 bs_cols) label)
    as (t' & Ht' & Ht & Hcols & _); [by rewrite Hold|].
  assert (Hshown : shown ((LABEL, label) :: t')
                   = Ok {| index := label; metrics := t' |}).
  { apply shown_label_table. rewrite Hcols. intros Hin.
    apply list_elem_of_In, List.filter_In in Hin as [Hin _].
    apply list_elem_of_In in Hin. revert Hin. decide_closed. }
  exists b, ((LABEL, label) :: t'), t'. split; [done|]. split; [done|].
  split; [done|]. split; [done|].
  destruct st as [h o]. cbn [heap out] in *.
  unfold tab_bs.
  rewrite (bind_deref r d) by done.
  rewrite bind_alloc. cbn [heap out].
  rewrite (col_numbers_num d _ _ Hsales), bind_lift_Ok.
  rewrite (col_numbers_num d _ _ Hinv), bind_lift_Ok.
  rewrite divide_columns_zip, bind_lift_Ok by lia.
  rewrite bind_assign_numbers. cbn [heap out]. rewrite alter_last.
  fold turnover. fold b.
  rewrite (bind_deref (length h) b) by apply lookup_last.
  rewrite (col_cells_Some b "企業名" comp), bind_lift_Ok
    by (by rewrite Hold).
  rewrite (col_cells_Some b LABEL label), bind_lift_Ok
    by (by rewrite Hold).
  rewrite (col_cells_Some b "総資産" assets), bind_lift_Ok
    by (by rewrite Hold).
  rewrite (col_cells_Some b "棚卸資産" (NumSeries inventory)), bind_lift_Ok
    by (by rewrite Hold).
  rewrite (col_numbers_num b "総資産回転率" asset_turnover), bind_lift_Ok
    by (by rewrite Hold).
  rewrite (col_numbers_num b _ _ Hnew), bind_lift_Ok.
  rewrite bind_emit. cbn [heap out].
  change (LABEL :: drop 1 bs_cols) with bs_cols in Ht.
  rewrite Ht, bind_lift_Ok, bind_alloc. cbn [heap out].
  rewrite (show_table_run _ _ _ _ _ Hshown).
  cbn [heap out series_cells]. by rewrite <- !app_assoc.
Qed.

Lemma inventory_turnover_tab_witness :
  ∃ df_bs table events,
    tab_bs no_rounding 0 (start_state stock_table) =
      (Ok (), {| heap := [stock_table; df_bs; table]; out := events |})
    ∧ get_col df_bs "棚卸資産回転率" = Some (NumSeries [2%float; 0%float]).
Proof.
  assert (Hwf : wf_frame stock_table) by decide_closed.
  destruct (inventory_turnover_tab no_rounding 0 (start_state stock_table)
    stock_table _ _ _ _ _ _ eq_refl Hwf eq_refl eq_refl eq_refl eq_refl
    eq_refl eq_refl) as (df_bs & t & t' & Hnew & _ & _ & _ & Hrun).
  exists df_bs. eexists _, _. split; [exact Hrun | exact Hnew].
Defined.

(** ** Guarded division of a column by a plain number *)

(** X13: [safe_divide] of a column by a plain Python number never
    raises, whatever the number: with a zero divisor every row is the
    default (numpy divides first, without an exception, and [np.where]
    then takes the default), otherwise every row is the quotient. *)
Theorem safe_divide_column_by_number (default d : float) (ns : list float) :
  safe_divide (NpArray ns) (PyNumber d) (PyNumber default) =
    Ok (Nd1 ((λ n, guarded_quotient default n d) <$> ns)).
Proof.
  unfold safe_divide, truediv, np_where, ne_zero, guarded_quotient. cbn.
  do 2 f_equal. induction ns as [|n ns IH]; cbn; [done|].
  rewrite IH. by destruct (PrimFloat.eqb d 0).
Qed.

(** ** A tab on a subset without one of its columns *)

(** X25: the cash-flow tab reads its four cash-flow columns without a
    check: on a subset that lacks one of them (the columns before it in
    the reading order being numeric) the tab raises a [KeyError] naming
    the first missing column, before it draws a chart and before it
    creates a table. *)
Theorem cash_flow_tab_missing_column (r : ref) (st : state) (d : DataFrame)
    (label : Series) (before after : list string) (missing : string) :
  heap st !! r = Some d →
  get_col d LABEL = Some label →
  ["営業CF"; "投資CF"; "財務CF"; "フリーCF"] = (before ++ missing :: after)%list →
  Forall (λ c, ∃ vs, get_col d c = Some (NumSeries vs)) before →
  get_col d missing = None →
  tab_cf r st = (Raise (KeyError missing), st).
Proof.
  intros Hheap Hlabel Hsplit Hbefore Hmissing.
  assert (Hraise : col_numbers d missing = Raise (KeyError missing)).
  { unfold col_numbers, getitem. by rewrite Hmissing. }
  unfold tab_cf. rewrite (bind_deref r d) by done.
  rewrite (col_cells_Some d _ _ Hlabel), bind_lift_Ok.
  destruct before as [|c1 [|c2 [|c3 [|c4 before]]]]; cbn in Hsplit;
    simplify_eq.
  - by rewrite Hraise.
  - apply Forall_cons in Hbefore as [[v1 H1] _].
    rewrite (col_numbers_num d _ _ H1), bind_lift_Ok. by rewrite Hraise.
  - apply Forall_cons in Hbefore as [[v1 H1] Hbefore].
    apply Forall_cons in Hbefore as [[v2 H2] _].
    rewrite (col_numbers_num d _ _ H1), bind_lift_Ok.
    rewrite (col_numbers_num d _ _ H2), bind_lift_Ok. by rewrite Hraise.
  - apply Forall_cons in Hbefore as [[v1 H1] Hbefore].
    apply Forall_cons in Hbefore as [[v2 H2] Hbefore].
    apply Forall_cons in Hbefore as [[v3 H3] _].
    rewrite (col_numbers_num d _ _ H1), bind_lift_Ok.
    rewrite (col_numbers_num d _ _ H2), bind_lift_Ok.
    rewrite (col_numbers_num d _ _ H3), bind_lift_Ok. by rewrite Hraise.
  - by destruct before.
Qed.

Lemma cash_flow_tab_missing_column_witness :
  tab_cf 0 (start_state stock_table) =
    (Raise (KeyError "営業CF"), start_state stock_table).
Proof.
  apply (cash_flow_tab_missing_column 0 (start_state stock_table) stock_table
    (ObjectSeries [PStr "A"; PStr "B"]) [] ["投資CF"; "財務CF"; "フリーCF"]);
    try reflexivity.
  constructor.
Defined.

(** ** The comparison table of the first tab *)

Lemma select_columns_missing df names :
  Exists (λ c, c ∉ columns df) names →
  ∃ key, select_columns df names = Raise (KeyError key)
         ∧ key ∈ names ∧ key ∉ columns df.
Proof.
  induction names as [|n names IH]; intros Hex; [by apply Exists_nil in Hex|].
  cbn. unfold getitem. destruct (get_col df n) as [s|] eqn:Hn; cbn.
  - apply Exists_cons in Hex as [Hex|Hex].
    { apply get_col_Some_elem in Hn. exfalso. apply Hex. unfold columns.
      apply list_elem_of_fmap. by eexists (_, _). }
    destruct (IH Hex) as (key & -> & Hin & Hout). cbn.
    exists key. split; [done|]. split; [by right | done].
  - exists n. split; [done|]. split; [by left|]. by apply get_col_None.
Qed.

(** X26: the comparison table of the first tab takes the columns of its
    list without a check: it is built, with exactly these columns in this
    order and the values of the subset, when the subset has all of them,
    and the tab raises a [KeyError] as soon as one is missing. *)
Theorem pl_table_needs_every_column (df : DataFrame) :
  (Forall (λ c, c ∈ columns df) display_cols →
     ∃ t, pl_table df = Ok t
       ∧ columns t = display_cols
       ∧ ∀ c s, get_col t c = Some s → get_col df c = Some s)
  ∧ (Exists (λ c, c ∉ columns df) display_cols →
     ∃ key, pl_table df = Raise (KeyError key)
       ∧ key ∈ display_cols ∧ key ∉ columns df).
Proof.
  split.
  - intros Hall. rewrite Forall_forall in Hall.
    by apply select_columns_ok.
  - apply select_columns_missing.
Qed.

(** ** The lines of the trend charts *)

Lemma rmap_ext_Ok {A B} (f : A → result B) (g : A → B) l :
  (∀ x, f x = Ok (g x)) → rmap f l = Ok (g <$> l).
Proof.
  intros Hfg. induction l as [|x l IH]; cbn; [done|].
  by rewrite Hfg, IH.
Qed.

Lemma trend_line_spec t comp yrs s metric company :
  wf_frame t →
  get_col t "企業名" = Some comp →
  get_col t "決算年度" = Some (NumSeries yrs) →
  get_col t metric = Some s →
  (comp' ←r getitem t "企業名";
   let company_trend := df_mask t (eq_str comp' company) in
   years ←r col_numbers company_trend "決算年度";
   if df_empty company_trend then Ok []
   else
     values ←r col_cells company_trend metric;
     Ok [(get_display_name company, sorted_by_year years values)]) =
  Ok (if decide (company ∈ omap (λ o, match o with
                                      | PStr c => Some c
                                      | PNum _ => None
                                      end) (series_cells comp))
      then [(get_display_name company,
             sorted_by_year (mask_select (eq_str comp company) yrs)
               (mask_select (eq_str comp company) (series_cells s)))]
      else []).
Proof.
  intros Hwf Hcomp Hyr Hs.
  rewrite (getitem_Some _ _ _ Hcomp). cbn [rbind].
  rewrite (col_numbers_num (df_mask t _) _ (mask_select _ yrs))
    by (by rewrite get_col_df_mask, Hyr).
  cbn [rbind].
  assert (Hlen : length (eq_str comp company) = nrows t).
  { rewrite length_eq_str. by apply (wf_get_col t "企業名"). }
  destruct (df_empty (df_mask t (eq_str comp company))) eqn:Hempty.
  - rewrite decide_False; [done|]. intros Hin.
    apply list_elem_of_omap in Hin as (o & Ho & Hc).
    destruct o as [c|x]; [|done]. injection Hc as ->.
    apply list_elem_of_lookup_1 in Ho as [i Hi].
    assert (df_empty (df_mask t (eq_str comp company)) = false) as Hne.
    { apply (df_empty_false_iff t _ _ _ Hwf Hcomp Hlen).
      exists i. by apply eq_str_true. }
    congruence.
  - apply (df_empty_false_iff t _ _ _ Hwf Hcomp Hlen) in Hempty as [i Hi].
    apply eq_str_true in Hi.
    rewrite decide_True.
    + unfold col_cells. rewrite getitem_Some with (s := series_mask _ s)
        by (by rewrite get_col_df_mask, Hs).
      cbn [rbind]. by rewrite series_cells_mask.
    + apply list_elem_of_omap. exists (PStr company).
      split; [by eapply list_elem_of_lookup_2 | done].
Qed.

(** X27: a trend chart has one line for every selected company that has
    a row in the trend subset and none for the others, in the order of
    the selection; a line is labelled with the display name of its
    company and holds the values of the company's rows in the order of
    their fiscal years.  The trend subset is not changed. *)
Theorem trend_lines_per_company (r : ref) (st : state) (t : DataFrame)
    (comp s : Series) (yrs : list float) (metric : string)
    (selected_companies : list string) :
  heap st !! r = Some t →
  wf_frame t →
  get_col t "企業名" = Some comp →
  get_col t "決算年度" = Some (NumSeries yrs) →
  get_col t metric = Some s →
  trend_lines r selected_companies metric st =
    (Ok (omap (λ company,
                 if decide (company ∈ omap (λ o, match o with
                                                 | PStr c => Some c
                                                 | PNum _ => None
                                                 end) (series_cells comp))
                 then Some (get_display_name company,
                            sorted_by_year
                              (mask_select (eq_str comp company) yrs)
                              (mask_select (eq_str comp company)
                                 (series_cells s)))
                 else None)
           selected_companies),
     st).
Proof.
  intros Hheap Hwf Hcomp Hyr Hs. unfold trend_lines.
  rewrite (bind_deref r t) by done. unfold lift. do 2 f_equal.
  erewrite rmap_ext_Ok;
    [|intros company; by apply (trend_line_spec t comp yrs s metric)].
  cbn [rbind]. f_equal.
  induction selected_companies as [|c cs IH]; [done|].
  cbn [fmap list_fmap concat omap list_omap]. rewrite <- IH.
  by case_decide.
Qed.

Lemma trend_lines_per_company_witness :
  trend_lines 0 ["B"; "Z"; "A"] "売上高" (start_state abc_table) =
    (Ok [ ("B", [PNum 20; PNum 21]); ("A", [PNum 10; PNum 11]) ],
     start_state abc_table).
Proof.
  assert (Hwf : wf_frame abc_table) by decide_closed.
  rewrite (trend_lines_per_company 0 (start_state abc_table) abc_table
    _ _ _ "売上高" ["B"; "Z"; "A"] eq_refl Hwf eq_refl eq_refl eq_refl).
  vm_compute. reflexivity.
Defined.

